(** * vuex-rv: the module composition and dispatch engine

    A shallow embedding of [src/module/module-collection.js],
    [src/store-util.js] and [src/store.js].  Store code is translated
    function by function; code supplied by the application (mutation and
    action handlers, subscribers) is data of type [Cmd], interpreted by
    [run].  The first part is the embedding, the second the definitions
    that the statements use; the properties follow: those that the
    specification claims (C1 to C10) and further properties of the same
    code (X1 to X26), each after the lemmas that it rests on. *)

From Stdlib Require Import ZArith Lia.
From stdpp Require Import gmap strings list fin_maps pretty.

Set Warnings "-register-all".

(** ** JavaScript values *)

(** A promise is known by its identity [pid] and by its fate: whether and
    when (logical time) it settles, and with what. *)
Inductive val : Type :=
| VUndef
| VNull
| VBool (b : bool)
| VNum (n : Z)
| VStr (s : string)
| VObj (props : list (string * val))
| VArr (items : list val)
| VPromise (pid : nat) (f : fate)
with fate : Type :=
| Pending
| Fulfilled (t : nat) (v : val)
| Rejected (t : nat) (e : val).

(** Exceptions: values thrown by application code, the runtime's TypeError
    and the failures of [assert] (util.js).  [NotModelled] marks what the
    value model does not represent: a named property written on an array or
    on a promise, a property read from one of them or from a primitive, an
    inherited property, a number that is not printed digit by digit. *)
Inductive exn : Type :=
| UserExn (v : val)
| TypeError (msg : string)
| AssertFail (msg : string)
| NotModelled (msg : string).

Definition truthy (v : val) : bool :=
  match v with
  | VUndef | VNull => false
  | VBool b => b
  | VNum n => negb (n =? 0)%Z
  | VStr s => negb (String.eqb s "")
  | VObj _ | VArr _ | VPromise _ _ => true
  end.

(** Results of pure code that may throw. *)
Inductive res (A : Type) : Type :=
| Val (a : A)
| Err (e : exn).
Arguments Val {A} a.
Arguments Err {A} e.

Definition rbind {A B} (c : res A) (k : A -> res B) : res B :=
  match c with
  | Val a => k a
  | Err e => Err e
  end.

Declare Scope res_scope.
Delimit Scope res_scope with res.
Notation "x <- c ;; k" := (rbind c (fun x => k))
  (at level 100, c at next level, right associativity) : res_scope.

(** ** Objects as ordered property lists *)

Section Alist.
Context {A : Type}.

Fixpoint alist_get (k : string) (l : list (string * A)) : option A :=
  match l with
  | [] => None
  | (k', a) :: l' => if String.eqb k k' then Some a else alist_get k l'
  end.

(** [o[k] = a]: an existing property keeps its position. *)
Fixpoint alist_set (k : string) (a : A) (l : list (string * A)) : list (string * A) :=
  match l with
  | [] => [(k, a)]
  | (k', a') :: l' =>
      if String.eqb k k' then (k, a) :: l' else (k', a') :: alist_set k a l'
  end.

(** [delete o[k]] *)
Fixpoint alist_del (k : string) (l : list (string * A)) : list (string * A) :=
  match l with
  | [] => []
  | (k', a') :: l' =>
      if String.eqb k k' then alist_del k l' else (k', a') :: alist_del k l'
  end.

Definition alist_has (k : string) (l : list (string * A)) : bool :=
  match alist_get k l with Some _ => true | None => false end.
End Alist.

(** The names that an object inherits from [Object.prototype]. *)
Definition object_prototype : list string :=
  ["constructor"; "__defineGetter__"; "__defineSetter__"; "hasOwnProperty";
   "__lookupGetter__"; "__lookupSetter__"; "isPrototypeOf"; "propertyIsEnumerable";
   "toString"; "valueOf"; "__proto__"; "toLocaleString"].

Definition inherited (k : string) : bool := bool_decide (k ∈ object_prototype).

(** [o[k]] for a value [o].  An object has the properties of its list and
    inherits those of [Object.prototype], which are built-in functions: an
    inherited property that no own property shadows is read outside the
    value model, and so is every property of an array, of a promise and of
    a primitive (indices, lengths and methods). *)
Definition get_prop (o : val) (k : string) : res val :=
  match o with
  | VUndef | VNull => Err (TypeError "Cannot read properties of undefined")
  | VObj props =>
      match alist_get k props with
      | Some v => Val v
      | None =>
          if inherited k then Err (NotModelled "a property of Object.prototype")
          else Val VUndef
      end
  | _ => Err (NotModelled "a property of an array, a promise or a primitive")
  end.

(** [o.k] for the names that the store reads from its arguments ([type],
    [root], [silent]), which no prototype defines: own properties only. *)
Definition member (o : val) (k : string) : val :=
  match o with
  | VObj props => default VUndef (alist_get k props)
  | _ => VUndef
  end.

(** [k in o]: own and inherited properties. *)
Definition has_prop (o : val) (k : string) : res bool :=
  match o with
  | VObj props => Val (alist_has k props || inherited k)
  | VArr _ | VPromise _ _ =>
      Err (NotModelled "a property of an array, a promise or a primitive")
  | _ => Err (TypeError "Cannot use 'in' operator to search in a non-object")
  end.

(** [o[k] = v] (module code is strict mode code) *)
Definition set_prop (k : string) (v : val) (o : val) : res val :=
  match o with
  | VObj props => Val (VObj (alist_set k v props))
  | VUndef | VNull => Err (TypeError "Cannot set properties of undefined")
  | VArr _ | VPromise _ _ => Err (NotModelled "named property of an array or a promise")
  | _ => Err (TypeError "Cannot create property on a primitive")
  end.

(** [delete o[k]] *)
Definition delete_prop (k : string) (o : val) : res val :=
  match o with
  | VObj props => Val (VObj (alist_del k props))
  | VUndef | VNull => Err (TypeError "Cannot convert undefined or null to object")
  | _ => Val o
  end.

(** [path.slice(0, -1)] and [path[path.length - 1]]; used as a property
    key, the [undefined] of an empty path reads "undefined". *)
Definition slice_init (path : list string) : list string := removelast path.
Definition last_key (path : list string) : string := default "undefined" (last path).

(** The integers that a number holds exactly, which are printed digit by
    digit. *)
Definition safe_integer (n : Z) : bool := (Z.abs n <=? 9007199254740991)%Z.

(** The string a value turns into as a property key, in a template and as
    an operand of [+] with a string.  Numbers are the integers; an object
    is printed by the [toString] that it inherits, which an own property of
    that name (no function, in this value model) would hide. *)
Fixpoint to_string (v : val) : res string :=
  match v with
  | VUndef => Val "undefined"
  | VNull => Val "null"
  | VBool b => Val (if b then "true" else "false")
  | VNum n =>
      if safe_integer n then Val (pretty n)
      else Err (NotModelled "a number beyond the safe integers")
  | VStr s => Val s
  | VObj props =>
      if alist_has "toString" props
      then Err (TypeError "Cannot convert object to primitive value")
      else Val "[object Object]"
  | VArr items =>
      parts <-
        (fix each (items : list val) : res (list string) :=
           match items with
           | [] => Val []
           | x :: items' =>
               part <- match x with VUndef | VNull => Val "" | _ => to_string x end ;;
               parts <- each items' ;;
               Val (part :: parts)
           end) items ;;
      Val (String.concat "," parts)
  | VPromise _ _ => Val "[object Promise]"
  end%res.

(** ** The order of the keys of an object *)

(** The keys that are array indices: the decimal prints, without a leading
    zero, of the integers below [2^32 - 1]. *)
Definition digit (c : Ascii.ascii) : option N :=
  let n := Ascii.N_of_ascii c in
  if (48 <=? n)%N && (n <=? 57)%N then Some (n - 48)%N else None.

Fixpoint digits (k : string) (acc : N) : option N :=
  match k with
  | EmptyString => Some acc
  | String c k' =>
      match digit c with
      | Some d => digits k' (10 * acc + d)%N
      | None => None
      end
  end.

Definition array_index (k : string) : option N :=
  match k with
  | EmptyString => None
  | String c k' =>
      if (Ascii.N_of_ascii c =? 48)%N && negb (String.eqb k' "") then None
      else
        match digits k 0 with
        | Some n => if (n <? 4294967295)%N then Some n else None
        | None => None
        end
  end.

Fixpoint insert_index (i : N) (k : string) (l : list (N * string)) : list (N * string) :=
  match l with
  | [] => [(i, k)]
  | (j, k') :: l' => if (i <? j)%N then (i, k) :: l else (j, k') :: insert_index i k l'
  end.

(** Each key once, where it comes first. *)
Fixpoint first_keys (l : list string) : list string :=
  match l with
  | [] => []
  | k :: l' => k :: List.filter (fun k' => negb (String.eqb k' k)) (first_keys l')
  end.

(** The keys of the object written with the entries [l], as [for ... in]
    enumerates them: the array indices in ascending order, then the other
    keys in the order in which they were written. *)
Definition own_keys {A} (l : list (string * A)) : list string :=
  let keys := first_keys (map fst l) in
  map snd
    (foldr (fun k sorted =>
              match array_index k with
              | Some i => insert_index i k sorted
              | None => sorted
              end) [] keys)
  ++ List.filter (fun k => match array_index k with Some _ => false | None => true end) keys.

(** ** Application code *)

(** [Scoped]: through the module's local context; [Global]: through the
    store. *)
Inductive scope : Type := Scoped | Global.

(** What a handler or a subscriber may do, in the order it does it:
    return, throw, print, read the state, mutate a state object in place,
    commit and dispatch (through the module's local context or through the
    store), catch what a part of it throws ([try { v = body } catch
    { v = handler }], then [k v]) and make a promise of a given fate. *)
Inductive Cmd : Type :=
| Ret (v : val)
| Throw (e : val)
| Print (msg : string) (k : Cmd)
| GetState (sc : scope) (k : val -> Cmd)
| Mutate (sc : scope) (rel : list string)
         (f : list (string * val) -> list (string * val)) (k : Cmd)
| Commit (sc : scope) (type payload options : val) (k : Cmd)
| Dispatch (sc : scope) (type payload options : val) (k : val -> Cmd)
| Try (body handler : Cmd) (k : val -> Cmd)
| NewPromise (f : fate) (k : val -> Cmd).

(** [mutation(localState, payload)] *)
Definition Mutation : Type := val -> val -> Cmd.
(** [action({state, rootState, ...}, payload)]; [dispatch] and [commit] of
    the context are the [Scoped] commands. *)
Definition Action : Type := val -> val -> val -> Cmd.
(** [{ root, handler }]; a bare function is [{ root: false, handler }]. *)
Record ActionDef : Type := mkActionDef { act_root : bool; act_handler : Action }.
(** [getter(localState, rootState)]; the getter tables passed to a getter
    belong to the reactivity provider. *)
Definition Getter : Type := val -> val -> val.

(** ** Modules *)

(** The raw definition of a module, as given to [createStore]. *)
Inductive RawModule : Type := mkRawModule {
  raw_state : val;
  raw_namespaced : bool;
  raw_mutations : list (string * Mutation);
  raw_actions : list (string * ActionDef);
  raw_getters : list (string * Getter);
  raw_modules : list (string * RawModule)
}.

(** Modelled from the spec: the Module class ([src/module/module.js] is not
    among the sources).  Fields as in section 3 (raw definition, runtime
    flag, materialized state, children); operations as in section 4.1,
    where [forEachChild], [forEachMutation], [forEachAction] and
    [forEachGetter] enumerate in the declared order: the order of the
    lists. *)
Inductive Module : Type := mkModule {
  runtime : bool;
  _rawModule : RawModule;
  state : val;
  _children : list (string * Module)
}.

Module Mod.
(** [new Module(rawModule, runtime)]: the state is materialized from the
    raw definition, there are no children yet. *)
Definition new (rawModule : RawModule) (rt : bool) : Module :=
  mkModule rt rawModule (raw_state rawModule) [].

Definition namespaced (m : Module) : bool := raw_namespaced (_rawModule m).
Definition getChild (key : string) (m : Module) : option Module :=
  alist_get key (_children m).
Definition hasChild (key : string) (m : Module) : bool :=
  alist_has key (_children m).
Definition addChild (key : string) (c : Module) (m : Module) : Module :=
  mkModule (runtime m) (_rawModule m) (state m) (alist_set key c (_children m)).
Definition removeChild (key : string) (m : Module) : Module :=
  mkModule (runtime m) (_rawModule m) (state m) (alist_del key (_children m)).

(** [update] replaces the mutation, action, getter and child definitions
    and leaves the materialized state (and the children) untouched. *)
Definition update (newRaw : RawModule) (m : Module) : Module :=
  let old := _rawModule m in
  mkModule (runtime m)
    (mkRawModule (raw_state old) (raw_namespaced old)
       (raw_mutations newRaw) (raw_actions newRaw) (raw_getters newRaw)
       (raw_modules newRaw))
    (state m) (_children m).

Definition mutations (m : Module) := raw_mutations (_rawModule m).
Definition actions (m : Module) := raw_actions (_rawModule m).
Definition getters (m : Module) := raw_getters (_rawModule m).
End Mod.

(** ** The console *)

Inductive LogEntry : Type :=
| LError (msg : string)
| LWarn (msg : string)
| LErrorExn (e : exn)
| LPrint (msg : string).

(** ** ModuleCollection (module/module-collection.js) *)

Module ModuleCollection.
Import Mod.
Open Scope res_scope.

(** [path.reduce((module, key) => module.getChild(key), start)] *)
Fixpoint get_from (module : option Module) (path : list string) : res (option Module) :=
  match path with
  | [] => Val module
  | key :: rest =>
      match module with
      | None => Err (TypeError "Cannot read properties of undefined (reading 'getChild')")
      | Some m => get_from (getChild key m) rest
      end
  end.

Definition get (root : Module) (path : list string) : res (option Module) :=
  get_from (Some root) path.

Fixpoint getNamespace_from (module : Module) (namespace : string)
    (path : list string) : res string :=
  match path with
  | [] => Val namespace
  | key :: rest =>
      match getChild key module with
      | None => Err (TypeError "Cannot read properties of undefined (reading 'namespaced')")
      | Some m =>
          getNamespace_from m
            (namespace +:+ (if namespaced m then key +:+ "/" else "")) rest
      end
  end.

Definition getNamespace (root : Module) (path : list string) : res string :=
  getNamespace_from root "" path.

(** A method call that changes, in place, the module found at [path]. *)
Fixpoint modify_at (path : list string) (f : Module -> Module) (m : Module) : res Module :=
  match path with
  | [] => Val (f m)
  | key :: rest =>
      match getChild key m with
      | None => Err (TypeError "Cannot read properties of undefined")
      | Some c => c' <- modify_at rest f c ;; Val (addChild key c' m)
      end
  end.

(** [register (path, rawModule, runtime = true)].  [assertRawModule] checks
    that getters and mutations are functions and actions functions or
    objects with a handler, which the types of [RawModule] ensure.
    Modelled from the spec: [forEachValue] of [src/util.js], which is not
    among the sources, goes through the child definitions in the declared
    order. *)
Fixpoint register (path : list string) (rawModule : RawModule) (rt : bool)
    (root : option Module) {struct rawModule} : res (option Module) :=
  let newModule := new rawModule rt in
  root1 <-
    match path with
    | [] => Val (Some newModule)
    | _ =>
        match root with
        | None => Err (TypeError "Cannot read properties of undefined")
        | Some r =>
            r' <- modify_at (slice_init path) (addChild (last_key path) newModule) r ;;
            Val (Some r')
        end
    end ;;
  (fix each (cs : list (string * RawModule)) (root : option Module) : res (option Module) :=
     match cs with
     | [] => Val root
     | (key, rawChildModule) :: cs' =>
         root' <- register (path ++ [key]) rawChildModule rt root ;;
         each cs' root'
     end) (raw_modules rawModule) root1.

(** [new ModuleCollection(rawRootModule)] *)
Definition create (rawRootModule : RawModule) : res Module :=
  r <- register [] rawRootModule false None ;;
  match r with
  | Some root => Val root
  | None => Err (TypeError "root is undefined")
  end.

(** [unregister (path)]: the new tree and what was written on the console. *)
Definition unregister (DEV : bool) (path : list string) (root : Module)
    : res (Module * list LogEntry) :=
  parent <- get root (slice_init path) ;;
  let key := last_key path in
  match parent with
  | None => Err (TypeError "Cannot read properties of undefined (reading 'getChild')")
  | Some p =>
      match getChild key p with
      | None =>
          Val (root,
               if DEV
               then [LWarn ("[vuex] trying to unregister module '" +:+ key +:+
                            "', which is not registered")]
               else [])
      | Some child =>
          if negb (runtime child) then Val (root, [])
          else
            root' <- modify_at (slice_init path) (removeChild key) root ;;
            Val (root', [])
      end
  end.

Definition isRegistered (path : list string) (root : Module) : res bool :=
  parent <- get root (slice_init path) ;;
  let key := last_key path in
  match parent with
  | Some p => Val (hasChild key p)
  | None => Val false
  end.

(** [update (path, targetModule, newModule)], the function below the class.
    The loop is over the keys of [newModule.modules] in the order of
    [for ... in]; [newModule.modules[key]] is the entry written last under
    the key. *)
Fixpoint update (DEV : bool) (path : list string) (targetModule : Module)
    (newModule : RawModule) {struct newModule} : Module * list LogEntry :=
  let target1 := Mod.update newModule targetModule in
  (fix each (keys : list string) (target : Module) (logs : list LogEntry)
     : Module * list LogEntry :=
     match keys with
     | [] => (target, logs)
     | key :: keys' =>
         match getChild key target with
         | None =>
             (target,
              logs ++
              if DEV
              then [LWarn ("[vuex] trying to add a new module '" +:+ key +:+
                           "' on hot reloading, manual reload is needed")]
              else [])
         | Some child =>
             let '(child', l) :=
               (fix entry (cs : list (string * RawModule)) (found : Module * list LogEntry)
                  : Module * list LogEntry :=
                  match cs with
                  | [] => found
                  | (k, rawChild) :: cs' =>
                      entry cs'
                        (if String.eqb key k
                         then update DEV (path ++ [key]) child rawChild
                         else found)
                  end) (raw_modules newModule) (child, []) in
             each keys' (addChild key child' target) (logs ++ l)
         end
     end) (own_keys (raw_modules newModule)) target1 [].
End ModuleCollection.

(** ** The store *)

(** [makeLocalContext (store, namespace, path)]: the local context of a
    module is determined by its namespace and its path; its [dispatch],
    [commit] and [state] are [local_dispatch], [local_commit] and
    [local_state] below. *)
Record Local : Type := mkLocal { l_namespace : string; l_path : list string }.

Definition makeLocalContext (namespace : string) (path : list string) : Local :=
  mkLocal namespace path.

(** [sub(mutation, state)] *)
Definition Subscriber : Type := val -> val -> Cmd.

(** [{ before, after, error }] *)
Record ActionSub : Type := mkActionSub {
  sub_before : option (val -> val -> Cmd);
  sub_after : option (val -> val -> Cmd);
  sub_error : option (val -> val -> val -> Cmd)
}.

(** The fields of [Store] that the engine uses.  [_state] is [_state.data],
    [None] while [_state] is undefined; [_modules] is [_modules.root];
    [_modulesNamespaceMap] keeps the path of the module it refers to;
    [_devtoolHook] tells whether a hook is installed.  The last three
    fields are the runtime: the console, the next fresh object identity and
    the logical time. *)
Record Store : Type := mkStore {
  _committing : bool;
  _actions : gmap string (list (Local * Action));
  _actionSubscribers : list ActionSub;
  _mutations : gmap string (list (Local * Mutation));
  _wrappedGetters : gmap string (Local * Getter);
  _modules : Module;
  _modulesNamespaceMap : gmap string (list string);
  _subscribers : list Subscriber;
  _state : option val;
  strict : bool;
  _devtoolHook : bool;
  console : list LogEntry;
  next_pid : nat;
  now : nat
}.

Definition set_committing (b : bool) (s : Store) : Store :=
  mkStore b (_actions s) (_actionSubscribers s) (_mutations s) (_wrappedGetters s)
    (_modules s) (_modulesNamespaceMap s) (_subscribers s) (_state s) (strict s)
    (_devtoolHook s) (console s) (next_pid s) (now s).
Definition set_actions (a : gmap string (list (Local * Action))) (s : Store) : Store :=
  mkStore (_committing s) a (_actionSubscribers s) (_mutations s) (_wrappedGetters s)
    (_modules s) (_modulesNamespaceMap s) (_subscribers s) (_state s) (strict s)
    (_devtoolHook s) (console s) (next_pid s) (now s).
Definition set_actionSubscribers (subs : list ActionSub) (s : Store) : Store :=
  mkStore (_committing s) (_actions s) subs (_mutations s) (_wrappedGetters s)
    (_modules s) (_modulesNamespaceMap s) (_subscribers s) (_state s) (strict s)
    (_devtoolHook s) (console s) (next_pid s) (now s).
Definition set_subscribers (subs : list Subscriber) (s : Store) : Store :=
  mkStore (_committing s) (_actions s) (_actionSubscribers s) (_mutations s)
    (_wrappedGetters s) (_modules s) (_modulesNamespaceMap s) subs (_state s) (strict s)
    (_devtoolHook s) (console s) (next_pid s) (now s).
Definition set_mutations (m : gmap string (list (Local * Mutation))) (s : Store) : Store :=
  mkStore (_committing s) (_actions s) (_actionSubscribers s) m (_wrappedGetters s)
    (_modules s) (_modulesNamespaceMap s) (_subscribers s) (_state s) (strict s)
    (_devtoolHook s) (console s) (next_pid s) (now s).
Definition set_wrappedGetters (g : gmap string (Local * Getter)) (s : Store) : Store :=
  mkStore (_committing s) (_actions s) (_actionSubscribers s) (_mutations s) g
    (_modules s) (_modulesNamespaceMap s) (_subscribers s) (_state s) (strict s)
    (_devtoolHook s) (console s) (next_pid s) (now s).
Definition set_modules (m : Module) (s : Store) : Store :=
  mkStore (_committing s) (_actions s) (_actionSubscribers s) (_mutations s)
    (_wrappedGetters s) m (_modulesNamespaceMap s) (_subscribers s) (_state s)
    (strict s) (_devtoolHook s) (console s) (next_pid s) (now s).
Definition set_modulesNamespaceMap (m : gmap string (list string)) (s : Store) : Store :=
  mkStore (_committing s) (_actions s) (_actionSubscribers s) (_mutations s)
    (_wrappedGetters s) (_modules s) m (_subscribers s) (_state s) (strict s)
    (_devtoolHook s) (console s) (next_pid s) (now s).
Definition set_state (st : option val) (s : Store) : Store :=
  mkStore (_committing s) (_actions s) (_actionSubscribers s) (_mutations s)
    (_wrappedGetters s) (_modules s) (_modulesNamespaceMap s) (_subscribers s) st
    (strict s) (_devtoolHook s) (console s) (next_pid s) (now s).
Definition set_console (c : list LogEntry) (s : Store) : Store :=
  mkStore (_committing s) (_actions s) (_actionSubscribers s) (_mutations s)
    (_wrappedGetters s) (_modules s) (_modulesNamespaceMap s) (_subscribers s)
    (_state s) (strict s) (_devtoolHook s) c (next_pid s) (now s).
Definition set_next_pid (n : nat) (s : Store) : Store :=
  mkStore (_committing s) (_actions s) (_actionSubscribers s) (_mutations s)
    (_wrappedGetters s) (_modules s) (_modulesNamespaceMap s) (_subscribers s)
    (_state s) (strict s) (_devtoolHook s) (console s) n (now s).

(** ** Store code: state passing, exceptions, and fuel for the calls that
    application code makes back into the store *)

Inductive Result (A : Type) : Type :=
| Ok (a : A) (s : Store)
| Exn (e : exn) (s : Store)
| Diverge.
Arguments Ok {A} a s.
Arguments Exn {A} e s.
Arguments Diverge {A}.

Definition M (A : Type) : Type := Store -> Result A.

Definition ret {A} (a : A) : M A := fun s => Ok a s.
Definition throw {A} (e : exn) : M A := fun s => Exn e s.
Definition bind {A B} (c : M A) (k : A -> M B) : M B :=
  fun s =>
    match c s with
    | Ok a s' => k a s'
    | Exn e s' => Exn e s'
    | Diverge => Diverge
    end.
(** [try { c } catch (e) { h e }] *)
Definition try_catch {A} (c : M A) (h : exn -> M A) : M A :=
  fun s =>
    match c s with
    | Exn e s' => h e s'
    | r => r
    end.
Definition lift {A} (r : res A) : M A :=
  fun s => match r with Val a => Ok a s | Err e => Exn e s end.
Definition gets {A} (f : Store -> A) : M A := fun s => Ok (f s) s.
Definition modify (f : Store -> Store) : M unit := fun s => Ok tt (f s).

Declare Scope M_scope.
Delimit Scope M_scope with M.
Notation "x <- c ;; k" := (bind c (fun x => k))
  (at level 100, c at next level, right associativity) : M_scope.
Notation "c ;; k" := (bind c (fun _ => k))
  (at level 100, k at level 200, right associativity) : M_scope.

Open Scope M_scope.

(** [xs.forEach(f)] *)
Fixpoint forEach {A} (xs : list A) (f : A -> M unit) : M unit :=
  match xs with
  | [] => ret tt
  | x :: xs' => f x ;; forEach xs' f
  end.

(** [xs.map(f)] *)
Fixpoint mapM {A B} (xs : list A) (f : A -> M B) : M (list B) :=
  match xs with
  | [] => ret []
  | x :: xs' => y <- f x ;; ys <- mapM xs' f ;; ret (y :: ys)
  end.

Definition when (b : bool) (c : M unit) : M unit := if b then c else ret tt.
Definition log (e : LogEntry) : M unit :=
  modify (fun s => set_console (console s ++ [e]) s).

(** Modelled from the spec: [assert] of [src/util.js], which is not among the
    sources: a violation raises a descriptive assertion. *)
Definition assert (condition : bool) (msg : string) : M unit :=
  if condition then ret tt else throw (AssertFail ("[vuex] " +:+ msg)).

(** Modelled from the spec: [isObject] and [isPromise] of [src/util.js]. *)
Definition isObject (v : val) : bool :=
  match v with VObj _ | VArr _ | VPromise _ _ => true | _ => false end.
Definition isPromise (v : val) : bool :=
  match v with VPromise _ _ => true | _ => false end.

Definition typeof (v : val) : string :=
  match v with
  | VUndef => "undefined"
  | VBool _ => "boolean"
  | VNum _ => "number"
  | VStr _ => "string"
  | _ => "object"
  end.
Definition is_string (v : val) : bool :=
  match v with VStr _ => true | _ => false end.

Open Scope res_scope.

(** [getNestedState (state, path)] *)
Fixpoint getNestedState (st : val) (path : list string) : res val :=
  match path with
  | [] => Val st
  | key :: rest => v <- get_prop st key ;; getNestedState v rest
  end.

(** An in-place change [g] of the object [getNestedState (st, path)], seen
    from the root [st]: the objects on the path are read as [getNestedState]
    reads them, and each one holds the changed object under its key. *)
Fixpoint update_at (path : list string) (g : val -> res val) (st : val) : res val :=
  match path with
  | [] => g st
  | key :: rest =>
      v <- get_prop st key ;;
      v' <- update_at rest g v ;;
      Val (match st with
           | VObj props =>
               if alist_has key props then VObj (alist_set key v' props) else st
           | _ => st
           end)
  end.

Close Scope res_scope.

(** ** Promises, by their fate *)

Module Promise.
(** A promise that settled before [now] is seen settled at [now]. *)
Definition clamp (now : nat) (f : fate) : fate :=
  match f with
  | Pending => Pending
  | Fulfilled t v => Fulfilled (Nat.max now t) v
  | Rejected t e => Rejected (Nat.max now t) e
  end.

Definition fate_of (now : nat) (v : val) : fate :=
  match v with
  | VPromise _ f => clamp now f
  | _ => Fulfilled now v
  end.

(** The earliest rejection, the first in the list among equals. *)
Fixpoint first_rejection (fs : list fate) : option (nat * val) :=
  match fs with
  | [] => None
  | f :: fs' =>
      match f, first_rejection fs' with
      | Rejected t e, Some (t', e') => if t' <? t then Some (t', e') else Some (t, e)
      | Rejected t e, None => Some (t, e)
      | _, r => r
      end
  end.

(** When all are fulfilled: the time of the last fulfilment and the values. *)
Fixpoint all_fulfilled (now : nat) (fs : list fate) : option (nat * list val) :=
  match fs with
  | [] => Some (now, [])
  | Fulfilled t v :: fs' =>
      match all_fulfilled now fs' with
      | Some (t', vs) => Some (Nat.max t t', v :: vs)
      | None => None
      end
  | _ => None
  end.

(** The fate of [Promise.all(ps)], called at [now]. *)
Definition all_fate (now : nat) (ps : list val) : fate :=
  let fs := map (fate_of now) ps in
  match first_rejection fs with
  | Some (t, e) => Rejected t e
  | None =>
      match all_fulfilled now fs with
      | Some (t, vs) => Fulfilled t (VArr vs)
      | None => Pending
      end
  end.
End Promise.

(** ** store-util.js and store.js *)

(** [genericSubscribe (fn, subs, options)] for subscribers that can be told
    apart ([indexOf] compares with [===]), and the function that it
    returns, called on the list as it is by then.  [subscribe] and
    [subscribeAction] apply it to [_subscribers] and to
    [_actionSubscribers]. *)
Module Subscription.
Section Identity.
Context {A : Type} `{EqDecision A}.

(** [subs.indexOf (fn)]; [None] is [-1]. *)
Fixpoint indexOf (fn : A) (subs : list A) : option nat :=
  match subs with
  | [] => None
  | x :: subs' => if decide (x = fn) then Some 0 else S <$> indexOf fn subs'
  end.

Definition genericSubscribe (fn : A) (subs : list A) (prepend : bool) : list A :=
  match indexOf fn subs with
  | None => if prepend then fn :: subs else subs ++ [fn]
  | Some _ => subs
  end.

(** [() => { const i = subs.indexOf (fn); if (i > -1) { subs.splice (i, 1) } }] *)
Definition unsubscribe (fn : A) (subs : list A) : list A :=
  match indexOf fn subs with
  | Some i => take i subs ++ drop (S i) subs
  | None => subs
  end.
End Identity.
End Subscription.

Section Engine.
(** The build flag [__DEV__]. *)
Variable DEV : bool.

(** The identity of a new object: every promise that the store or the
    application makes takes the next one. *)
Definition fresh_pid : M nat :=
  fun s => Ok (next_pid s) (set_next_pid (S (next_pid s)) s).

(** [get state () { return this._state.data }] *)
Definition get_state : M val :=
  fun s =>
    match _state s with
    | Some st => Ok st s
    | None => Exn (TypeError "Cannot read properties of undefined (reading 'data')") s
    end.

(** [enableStrictMode]: the reactivity provider runs this watcher,
    synchronously, on every write into the state that [_state] holds. *)
Definition strict_watcher : M unit :=
  s <- gets (fun s => s) ;;
  when (strict s && bool_decide (is_Some (_state s)))
    (when DEV
       (assert (_committing s) "do not mutate vuex store state outside mutation handlers.")).

(** [_withCommit (fn)] *)
Definition _withCommit {A} (fn : M A) : M A :=
  committing <- gets _committing ;;
  modify (set_committing true) ;;
  a <- fn ;;
  modify (set_committing committing) ;;
  ret a.

(** [unifyObjectStyle (type, payload, options)]: first the arguments of an
    object-style call are shifted, *)
Definition objectStyle (type payload options : val) : val * val * val :=
  if isObject type && truthy (member type "type")
  then (member type "type", type, payload)
  else (type, payload, options).

(** then the type is checked. *)
Definition unifyObjectStyle (type payload options : val) : M (val * val * val) :=
  let '(type, payload, options) := objectStyle type payload options in
  when DEV
    (assert (is_string type)
       ("expects string as the type, but found " +:+ typeof type +:+ ".")) ;;
  ret (type, payload, options).

Definition root_local : Local := mkLocal "" [].

(** [local.state]: [getNestedState (store.state, path)] *)
Definition local_state (local : Local) : M val :=
  st <- get_state ;;
  lift (getNestedState st (l_path local)).

Definition registered {A} (registry : gmap string A) (type : string) : bool :=
  bool_decide (is_Some (registry !! type)).

Section Calls.
(** [store.commit] and [store.dispatch] as application code and the
    local contexts see them: the functions bound in the constructor. *)
Variable boundCommit : val -> val -> val -> M val.
Variable boundDispatch : val -> val -> M val.

(** [local.dispatch] of [makeLocalContext] *)
Definition local_dispatch (local : Local) (_type _payload _options : val) : M val :=
  let namespace := l_namespace local in
  if String.eqb namespace "" then boundDispatch _type _payload
  else
    args <- unifyObjectStyle _type _payload _options ;;
    let '(args_type, payload, options) := args in
    if negb (truthy options) || negb (truthy (member options "root"))
    then
      local_type <- lift (to_string args_type) ;;
      let type := namespace +:+ local_type in
      actions <- gets _actions ;;
      if DEV && negb (registered actions type)
      then
        log (LError ("[vuex] unknown local action type: " +:+ local_type +:+
                     ", global type: " +:+ type)) ;;
        ret VUndef
      else boundDispatch (VStr type) payload
    else boundDispatch args_type payload.

(** [local.commit] of [makeLocalContext] *)
Definition local_commit (local : Local) (_type _payload _options : val) : M val :=
  let namespace := l_namespace local in
  if String.eqb namespace "" then boundCommit _type _payload _options
  else
    args <- unifyObjectStyle _type _payload _options ;;
    let '(args_type, payload, options) := args in
    if negb (truthy options) || negb (truthy (member options "root"))
    then
      local_type <- lift (to_string args_type) ;;
      let type := namespace +:+ local_type in
      mutations <- gets _mutations ;;
      if DEV && negb (registered mutations type)
      then
        log (LError ("[vuex] unknown local mutation type: " +:+ local_type +:+
                     ", global type: " +:+ type)) ;;
        ret VUndef
      else boundCommit (VStr type) payload options ;; ret VUndef
    else boundCommit args_type payload options ;; ret VUndef.

Definition scope_path (sc : scope) (local : Local) : list string :=
  match sc with Scoped => l_path local | Global => [] end.

(** In-place mutation is of objects only. *)
Definition mutate_obj (f : list (string * val) -> list (string * val)) (v : val) : res val :=
  match v with
  | VObj props => Val (VObj (f props))
  | VUndef | VNull => Err (TypeError "Cannot set properties of undefined")
  | _ => Err (TypeError "Cannot create property on a primitive")
  end.

(** Application code, run in the local context of its module
    ([root_local] for subscribers). *)
Fixpoint run (local : Local) (c : Cmd) : M val :=
  match c with
  | Ret v => ret v
  | Throw e => throw (UserExn e)
  | Print msg k => log (LPrint msg) ;; run local k
  | GetState sc k =>
      st <- get_state ;;
      v <- lift (getNestedState st (scope_path sc local)) ;;
      run local (k v)
  | Mutate sc rel f k =>
      st <- get_state ;;
      st' <- lift (update_at (scope_path sc local ++ rel) (mutate_obj f) st) ;;
      modify (set_state (Some st')) ;;
      strict_watcher ;;
      run local k
  | Commit sc type payload options k =>
      match sc with
      | Scoped => local_commit local type payload options
      | Global => boundCommit type payload options
      end ;;
      run local k
  | Dispatch sc type payload options k =>
      v <- match sc with
           | Scoped => local_dispatch local type payload options
           | Global => boundDispatch type payload
           end ;;
      run local (k v)
  | Try body handler k =>
      v <- try_catch (run local body) (fun _ => run local handler) ;;
      run local (k v)
  | NewPromise f k =>
      pid <- fresh_pid ;;
      run local (k (VPromise pid f))
  end.

(** [wrappedMutationHandler (payload)] of [registerMutation] *)
Definition wrappedMutationHandler (entry : Local * Mutation) (payload : val) : M unit :=
  let '(local, handler) := entry in
  st <- local_state local ;;
  run local (handler st payload) ;;
  ret tt.

(** [wrappedActionHandler (payload)] of [registerAction] *)
Definition wrappedActionHandler (entry : Local * Action) (payload : val) : M val :=
  let '(local, handler) := entry in
  st <- local_state local ;;
  rootState <- get_state ;;
  res <- run local (handler st rootState payload) ;;
  res <- (if isPromise res then ret res
          else (* Promise.resolve(res) *)
            pid <- fresh_pid ;;
            t <- gets now ;;
            ret (VPromise pid (Fulfilled t res))) ;;
  hook <- gets _devtoolHook ;;
  if hook
  then (* res.catch(err => { emit; throw err }) *)
    pid <- fresh_pid ;;
    t <- gets now ;;
    ret (VPromise pid (Promise.fate_of t res))
  else ret res.

Definition silent_removed (type : string) : LogEntry :=
  LWarn ("[vuex] mutation type: " +:+ type +:+ ". Silent option has been removed. " +:+
         "Use the filter functionality in the vue-devtools").

(** [this._subscribers.slice ().forEach (sub => sub (mutation, this.state))] *)
Definition notify_subscribers (mutation : val) : M unit :=
  subs <- gets _subscribers ;;
  forEach subs (fun sub =>
    st <- get_state ;;
    run root_local (sub mutation st) ;;
    ret tt).

(** [commit (_type, _payload, _options)] *)
Definition commit_body (_type _payload _options : val) : M val :=
  args <- unifyObjectStyle _type _payload _options ;;
  let '(type, payload, options) := args in
  let mutation := VObj [("type", type); ("payload", payload)] in
  mutations <- gets _mutations ;;
  key <- lift (to_string type) ;;
  match mutations !! key with
  | None =>
      when DEV (log (LError ("[vuex] unknown mutation type: " +:+ key))) ;;
      ret VUndef
  | Some entry =>
      _withCommit (forEach entry (fun handler => wrappedMutationHandler handler payload)) ;;
      notify_subscribers mutation ;;
      when (DEV && truthy options && truthy (member options "silent"))
        (log (silent_removed key)) ;;
      ret VUndef
  end.

Definition has_before (sub : ActionSub) : bool := bool_decide (is_Some (sub_before sub)).

(** [sub.before (action, this.state)], [sub.after (action, this.state)] and
    [sub.error (action, this.state, error)] *)
Definition call_before (action : val) (sub : ActionSub) : M unit :=
  match sub_before sub with
  | Some before => st <- get_state ;; run root_local (before action st) ;; ret tt
  | None => ret tt
  end.

Definition call_after (action : val) (sub : ActionSub) : M unit :=
  match sub_after sub with
  | Some after => st <- get_state ;; run root_local (after action st) ;; ret tt
  | None => ret tt
  end.

Definition call_error (action error : val) (sub : ActionSub) : M unit :=
  match sub_error sub with
  | Some on_error => st <- get_state ;; run root_local (on_error action st error) ;; ret tt
  | None => ret tt
  end.

(** [catch (e) { if (__DEV__) { console.warn (...); console.error (e) } }] *)
Definition report_caught (phase : string) (e : exn) : M unit :=
  when DEV
    (log (LWarn ("[vuex] error in " +:+ phase +:+ " action subscribers: ")) ;;
     log (LErrorExn e)).

(** The three [try] blocks of [dispatch]. *)
Definition before_subscribers (action : val) : M unit :=
  try_catch
    (subs <- gets _actionSubscribers ;;
     forEach (List.filter has_before subs) (call_before action))
    (report_caught "before").






(** The fate of [new Promise((resolve, reject) => result.then(...))]:
    it settles when [result] does, as the callback says. *)
Definition settled_by_callbacks (result : fate) : fate :=
  match result with
  | Pending => Pending
  | Fulfilled t res => Fulfilled t res
  | Rejected t error => Rejected t error
  end.

(** The handlers are called and the promise of [dispatch] is made. *)
Definition invoke_handlers (entry : list (Local * Action)) (payload : val) : M val :=
  result <-
    (if 1 <? length entry
     then
       ps <- mapM entry (fun handler => wrappedActionHandler handler payload) ;;
       pid <- fresh_pid ;;
       t <- gets now ;;
       ret (VPromise pid (Promise.all_fate t ps))
     else
       match entry with
       | handler :: _ => wrappedActionHandler handler payload
       | [] => throw (TypeError "entry[0] is not a function")
       end) ;;
  pid <- fresh_pid ;;
  t <- gets now ;;
  ret (VPromise pid (settled_by_callbacks (Promise.fate_of t result))).

(** [dispatch (_type, _payload)] *)
Definition dispatch_body (_type _payload : val) : M val :=
  args <- unifyObjectStyle _type _payload VUndef ;;
  let '(type, payload, _) := args in
  let action := VObj [("type", type); ("payload", payload)] in
  actions <- gets _actions ;;
  key <- lift (to_string type) ;;
  match actions !! key with
  | None =>
      when DEV (log (LError ("[vuex] unknown action type: " +:+ key))) ;;
      ret VUndef
  | Some entry =>
      before_subscribers action ;;
      invoke_handlers entry payload
  end.
End Calls.

(** [store.commit] and [store.dispatch]; the fuel bounds the depth of the
    calls that handlers and subscribers make back into the store. *)
Fixpoint commit (fuel : nat) {struct fuel} : val -> val -> val -> M val :=
  match fuel with
  | 0 => fun _ _ _ _ => Diverge
  | S n => commit_body (commit n) (dispatch n)
  end
with dispatch (fuel : nat) {struct fuel} : val -> val -> M val :=
  match fuel with
  | 0 => fun _ _ _ => Diverge
  | S n => dispatch_body (commit n) (dispatch n)
  end.

(** Application code called by [commit (S n)] or [dispatch (S n)]. *)
Definition run_app (n : nat) : Local -> Cmd -> M val := run (commit n) (dispatch n).

(** [registerMutation (store, type, handler, local)] *)
Definition registerMutation (type : string) (handler : Mutation) (local : Local) : M unit :=
  modify (fun s =>
    let entry := default [] (_mutations s !! type) in
    set_mutations (<[type := entry ++ [(local, handler)]]> (_mutations s)) s).

(** [registerAction (store, type, handler, local)] *)
Definition registerAction (type : string) (handler : Action) (local : Local) : M unit :=
  modify (fun s =>
    let entry := default [] (_actions s !! type) in
    set_actions (<[type := entry ++ [(local, handler)]]> (_actions s)) s).

(** [registerGetter (store, type, rawGetter, local)] *)
Definition registerGetter (type : string) (rawGetter : Getter) (local : Local) : M unit :=
  getters <- gets _wrappedGetters ;;
  if registered getters type
  then when DEV (log (LError ("[vuex] duplicate getter key: " +:+ type)))
  else modify (set_wrappedGetters (<[type := (local, rawGetter)]> getters)).

(** [rootState] is the object that [_state] holds, when it holds one: a
    write into it is a write into the store's state. *)
Definition write_through (rootState : val) : M unit :=
  modify (fun s =>
    match _state s with
    | Some _ => set_state (Some rootState) s
    | None => s
    end) ;;
  strict_watcher.

(** The double quote character. *)
Definition dquote : string := String (Ascii.ascii_of_nat 34) EmptyString.

(** The block [if (!isRoot && !hot) { ... }] of [installModule]: the state
    of the module is set on the state of its parent. *)
Definition attach_state (rootState : val) (path : list string) (module : Module) : M val :=
  parentState <- lift (getNestedState rootState (slice_init path)) ;;
  let moduleName := last_key path in
  _withCommit
    (when DEV
       (present <- lift (has_prop parentState moduleName) ;;
        when present
          (log (LWarn ("[vuex] state field " +:+ dquote +:+ moduleName +:+ dquote +:+
                       " was overridden by a module with the same name at " +:+
                       dquote +:+ String.concat "." path +:+ dquote)))) ;;
     rootState' <- lift (update_at (slice_init path)
                           (set_prop moduleName (state module)) rootState) ;;
     write_through rootState' ;;
     ret rootState').

(** [installModule (store, rootState, path, module, hot)]; returns
    [rootState] as the writes have left it. *)
Fixpoint installModule (rootState : val) (path : list string) (module : Module)
    (hot : bool) {struct module} : M val :=
  let isRoot := bool_decide (path = []) in
  root <- gets _modules ;;
  namespace <- lift (ModuleCollection.getNamespace root path) ;;
  when (Mod.namespaced module)
    (map <- gets _modulesNamespaceMap ;;
     when (registered map namespace && DEV)
       (log (LError ("[vuex] duplicate namespace " +:+ namespace +:+
                     " for the namespaced module " +:+ String.concat "/" path))) ;;
     modify (set_modulesNamespaceMap (<[namespace := path]> map))) ;;
  rootState <-
    (if negb isRoot && negb hot
     then attach_state rootState path module
     else ret rootState) ;;
  let local := makeLocalContext namespace path in
  forEach (Mod.mutations module) (fun '(key, mutation) =>
    registerMutation (namespace +:+ key) mutation local) ;;
  forEach (Mod.actions module) (fun '(key, action) =>
    let type := if act_root action then key else namespace +:+ key in
    registerAction type (act_handler action) local) ;;
  forEach (Mod.getters module) (fun '(key, getter) =>
    registerGetter (namespace +:+ key) getter local) ;;
  (fix forEachChild (cs : list (string * Module)) (rootState : val) : M val :=
     match cs with
     | [] => ret rootState
     | (key, child) :: cs' =>
         rootState' <- installModule rootState (path ++ [key]) child hot ;;
         forEachChild cs' rootState'
     end) (_children module) rootState.

(** [resetStoreState (store, state, hot, reserve = true)].  The getter
    table, the effect scopes and the watchers are the reactivity
    provider's.  [oldState.data = null] is a write into the container
    that the store holds no longer. *)
Definition resetStoreState (st : val) (hot : bool) (reserve : bool) : M unit :=
  oldState <- gets _state ;;
  modify (set_state (Some st)) ;;
  when (bool_decide (is_Some oldState))
    (when hot (_withCommit (ret tt))).

(** [resetStore (store, hot)] *)
Definition resetStore (hot : bool) : M unit :=
  modify (set_actions ∅) ;;
  modify (set_mutations ∅) ;;
  modify (set_wrappedGetters ∅) ;;
  modify (set_modulesNamespaceMap ∅) ;;
  st <- get_state ;;
  root <- gets _modules ;;
  st <- installModule st [] root true ;;
  resetStoreState st hot false.

(** The options of [createStore]. *)
Record Options : Type := mkOptions {
  opt_root : RawModule;
  opt_plugins : list Cmd;
  opt_strict : bool
}.

(** The fields as the constructor first sets them; [_modules] while
    [ModuleCollection] registers the root. *)
Definition blank (options : Options) : Store :=
  mkStore false ∅ [] ∅ ∅ (Mod.new (opt_root options) false) ∅ [] None
    (opt_strict options) false [] 0 0.

(** [new Store (options)]; a plugin is application code. *)
Definition constructor (fuel : nat) (options : Options) : M unit :=
  root <- lift (ModuleCollection.create (opt_root options)) ;;
  modify (set_modules root) ;;
  let st := state root in
  st <- installModule st [] root false ;;
  resetStoreState st false true ;;
  forEach (opt_plugins options) (fun plugin =>
    run (commit fuel) (dispatch fuel) root_local plugin ;; ret tt).

Definition createStore (fuel : nat) (options : Options) : Result unit :=
  constructor fuel options (blank options).

(** [replaceState (state)] *)
Definition replaceState (st : val) : M unit :=
  _withCommit
    (get_state ;;
     modify (set_state (Some st)) ;;
     strict_watcher).

(** [registerModule (path, rawModule, options = {})]; a string path is
    the path of that one key. *)
Definition registerModule (path : list string) (rawModule : RawModule)
    (preserveState : bool) : M unit :=
  when DEV
    (assert (bool_decide (0 < length path))
       "cannot register the root module by using registerModule.") ;;
  root <- gets _modules ;;
  root' <- lift (ModuleCollection.register path rawModule true (Some root)) ;;
  modify (set_modules (default root root')) ;;
  st <- get_state ;;
  root <- gets _modules ;;
  module <- lift (ModuleCollection.get root path) ;;
  match module with
  | None => throw (TypeError "Cannot read properties of undefined (reading 'namespaced')")
  | Some module =>
      installModule st path module preserveState ;;
      st <- get_state ;;
      resetStoreState st false true
  end.

(** [unregisterModule (path)] *)
Definition unregisterModule (path : list string) : M unit :=
  root <- gets _modules ;;
  r <- lift (ModuleCollection.unregister DEV path root) ;;
  modify (set_modules (fst r)) ;;
  forEach (snd r) log ;;
  _withCommit
    (st <- get_state ;;
     st' <- lift (update_at (slice_init path) (delete_prop (last_key path)) st) ;;
     modify (set_state (Some st')) ;;
     strict_watcher) ;;
  resetStore false.

(** [hasModule (path)] *)
Definition hasModule (path : list string) : M bool :=
  root <- gets _modules ;;
  lift (ModuleCollection.isRegistered path root).

(** [hotUpdate (newOptions)] *)
Definition hotUpdate (newOptions : RawModule) : M unit :=
  root <- gets _modules ;;
  let r := ModuleCollection.update DEV [] root newOptions in
  modify (set_modules (fst r)) ;;
  forEach (snd r) log ;;
  resetStore true.
End Engine.

(** * Definitions for the statements *)

(** The modules met from the root along [path], each with its key. *)
Fixpoint modules_on_path (module : Module) (path : list string)
    : option (list (string * Module)) :=
  match path with
  | [] => Some []
  | key :: rest =>
      match Mod.getChild key module with
      | None => None
      | Some m => cons (key, m) <$> modules_on_path m rest
      end
  end.

(** The namespace in the words of the specification: [key + '/'] for the
    namespaced modules of the path, in order; the others add nothing. *)
Definition namespace_of (on_path : list (string * Module)) : string :=
  foldr (fun km rest => (fst km +:+ "/") +:+ rest) ""
    (List.filter (fun km => Mod.namespaced (snd km)) on_path).

(** The type of a call, whatever its style. *)
Definition normal_type (_type : val) : val :=
  if isObject _type && truthy (member _type "type") then member _type "type" else _type.

(** What store code leaves alone when it only fills the registries and
    writes on the console. *)
Record frame (s s' : Store) : Prop := mkFrame {
  frame_committing : _committing s' = _committing s;
  frame_state : _state s' = _state s;
  frame_modules : _modules s' = _modules s;
  frame_subscribers : _subscribers s' = _subscribers s;
  frame_actionSubscribers : _actionSubscribers s' = _actionSubscribers s;
  frame_strict : strict s' = strict s;
  frame_devtoolHook : _devtoolHook s' = _devtoolHook s;
  frame_next_pid : next_pid s' = next_pid s;
  frame_now : now s' = now s
}.

(** Store code that, in a store whose module tree is [root], returns a
    value that satisfies [Q] and keeps the frame. *)
Definition returns {A} (root : Module) (c : M A) (Q : A -> Prop) : Prop :=
  forall s, _modules s = root -> exists a s', c s = Ok a s' /\ frame s s' /\ Q a.

(** Induction on a module with its children. *)
Fixpoint Module_rect' (P : Module -> Prop)
    (step : forall rt raw st cs, Forall (fun kc => P (snd kc)) cs -> P (mkModule rt raw st cs))
    (m : Module) {struct m} : P m :=
  match m with
  | mkModule rt raw st cs =>
      step rt raw st cs
        ((fix children (cs : list (string * Module)) : Forall (fun kc => P (snd kc)) cs :=
            match cs with
            | [] => List.Forall_nil _
            | kc :: cs' =>
                List.Forall_cons _ kc cs' (Module_rect' P step (snd kc)) (children cs')
            end) cs)
  end.

(** No key twice among the children, at every level: what [addChild]
    builds. *)
Fixpoint wf_module (m : Module) : bool :=
  match m with
  | mkModule _ _ _ cs =>
      bool_decide (NoDup (map fst cs))
      && (fix children (cs : list (string * Module)) : bool :=
            match cs with
            | [] => true
            | kc :: cs' => wf_module (snd kc) && children cs'
            end) cs
  end.

(** The loop [module.forEachChild] of [installModule]. *)
Section InstallChildren.
Variable install : val -> list string -> Module -> M val.
Variable path : list string.

Fixpoint install_children (cs : list (string * Module)) (rootState : val) : M val :=
  match cs with
  | [] => ret rootState
  | (key, child) :: cs' =>
      rootState' <- install rootState (path ++ [key]) child ;;
      install_children cs' rootState'
  end.
End InstallChildren.

(** What [update] keeps of a tree: its shape, the runtime flags and the
    materialized states. *)
Inductive Skel : Type := SNode (rt : bool) (st : val) (cs : list (string * Skel)).

Fixpoint skeleton (m : Module) : Skel :=
  match m with
  | mkModule rt _ st cs =>
      SNode rt st
        ((fix children (cs : list (string * Module)) : list (string * Skel) :=
            match cs with
            | [] => []
            | kc :: cs' => (fst kc, skeleton (snd kc)) :: children cs'
            end) cs)
  end.

Fixpoint wf_skel (k : Skel) : bool :=
  match k with
  | SNode _ _ cs =>
      bool_decide (NoDup (map fst cs))
      && (fix children (cs : list (string * Skel)) : bool :=
            match cs with
            | [] => true
            | kc :: cs' => wf_skel (snd kc) && children cs'
            end) cs
  end.

(** Induction on a raw module with its child definitions. *)
Fixpoint RawModule_rect' (P : RawModule -> Prop)
    (step : forall st ns ms acts gs cs,
        Forall (fun kc => P (snd kc)) cs -> P (mkRawModule st ns ms acts gs cs))
    (m : RawModule) {struct m} : P m :=
  match m with
  | mkRawModule st ns ms acts gs cs =>
      step st ns ms acts gs cs
        ((fix children (cs : list (string * RawModule)) : Forall (fun kc => P (snd kc)) cs :=
            match cs with
            | [] => List.Forall_nil _
            | kc :: cs' =>
                List.Forall_cons _ kc cs' (RawModule_rect' P step (snd kc)) (children cs')
            end) cs)
  end.

(** [update (path.concat (key), child, newModule.modules[key])] *)
Section UpdateChild.
Variable upd : list string -> Module -> RawModule -> Module * list LogEntry.
Variable path : list string.
Variable key : string.
Variable child : Module.

Fixpoint update_child (cs : list (string * RawModule)) (found : Module * list LogEntry)
    : Module * list LogEntry :=
  match cs with
  | [] => found
  | (k, rawChild) :: cs' =>
      update_child cs'
        (if String.eqb key k then upd (path ++ [key]) child rawChild else found)
  end.
End UpdateChild.

(** The loop over [newModule.modules] of [update]. *)
Section UpdateChildren.
Variable upd : list string -> Module -> RawModule -> Module * list LogEntry.
Variable DEV : bool.
Variable path : list string.
Variable raws : list (string * RawModule).

Fixpoint update_children (keys : list string) (target : Module) (logs : list LogEntry)
    : Module * list LogEntry :=
  match keys with
  | [] => (target, logs)
  | key :: keys' =>
      match Mod.getChild key target with
      | None =>
          (target,
           logs ++
           if DEV
           then [LWarn ("[vuex] trying to add a new module '" +:+ key +:+
                        "' on hot reloading, manual reload is needed")]
           else [])
      | Some child =>
          let '(child', l) := update_child upd path key child raws (child, []) in
          update_children keys' (Mod.addChild key child' target) (logs ++ l)
      end
  end.
End UpdateChildren.

Definition overridden (path : list string) : LogEntry :=
  LWarn ("[vuex] state field " +:+ dquote +:+ last_key path +:+ dquote +:+
         " was overridden by a module with the same name at " +:+
         dquote +:+ String.concat "." path +:+ dquote).



(** [options && options.root] *)
Definition root_option (options : val) : bool :=
  truthy options && truthy (member options "root").


(** An error of the runtime, not one that the store or the application
    throws. *)
Definition runtime_error (e : exn) : Prop :=
  match e with
  | TypeError _ | NotModelled _ => True
  | UserExn _ | AssertFail _ => False
  end.

(** The failure of the strict mode watcher. *)
Definition strict_violation : exn :=
  AssertFail ("[vuex] " +:+ "do not mutate vuex store state outside mutation handlers.").

(** Store code [c] that, started in a store where [P] holds, returns in a
    store related by [Q] or throws in a store related by [E]. *)
Definition sat (P : Store -> Prop) (Q : Store -> Store -> Prop)
    (E : exn -> Store -> Store -> Prop) {A} (c : M A) : Prop :=
  forall s, P s ->
    match c s with
    | Ok _ s' => Q s s'
    | Exn e s' => E e s s'
    | Diverge => True
    end.

Definition inside (s : Store) : Prop := _committing s = true.

Definition stays (_ s' : Store) : Prop := _committing s' = true.

Definition stays_on_exn (e : exn) (_ s' : Store) : Prop :=
  _committing s' = true /\ e <> strict_violation.

(** Store code that, started inside a window, ends inside it, and does not
    trip the strict mode watcher. *)
Definition window_holds {A} (c : M A) : Prop := sat inside stays stays_on_exn c.

Definition any_exn (_ : exn) (_ _ : Store) : Prop := True.

Definition always (_ : Store) : Prop := True.

(** [f] is called once on each element of the list, in the order of the
    list, each call starting in the store that the call before it left;
    [seen] are the stores in which the calls start. *)
Inductive in_order {A} (f : A -> M unit) : list A -> Store -> list Store -> Store -> Prop :=
| in_order_nil (s : Store) : in_order f [] s [] s
| in_order_cons (x : A) (xs : list A) (s s1 : Store) (seen : list Store) (s_end : Store) :
    f x s = Ok tt s1 ->
    in_order f xs s1 seen s_end ->
    in_order f (x :: xs) s (s :: seen) s_end.

(** ** Stores and trees to try things on *)

Module Example.

Definition example_b : Module := mkModule false (mkRawModule (VObj []) false [] [] [] []) (VObj []) [].

Definition example_a : Module :=
  mkModule false (mkRawModule (VObj []) true [] [] [] []) (VObj []) [("b", example_b)].

Definition example_root : Module :=
  mkModule false (mkRawModule (VObj []) false [] [] [] []) (VObj []) [("a", example_a)].

(** [increment (state) { state.n = 1 }] *)
Definition increment : Mutation :=
  fun _ _ => Mutate Scoped [] (alist_set "n" (VNum 1)) (Ret VUndef).

(** [fetch (ctx, payload) { return new Promise (...) }]: the handler
    makes a promise, which is fulfilled with the payload at time 3. *)
Definition fetch : Action :=
  fun _ _ payload => NewPromise (Fulfilled 3 payload) (fun p => Ret p).

(** [{ namespaced: true, state: { n: 0 }, mutations: { increment }, actions: { fetch } }] *)
Definition counter : RawModule :=
  mkRawModule (VObj [("n", VNum 0)]) true
    [("increment", increment)] [("fetch", mkActionDef false fetch)] [] [].

(** [{ state: {}, modules: { counter } }] *)
Definition root_def : RawModule :=
  mkRawModule (VObj []) false [] [] [] [("counter", counter)].

Definition options : Options := mkOptions root_def [] false.

(** [createStore (options)] in a debug build and in a production build. *)
Definition store (DEV : bool) : Store :=
  match createStore DEV 1 options with
  | Ok _ s => s
  | _ => blank options
  end.

Definition state0 : val := VObj [("counter", VObj [("n", VNum 0)])].

(** [{ state: { counter: 5 }, modules: { counter } }]: the root state has a
    property with the name of the child module. *)
Definition clash_def : RawModule :=
  mkRawModule (VObj [("counter", VNum 5)]) false [] [] [] [("counter", counter)].

Definition clash_options : Options := mkOptions clash_def [] false.

(** The store of [clash_def] while it is constructed, after
    [ModuleCollection] has made the tree: it holds no state yet. *)
Definition clash_tree : Module :=
  mkModule false clash_def (VObj [("counter", VNum 5)]) [("counter", Mod.new counter false)].

Definition clash_store : Store := set_modules clash_tree (blank clash_options).

(** [{ state: {}, modules: { toString: counter } }]: the root state
    inherits a property with the name of the module. *)
Definition inherit_def : RawModule :=
  mkRawModule (VObj []) false [] [] [] [("toString", counter)].

Definition counter_local : Local := mkLocal "counter/" ["counter"].





















Definition incremented : Store :=
  match commit true 1 (VStr "counter/increment") VUndef VUndef (store true) with
  | Ok _ s => s
  | _ => store true
  end.

(** A new definition of the tree, for a hot update: other states, and
    another mutation [increment], which prints. *)
Definition hot_increment : Mutation := fun _ _ => Print "new" (Ret VUndef).

Definition hot_def : RawModule :=
  mkRawModule (VObj [("fresh", VBool true)]) false [] [] []
    [("counter", mkRawModule (VObj [("n", VNum 100)]) true
                   [("increment", hot_increment)] [] [] [])].

(** [{ mutations: { ok () {}, boom () { throw 'x' } }, actions: { act () {} } }]:
    a store with a mutation that throws. *)
Definition stuck_def : RawModule :=
  mkRawModule (VObj []) false
    [("ok", fun _ _ => Ret VUndef); ("boom", fun _ _ => Throw (VStr "x"))]
    [("act", mkActionDef false (fun _ _ _ => Ret VUndef))] [] [].

Definition plain_stuck : Store :=
  match createStore true 1 (mkOptions stuck_def [] false) with
  | Ok _ s => s
  | _ => blank (mkOptions stuck_def [] false)
  end.

(** That store after
    [subscribeAction ({ before: () => store.commit ('boom') })] and
    [subscribe (() => store.dispatch ('act'))]. *)
Definition stuck : Store :=
  set_subscribers
    [fun _ _ => Dispatch Global (VStr "act") VUndef VUndef (fun _ => Ret VUndef)]
    (set_actionSubscribers
       [mkActionSub
          (Some (fun _ _ => Commit Global (VStr "boom") VUndef VUndef (Ret VUndef)))
          None None]
       plain_stuck).

(** The store with one subscriber instead, which commits the mutation
    that throws and catches the exception:
    [subscribe (() => { try { store.commit ('boom') } catch { } })]. *)
Definition swallowing : Store :=
  set_subscribers
    [fun _ _ =>
       Try (Commit Global (VStr "boom") VUndef VUndef (Ret VUndef)) (Ret VUndef)
         (fun _ => Ret VUndef)]
    plain_stuck.

End Example.

(** ** Definitions for the further properties *)

(** ** The tree of a raw definition *)

(** The loop [forEachValue (rawModule.modules, ...)] of [register]. *)
Section RegisterChildren.
Variable reg : list string -> RawModule -> option Module -> res (option Module).
Variable path : list string.

Fixpoint register_children (cs : list (string * RawModule)) (root : option Module)
    : res (option Module) :=
  match cs with
  | [] => Val root
  | (key, rawChildModule) :: cs' =>
      rbind (reg (path ++ [key]) rawChildModule root)
        (fun root' => register_children cs' root')
  end.
End RegisterChildren.

(** The children that a module has after its child definitions [cs] have
    been added to the children [acc], one [addChild] each, in the order of
    the definition. *)
Section BuildChildren.
Variable bld : RawModule -> Module.

Fixpoint build_children (cs : list (string * RawModule)) (acc : list (string * Module))
    : list (string * Module) :=
  match cs with
  | [] => acc
  | (key, rawChild) :: cs' => build_children cs' (alist_set key (bld rawChild) acc)
  end.
End BuildChildren.

(** The module tree that mirrors a raw definition: one module for the
    definition and one, under its key, for each child definition, all with
    the runtime flag [rt]. *)
Fixpoint build (rt : bool) (raw : RawModule) {struct raw} : Module :=
  mkModule rt raw (raw_state raw)
    ((fix children (cs : list (string * RawModule)) (acc : list (string * Module))
        : list (string * Module) :=
        match cs with
        | [] => acc
        | (key, rawChild) :: cs' => children cs' (alist_set key (build rt rawChild) acc)
        end) (raw_modules raw) []).

(** The tree [root] with the module [m] at [path]: under its key in the
    children of its parent, or as the root when the path is empty. *)
Definition place (path : list string) (m : Module) (root : option Module)
    : res (option Module) :=
  match path with
  | [] => Val (Some m)
  | _ =>
      match root with
      | None => Err (TypeError "Cannot read properties of undefined")
      | Some r =>
          rbind (ModuleCollection.modify_at (slice_init path)
                   (Mod.addChild (last_key path) m) r)
            (fun r' => Val (Some r'))
      end
  end.

(** The warning of [update] about a child key that the tree does not have. *)
Definition new_module_on_hot_reload (key : string) : LogEntry :=
  LWarn ("[vuex] trying to add a new module '" +:+ key +:+
         "' on hot reloading, manual reload is needed").

Module HotSample.
Import Example.
(** A tree with the children [1] and [a]. *)
Definition numbered : Module :=
  mkModule false (mkRawModule (VObj []) false [] [] [] []) (VObj [])
    [("1", example_b); ("a", example_a)].

(** [{ state: {}, modules: { z: counter, 1: { mutations: { m } },
       a: { namespaced: true, mutations: { m } } } }]:
    a new definition for [numbered], which has no child [z]. *)
Definition with_new_child : RawModule :=
  mkRawModule (VObj []) false [] [] []
    [("z", counter);
     ("1", mkRawModule (VObj []) false [("m", increment)] [] [] []);
     ("a", mkRawModule (VObj []) true [("m", increment)] [] [] [])].
End HotSample.

(** The failure of the check of [unifyObjectStyle] on a type [t]. *)
Definition not_a_string (t : val) : exn :=
  AssertFail ("[vuex] " +:+ "expects string as the type, but found " +:+ typeof t +:+ ".").

(** One step of the loop of [notify_subscribers]: [sub (mutation, this.state)]. *)
Definition call_subscriber (DEV : bool) (boundCommit : val -> val -> val -> M val)
    (boundDispatch : val -> val -> M val) (mutation : val) (sub : Subscriber) : M unit :=
  st <- get_state ;;
  run DEV boundCommit boundDispatch root_local (sub mutation st) ;;
  ret tt.

Module ThrowSample.
(** A store whose mutation [first] prints and returns, whose mutation
    [second] under the same type throws, and whose action [act] throws. *)
Definition throwing_def : RawModule :=
  mkRawModule (VObj [("n", VNum 0)]) false
    [("set", fun _ _ => Mutate Scoped [] (alist_set "n" (VNum 1)) (Ret VUndef));
     ("boom", fun _ _ => Print "first" (Ret VUndef))]
    [("act", mkActionDef false (fun _ _ _ => Throw (VStr "no")))] []
    [("b", mkRawModule (VObj []) false
             [("boom", fun _ _ => Throw (VStr "x"))] [] [] []);
     ("c", mkRawModule (VObj []) false
             [("boom", fun _ _ => Print "third" (Ret VUndef))] [] [] [])].

Definition throwing (strict : bool) : Store :=
  set_subscribers
    [fun _ _ => Throw (VStr "sub"); fun _ _ => Print "later" (Ret VUndef)]
    match createStore true 1 (mkOptions throwing_def [] strict) with
    | Ok _ s => s
    | _ => blank (mkOptions throwing_def [] strict)
    end.

Definition boom_first : Local * Mutation := (mkLocal "" [], fun _ _ => Print "first" (Ret VUndef)).
Definition boom_second : Local * Mutation := (mkLocal "" ["b"], fun _ _ => Throw (VStr "x")).
Definition boom_third : Local * Mutation := (mkLocal "" ["c"], fun _ _ => Print "third" (Ret VUndef)).

(** The store after the first handler of [boom], called inside a commit. *)
Definition after_first : Store :=
  match wrappedMutationHandler true (commit true 0) (dispatch true 0) boom_first VUndef
          (set_committing true (throwing false)) with
  | Ok _ s => s
  | _ => throwing false
  end.

(** The store after the handlers of [set], called inside a commit. *)
Definition after_set : Store :=
  match forEach (default [] (_mutations (throwing false) !! "set"))
          (fun handler =>
             wrappedMutationHandler true (commit true 0) (dispatch true 0) handler VUndef)
          (set_committing true (throwing false)) with
  | Ok _ s => s
  | _ => throwing false
  end.
End ThrowSample.

(** ** The getters of a namespace *)

Module LocalGetters.
(** The proxy that [makeLocalGetters] builds, as the list of its
    properties: each local type with the type of the store getter that it
    reads; [getters] are the keys of [store.getters], each once. *)
Definition gettersProxy (getters : list string) (namespace : string)
    : list (string * string) :=
  let splitPos := String.length namespace in
  flat_map (fun type =>
    if negb (String.eqb (String.substring 0 splitPos type) namespace) then []
    else
      let localType := String.substring splitPos (String.length type - splitPos) type in
      [(localType, type)]) getters.

(** [makeLocalGetters (store, namespace)], with [store._makeLocalGettersCache]
    passed in and out. *)
Definition makeLocalGetters (cache : gmap string (list (string * string)))
    (getters : list string) (namespace : string)
    : list (string * string) * gmap string (list (string * string)) :=
  match cache !! namespace with
  | Some proxy => (proxy, cache)
  | None =>
      let proxy := gettersProxy getters namespace in
      (proxy, <[namespace := proxy]> cache)
  end.
End LocalGetters.

(** ** What an installation does to the registries *)

(** The handlers that are registered stay registered, in their order and
    before the new ones; a getter that is registered is kept; the
    subscribers are left alone. *)
Record grows (s s' : Store) : Prop := mkGrows {
  grows_mutations :
    forall type entry, _mutations s !! type = Some entry ->
      exists more, _mutations s' !! type = Some (entry ++ more);
  grows_actions :
    forall type entry, _actions s !! type = Some entry ->
      exists more, _actions s' !! type = Some (entry ++ more);
  grows_getters :
    forall type g, _wrappedGetters s !! type = Some g -> _wrappedGetters s' !! type = Some g;
  grows_subscribers : _subscribers s' = _subscribers s;
  grows_actionSubscribers : _actionSubscribers s' = _actionSubscribers s
}.

(** Store code that, when it returns, has only added to the registries. *)
Definition grows_holds {A} (c : M A) : Prop := sat always grows any_exn c.

(** What store code writes on the console: entries at its end, and none
    of them in a production build. *)
Definition logged (DEV : bool) (s s' : Store) : Prop :=
  exists added, console s' = console s ++ added /\ (DEV = false -> added = []).

Definition logged_holds (DEV : bool) {A} (c : M A) : Prop :=
  sat always (logged DEV) any_exn c.

(** ** The composed state *)

Section AttachChildren.
Variable comp : Module -> res val.

(** The state [st] with the state of each child set on it under the key
    of the child, in the order of the children. *)
Fixpoint attach_children (cs : list (string * Module)) (st : val) : res val :=
  match cs with
  | [] => Val st
  | (key, child) :: cs' =>
      rbind (comp child) (fun c =>
        rbind (set_prop key c st) (fun st' => attach_children cs' st'))
  end.
End AttachChildren.

(** The state of a module with the states of the modules below it. *)
Fixpoint composed (m : Module) {struct m} : res val :=
  (fix children (cs : list (string * Module)) (st : val) : res val :=
     match cs with
     | [] => Val st
     | (key, child) :: cs' =>
         rbind (composed child) (fun c =>
           rbind (set_prop key c st) (fun st' => children cs' st'))
     end) (_children m) (state m).

(** The state [rootState] with the value [v] at [path]. *)
Definition graft (path : list string) (v : val) (rootState : val) : res val :=
  match path with
  | [] => Val v
  | _ => update_at (slice_init path) (set_prop (last_key path) v) rootState
  end.

(** What an installation that writes into the state leaves alone, and the
    state that the store holds after it: [rootState'], when it holds one. *)
Record writes (rootState' : val) (s s' : Store) : Prop := mkWrites {
  writes_committing : _committing s' = _committing s;
  writes_modules : _modules s' = _modules s;
  writes_subscribers : _subscribers s' = _subscribers s;
  writes_actionSubscribers : _actionSubscribers s' = _actionSubscribers s;
  writes_strict : strict s' = strict s;
  writes_state : _state s' = (fun _ => rootState') <$> _state s
}.

(** The state that the store holds, when it holds one, is [rootState]. *)
Definition tracks (rootState : val) (s : Store) : Prop :=
  _state s = (fun _ => rootState) <$> _state s.

(** What an installation makes of the state at the path of a module. *)
Definition composes (DEV : bool) (root : Module) (module : Module) : Prop :=
  forall (path : list string) (rs : val) (s : Store) (c : val) (props : list (string * val)),
    wf_module module = true ->
    ModuleCollection.get root path = Val (Some module) ->
    _modules s = root ->
    path <> [] ->
    getNestedState rs (slice_init path) = Val (VObj props) ->
    composed module = Val c ->
    tracks rs s ->
    exists rs' s',
      installModule DEV rs path module false s = Ok rs' s'
      /\ graft path c rs = Val rs'
      /\ writes rs' s s'.

Module RegisterSample.
Import Example.
(** [{ namespaced: true, state: { k: 1 }, mutations: { inc }, actions: { go: { root: true, handler } },
       getters: { double }, modules: { inner: { state: { z: 0 } } } }] *)
Definition extra : RawModule :=
  mkRawModule (VObj [("k", VNum 1)]) true
    [("inc", increment)] [("go", mkActionDef true fetch)] [("double", fun _ _ => VNum 2)]
    [("inner", mkRawModule (VObj [("z", VNum 0)]) false [] [] [] [])].


(** The store of the example after [registerModule (['extra'], extra)]. *)
Definition with_extra : Store :=
  match registerModule true ["extra"] extra false (store true) with
  | Ok _ s => s
  | _ => store true
  end.

(** The store of the example after [counter] has been registered a second
    time, at the path that it has. *)
Definition registered_twice : Store :=
  match registerModule true ["counter"] counter true (store true) with
  | Ok _ s => s
  | _ => store true
  end.

(** A new definition of the root, for a hot update. *)
Definition reloaded : RawModule :=
  mkRawModule (VObj []) false [("reset", increment)] [("load", mkActionDef false fetch)] []
    [("counter", counter)].
End RegisterSample.

(** ** The registries as a function of the module tree *)

(** Two stores with the same registries and the same module tree. *)
Record same_registries (s1 s2 : Store) : Prop := mkSameRegistries {
  same_actions : _actions s1 = _actions s2;
  same_mutations : _mutations s1 = _mutations s2;
  same_wrappedGetters : _wrappedGetters s1 = _wrappedGetters s2;
  same_modulesNamespaceMap : _modulesNamespaceMap s1 = _modulesNamespaceMap s2;
  same_modules : _modules s1 = _modules s2
}.

(** When [c1] returns in a store, [c2] returns in every store with the
    same registries and the same tree, with a result related by [R] and
    again the same registries and the same tree. *)
Definition simulates {A} (R : A -> A -> Prop) (c1 c2 : M A) : Prop :=
  forall s1 s2 a1 s1',
    same_registries s1 s2 ->
    c1 s1 = Ok a1 s1' ->
    exists a2 s2', c2 s2 = Ok a2 s2' /\ R a1 a2 /\ same_registries s1' s2'.

Module RebuildSample.
Import Example.
(** The store of the example with a handler in the registry that no module
    of the tree declares. *)
Definition stale : Store :=
  set_mutations (<["gone" := [(root_local, increment)]]> (_mutations (store true)))
    (store true).
End RebuildSample.

(** * Properties *)

(** ** Strings and property lists *)

Lemma append_nil_r (s : string) : s +:+ "" = s.
Proof.
  induction s as [|c s IH]; [reflexivity|].
  change (String c (s +:+ "") = String c s). by rewrite IH.
Qed.

Lemma append_assoc (s1 s2 s3 : string) : (s1 +:+ s2) +:+ s3 = s1 +:+ (s2 +:+ s3).
Proof.
  induction s1 as [|c s1 IH]; [reflexivity|].
  change (String c ((s1 +:+ s2) +:+ s3) = String c (s1 +:+ s2 +:+ s3)). by rewrite IH.
Qed.

(** ** The namespace of a path (C3) *)

Module Namespace.
Import Mod ModuleCollection Example.

Lemma getNamespace_from_spec (path : list string) :
  forall (module : Module) (namespace : string) (on_path : list (string * Module)),
    modules_on_path module path = Some on_path ->
    getNamespace_from module namespace path = Val (namespace +:+ namespace_of on_path).
Proof.
  induction path as [|key rest IH]; intros module namespace on_path Hpath; cbn in *.
  - injection Hpath as <-. by rewrite append_nil_r.
  - destruct (getChild key module) as [m|]; [|discriminate].
    destruct (modules_on_path m rest) as [l|] eqn:Hl; [|discriminate].
    injection Hpath as <-.
    rewrite (IH m _ l Hl). f_equal.
    unfold namespace_of. cbn [List.filter snd fst].
    destruct (namespaced m); cbn [foldr fst].
    + by rewrite !append_assoc.
    + by rewrite append_nil_r.
Qed.

(** A path is in the tree when [get] finds a module at it. *)
Lemma get_from_modules_on_path (path : list string) :
  forall (module m : Module),
    get_from (Some module) path = Val (Some m) ->
    exists on_path, modules_on_path module path = Some on_path
      /\ length on_path = length path
      /\ last (map snd on_path) = (if path is [] then None else Some m).
Proof.
  induction path as [|key rest IH]; intros module m Hget; cbn in *.
  - by exists [].
  - destruct (getChild key module) as [c|] eqn:Hc.
    + destruct (IH c m Hget) as (l & -> & Hlen & Hlast).
      exists ((key, c) :: l). cbn. split; [done|]. split; [by rewrite Hlen|].
      destruct rest as [|k' rest'].
      * destruct l; [|discriminate]. cbn in Hget. by injection Hget as ->.
      * destruct l as [|x l]; [discriminate|]. exact Hlast.
    + destruct rest; cbn in Hget; discriminate.
Qed.

(** C3: for every path that leads to a module of the tree, [getNamespace]
    returns the concatenation, in order from the root, of [key + '/'] for
    exactly the modules on the path (the node itself included) that are
    namespaced. *)
Theorem getNamespace_concatenates_namespaced_keys
    (root m : Module) (path : list string) :
  get root path = Val (Some m) ->
  exists on_path,
    modules_on_path root path = Some on_path
    /\ map fst on_path = path
    /\ getNamespace root path = Val (namespace_of on_path).
Proof.
  intros Hget. destruct (get_from_modules_on_path path root m Hget) as (l & Hl & _ & _).
  exists l. split; [done|]. split.
  - clear Hget. revert root l Hl. induction path as [|key rest IH]; intros root l Hl; cbn in Hl.
    + by injection Hl as <-.
    + destruct (getChild key root) as [c|]; [|discriminate].
      destruct (modules_on_path c rest) as [l'|] eqn:Hl'; [|discriminate].
      injection Hl as <-. cbn. f_equal. by apply (IH c).
  - unfold getNamespace. by rewrite (getNamespace_from_spec path root "" l Hl).
Qed.

(** Path [['a', 'b']] with only [a] namespaced yields ["a/"]. *)
Lemma getNamespace_example :
  get example_root ["a"; "b"] = Val (Some example_b)
  /\ exists on_path,
       modules_on_path example_root ["a"; "b"] = Some on_path
       /\ map fst on_path = ["a"; "b"]
       /\ getNamespace example_root ["a"; "b"] = Val (namespace_of on_path)
       /\ namespace_of on_path = "a/".
Proof.
  split; [reflexivity|].
  destruct (getNamespace_concatenates_namespaced_keys example_root example_b ["a"; "b"] eq_refl)
    as (l & Hl & Hk & Hns).
  exists l. repeat split; try assumption.
  vm_compute in Hl. injection Hl as <-. reflexivity.
Defined.

End Namespace.

(** ** Calling conventions *)

Lemma unifyObjectStyle_string (DEV : bool) (_type _payload _options : val)
    (name : string) (payload options : val) (s : Store) :
  objectStyle _type _payload _options = (VStr name, payload, options) ->
  unifyObjectStyle DEV _type _payload _options s = Ok (VStr name, payload, options) s.
Proof. intros H. unfold unifyObjectStyle. rewrite H. by destruct DEV. Qed.

(** [name, payload] and [name, payload, options] *)
Lemma objectStyle_name (name : string) (payload options : val) :
  objectStyle (VStr name) payload options = (VStr name, payload, options).
Proof. reflexivity. Qed.

(** [{ type: name, ... }, options] *)
Lemma objectStyle_object (props : list (string * val)) (name : string) (options ignored : val) :
  alist_get "type" props = Some (VStr name) -> name <> "" ->
  objectStyle (VObj props) options ignored = (VStr name, VObj props, options).
Proof.
  intros Hty Hne. unfold objectStyle, member, get_prop. rewrite Hty. cbn.
  destruct (String.eqb_spec name ""); [contradiction|reflexivity].
Qed.

Lemma objectStyle_type (_type _payload _options : val) :
  exists payload options,
    objectStyle _type _payload _options = (normal_type _type, payload, options).
Proof.
  unfold objectStyle, normal_type.
  destruct (isObject _type && truthy (member _type "type")); eauto.
Qed.

Lemma set_console_same (s : Store) : set_console (console s ++ []) s = s.
Proof. destruct s. unfold set_console. cbn. by rewrite app_nil_r. Qed.

(** ** Commit and dispatch of a type that is not registered (C7) *)

(** In a debug build the check of the type comes first. *)
Lemma not_a_string_throws (n : nat) (t p o : val) (s : Store) :
  is_string (normal_type t) = false ->
  commit true (S n) t p o s = Exn (not_a_string (normal_type t)) s
  /\ dispatch true (S n) t p s = Exn (not_a_string (normal_type t)) s.
Proof.
  intros Hty.
  destruct (objectStyle_type t p o) as (p1 & o1 & H1).
  destruct (objectStyle_type t p VUndef) as (p2 & o2 & H2).
  cbn [commit dispatch]. unfold commit_body, dispatch_body, unifyObjectStyle.
  rewrite H1, H2. unfold not_a_string.
  split; cbn [when]; unfold assert; by rewrite Hty.
Qed.

Module Miss.
Lemma commit_miss (DEV : bool) (n : nat) (s : Store) (_type _payload _options : val)
    (type : string) :
  normal_type _type = VStr type ->
  _mutations s !! type = None ->
  commit DEV (S n) _type _payload _options s
  = Ok VUndef
      (set_console
         (console s ++ if DEV then [LError ("[vuex] unknown mutation type: " +:+ type)] else [])
         s).
Proof.
  intros Hty Hmiss. destruct (objectStyle_type _type _payload _options) as (p & o & Hargs).
  rewrite Hty in Hargs. cbn [commit]. unfold commit_body, bind.
  rewrite (unifyObjectStyle_string DEV _ _ _ _ _ _ s Hargs).
  cbn [gets to_string lift]. rewrite Hmiss. destruct DEV; [reflexivity|].
  cbn. by rewrite set_console_same.
Qed.

Lemma dispatch_miss (DEV : bool) (n : nat) (s : Store) (_type _payload : val)
    (type : string) :
  normal_type _type = VStr type ->
  _actions s !! type = None ->
  dispatch DEV (S n) _type _payload s
  = Ok VUndef
      (set_console
         (console s ++ if DEV then [LError ("[vuex] unknown action type: " +:+ type)] else [])
         s).
Proof.
  intros Hty Hmiss. destruct (objectStyle_type _type _payload VUndef) as (p & o & Hargs).
  rewrite Hty in Hargs. cbn [dispatch]. unfold dispatch_body, bind.
  rewrite (unifyObjectStyle_string DEV _ _ _ _ _ _ s Hargs).
  cbn [gets to_string lift]. rewrite Hmiss. destruct DEV; [reflexivity|].
  cbn. by rewrite set_console_same.
Qed.

Lemma commit_miss_production (n : nat) (s : Store) (_type _payload _options : val)
    (key : string) :
  to_string (normal_type _type) = Val key ->
  _mutations s !! key = None ->
  commit false (S n) _type _payload _options s = Ok VUndef s.
Proof.
  intros Hkey Hmiss. destruct (objectStyle_type _type _payload _options) as (p & o & Hargs).
  cbn [commit]. unfold commit_body, unifyObjectStyle. rewrite Hargs.
  unfold bind, when, ret, gets, lift. by rewrite Hkey, Hmiss.
Qed.

Lemma dispatch_miss_production (n : nat) (s : Store) (_type _payload : val) (key : string) :
  to_string (normal_type _type) = Val key ->
  _actions s !! key = None ->
  dispatch false (S n) _type _payload s = Ok VUndef s.
Proof.
  intros Hkey Hmiss. destruct (objectStyle_type _type _payload VUndef) as (p & o & Hargs).
  cbn [dispatch]. unfold dispatch_body, unifyObjectStyle. rewrite Hargs.
  unfold bind, when, ret, gets, lift. by rewrite Hkey, Hmiss.
Qed.

(** C7, as the code has it.  A commit or a dispatch whose type is a string
    that has no entry in its registry returns [undefined], throws nothing
    and leaves the store as it was but for the console: no handler has
    run, no subscriber has been called, the state is unchanged; the error
    is written on the console in a debug build ([__DEV__]), in a
    production build nothing is reported.  A type that is not a string is
    refused by a debug build: the assertion of [unifyObjectStyle] is
    thrown to the caller and the store is as it was; a production build
    uses it as a property key and, without an entry under that key,
    returns [undefined] with the store as it was. *)
Theorem unregistered_type_is_a_noop (DEV : bool) (n : nat) (s : Store)
    (_type _payload _options : val) :
  (forall type, normal_type _type = VStr type ->
     (_mutations s !! type = None ->
        commit DEV (S n) _type _payload _options s
        = Ok VUndef
            (set_console
               (console s ++
                if DEV then [LError ("[vuex] unknown mutation type: " +:+ type)] else [])
               s))
     /\ (_actions s !! type = None ->
        dispatch DEV (S n) _type _payload s
        = Ok VUndef
            (set_console
               (console s ++
                if DEV then [LError ("[vuex] unknown action type: " +:+ type)] else [])
               s)))
  /\ (is_string (normal_type _type) = false ->
      commit true (S n) _type _payload _options s = Exn (not_a_string (normal_type _type)) s
      /\ dispatch true (S n) _type _payload s = Exn (not_a_string (normal_type _type)) s
      /\ forall key, to_string (normal_type _type) = Val key ->
           (_mutations s !! key = None ->
              commit false (S n) _type _payload _options s = Ok VUndef s)
           /\ (_actions s !! key = None ->
              dispatch false (S n) _type _payload s = Ok VUndef s)).
Proof.
  split.
  - intros type Hty. split; intros Hmiss.
    + by apply commit_miss.
    + by apply dispatch_miss.
  - intros Hty. destruct (not_a_string_throws n _type _payload _options s Hty) as [Hc Hd].
    split; [exact Hc|]. split; [exact Hd|].
    intros key Hkey. split; intros Hmiss.
    + by apply (commit_miss_production n s _type _payload _options key).
    + by apply (dispatch_miss_production n s _type _payload key).
Qed.

End Miss.

(** ** Running store code *)

Lemma bind_Ok {A B} (c : M A) (k : A -> M B) (s s' : Store) (a : A) :
  c s = Ok a s' -> bind c k s = k a s'.
Proof. unfold bind. by intros ->. Qed.

Lemma bind_Exn {A B} (c : M A) (k : A -> M B) (s s' : Store) (e : exn) :
  c s = Exn e s' -> bind c k s = Exn e s'.
Proof. unfold bind. by intros ->. Qed.

Lemma frame_refl (s : Store) : frame s s.
Proof. by split. Qed.

Lemma frame_trans (s1 s2 s3 : Store) : frame s1 s2 -> frame s2 s3 -> frame s1 s3.
Proof. intros [] []. split; congruence. Qed.

Lemma returns_weaken {A} root (c : M A) (Q R : A -> Prop) :
  returns root c Q -> (forall a, Q a -> R a) -> returns root c R.
Proof. intros Hc HQ s Hs. destruct (Hc s Hs) as (a & s' & ? & ? & ?). eauto 6. Qed.

Lemma returns_ret {A} root (a : A) : returns root (ret a) (fun x => x = a).
Proof. intros s _. exists a, s. split; [done|]. split; [apply frame_refl|done]. Qed.

Lemma returns_bind {A B} root (c : M A) (k : A -> M B) (Q : A -> Prop) (R : B -> Prop) :
  returns root c Q -> (forall a, Q a -> returns root (k a) R) -> returns root (bind c k) R.
Proof.
  intros Hc Hk s Hs. destruct (Hc s Hs) as (a & s1 & Hc1 & Hf1 & Ha).
  destruct (Hk a Ha s1) as (b & s2 & Hk2 & Hf2 & Hb).
  { rewrite <- Hs. apply Hf1. }
  exists b, s2. split; [by rewrite (bind_Ok _ _ _ _ _ Hc1)|].
  split; [by eapply frame_trans|done].
Qed.

Lemma returns_when root (b : bool) (c : M unit) :
  returns root c (fun _ => True) -> returns root (when b c) (fun _ => True).
Proof.
  destruct b; [done|]. intros _. eapply returns_weaken; [apply returns_ret|done].
Qed.

Lemma returns_log root (e : LogEntry) : returns root (log e) (fun _ => True).
Proof. intros s _. exists tt, (set_console (console s ++ [e]) s). by split. Qed.

Lemma returns_gets {A} root (f : Store -> A) :
  returns root (gets f) (fun a => exists s, _modules s = root /\ a = f s).
Proof. intros s Hs. exists (f s), s. split; [done|]. split; [apply frame_refl|eauto]. Qed.

Lemma returns_lift {A} root (r : res A) (a : A) :
  r = Val a -> returns root (lift r) (fun x => x = a).
Proof. intros -> s _. exists a, s. split; [done|]. split; [apply frame_refl|done]. Qed.

Lemma returns_forEach {A} root (xs : list A) (f : A -> M unit) :
  (forall x, returns root (f x) (fun _ => True)) ->
  returns root (forEach xs f) (fun _ => True).
Proof.
  intros Hf. induction xs as [|x xs IH]; cbn [forEach].
  - eapply returns_weaken; [apply returns_ret|done].
  - eapply returns_bind; [apply Hf|]. intros _ _. exact IH.
Qed.

Lemma returns_registerMutation root type handler local :
  returns root (registerMutation type handler local) (fun _ => True).
Proof. intros s _. eexists tt, _. split; [reflexivity|]. by split. Qed.

Lemma returns_registerAction root type handler local :
  returns root (registerAction type handler local) (fun _ => True).
Proof. intros s _. eexists tt, _. split; [reflexivity|]. by split. Qed.

Lemma returns_registerGetter root DEV type getter local :
  returns root (registerGetter DEV type getter local) (fun _ => True).
Proof.
  unfold registerGetter. eapply returns_bind; [apply returns_gets|]. intros getters _.
  destruct (registered getters type).
  - apply returns_when, returns_log.
  - intros s _. eexists tt, _. split; [reflexivity|]. by split.
Qed.

(** ** The module tree *)

Lemma installModule_unfold (DEV : bool) (rootState : val) (path : list string)
    (module : Module) (hot : bool) :
  installModule DEV rootState path module hot
  = (root <- gets _modules ;;
     namespace <- lift (ModuleCollection.getNamespace root path) ;;
     when (Mod.namespaced module)
       (map <- gets _modulesNamespaceMap ;;
        when (registered map namespace && DEV)
          (log (LError ("[vuex] duplicate namespace " +:+ namespace +:+
                        " for the namespaced module " +:+ String.concat "/" path))) ;;
        modify (set_modulesNamespaceMap (<[namespace := path]> map))) ;;
     rootState <-
       (if negb (bool_decide (path = [])) && negb hot
        then attach_state DEV rootState path module
        else ret rootState) ;;
     let local := makeLocalContext namespace path in
     forEach (Mod.mutations module) (fun '(key, mutation) =>
       registerMutation (namespace +:+ key) mutation local) ;;
     forEach (Mod.actions module) (fun '(key, action) =>
       let type := if act_root action then key else namespace +:+ key in
       registerAction type (act_handler action) local) ;;
     forEach (Mod.getters module) (fun '(key, getter) =>
       registerGetter DEV (namespace +:+ key) getter local) ;;
     install_children (fun rs p m => installModule DEV rs p m hot) path
       (_children module) rootState).
Proof. destruct module. reflexivity. Qed.

Lemma get_from_app (path rest : list string) :
  forall (module : option Module),
    ModuleCollection.get_from module (path ++ rest)
    = rbind (ModuleCollection.get_from module path)
        (fun m => ModuleCollection.get_from m rest).
Proof.
  induction path as [|key path IH]; intros module; cbn; [done|].
  destruct module as [m|]; [apply IH|done].
Qed.

Lemma get_namespace_defined (root m : Module) (path : list string) :
  ModuleCollection.get root path = Val (Some m) ->
  exists namespace, ModuleCollection.getNamespace root path = Val namespace.
Proof.
  intros Hget.
  destruct (Namespace.get_from_modules_on_path path root m Hget) as (l & Hl & _).
  exists (namespace_of l). unfold ModuleCollection.getNamespace.
  by rewrite (Namespace.getNamespace_from_spec path root "" l Hl).
Qed.

Lemma alist_get_NoDup {A} (l : list (string * A)) (k : string) (a : A) :
  NoDup (map fst l) -> (k, a) ∈ l -> alist_get k l = Some a.
Proof.
  induction l as [|[k' a'] l IH]; intros Hnd Hin; [by apply elem_of_nil in Hin|].
  cbn in *. apply NoDup_cons in Hnd as [Hk' Hnd].
  apply elem_of_cons in Hin as [Heq|Hin].
  - injection Heq as -> ->. by rewrite String.eqb_refl.
  - destruct (String.eqb_spec k k') as [->|Hne]; [|by apply IH].
    exfalso. apply Hk'. apply list_elem_of_fmap. by exists (k', a).
Qed.

Lemma wf_module_children (rt : bool) (raw : RawModule) (st : val)
    (cs : list (string * Module)) :
  wf_module (mkModule rt raw st cs) = true ->
  NoDup (map fst cs) /\ Forall (fun kc => wf_module (snd kc) = true) cs.
Proof.
  cbn [wf_module]. intros H. apply andb_true_iff in H as [Hnd Hcs].
  split; [by apply bool_decide_eq_true in Hnd|].
  clear Hnd. induction cs as [|kc cs IH]; [constructor|].
  apply andb_true_iff in Hcs as [Hc Hcs]. constructor; [done|by apply IH].
Qed.

(** A reinstallation ([hot]) of a module of the tree returns, and changes
    nothing but the registries and the console. *)
Lemma installModule_hot (DEV : bool) (root : Module) (module : Module) :
  forall (path : list string) (rootState : val),
    wf_module module = true ->
    ModuleCollection.get root path = Val (Some module) ->
    returns root (installModule DEV rootState path module true) (fun v => v = rootState).
Proof.
  induction module as [rt raw st cs IH] using Module_rect'.
  intros path rootState Hwf Hget. rewrite installModule_unfold.
  destruct (get_namespace_defined root _ path Hget) as (namespace & Hns).
  eapply returns_bind; [apply returns_gets|]. intros r (s0 & Hs0 & ->). rewrite Hs0.
  eapply returns_bind; [by apply returns_lift|]. intros ? ->.
  eapply returns_bind.
  { apply returns_when. eapply returns_bind; [apply returns_gets|]. intros map _.
    eapply returns_bind; [apply returns_when, returns_log|]. intros _ _.
    intros s _. eexists tt, _. split; [reflexivity|]. by split. }
  intros _ _. rewrite andb_false_r.
  eapply returns_bind; [apply returns_ret|]. intros ? ->.
  eapply returns_bind.
  { apply returns_forEach. intros [key mutation]. apply returns_registerMutation. }
  intros _ _. eapply returns_bind.
  { apply returns_forEach. intros [key action]. apply returns_registerAction. }
  intros _ _. eapply returns_bind.
  { apply returns_forEach. intros [key getter]. apply returns_registerGetter. }
  intros _ _. cbn [_children].
  apply wf_module_children in Hwf as [Hnd Hwf].
  assert (Hsub : forall key child, (key, child) ∈ cs ->
            ModuleCollection.get root (path ++ [key]) = Val (Some child)).
  { intros key child Hin. unfold ModuleCollection.get. rewrite get_from_app.
    unfold ModuleCollection.get in Hget. rewrite Hget. cbn.
    unfold Mod.getChild. cbn. by rewrite (alist_get_NoDup cs key child Hnd Hin). }
  clear Hnd Hget. revert rootState.
  induction cs as [|[key child] cs IHcs]; intros rootState; cbn [install_children].
  - apply returns_ret.
  - apply Forall_cons in IH as [IHc IH]. apply Forall_cons in Hwf as [Hwfc Hwf].
    eapply returns_bind.
    { apply (IHc (path ++ [key]) rootState Hwfc). apply Hsub. apply elem_of_cons. by left. }
    intros ? ->. apply IHcs; [done|done|].
    intros k c Hin. apply Hsub. apply elem_of_cons. by right.
Qed.

Lemma update_unfold (DEV : bool) (path : list string) (target : Module) (newModule : RawModule) :
  ModuleCollection.update DEV path target newModule
  = update_children (ModuleCollection.update DEV) DEV path (raw_modules newModule)
      (own_keys (raw_modules newModule)) (Mod.update newModule target) [].
Proof. destruct newModule. reflexivity. Qed.

(** The child is updated with a definition of the list, or not at all. *)
Lemma update_child_cases (upd : list string -> Module -> RawModule -> Module * list LogEntry)
    (path : list string) (key : string) (child : Module) (cs : list (string * RawModule)) :
  forall found : Module * list LogEntry,
    update_child upd path key child cs found = found
    \/ exists rawChild,
         (key, rawChild) ∈ cs
         /\ update_child upd path key child cs found = upd (path ++ [key]) child rawChild.
Proof.
  induction cs as [|[k rawChild] cs IH]; intros found; cbn [update_child]; [by left|].
  destruct (String.eqb_spec key k) as [->|Hne].
  - right. destruct (IH (upd (path ++ [k]) child rawChild)) as [->|(r & Hin & ->)].
    + exists rawChild. split; [apply elem_of_cons; by left|done].
    + exists r. split; [apply elem_of_cons; by right|done].
  - destruct (IH found) as [->|(r & Hin & ->)]; [by left|].
    right. exists r. split; [apply elem_of_cons; by right|done].
Qed.

Lemma skeleton_unfold (rt : bool) (raw : RawModule) (st : val) (cs : list (string * Module)) :
  skeleton (mkModule rt raw st cs) = SNode rt st (map (fun kc => (fst kc, skeleton (snd kc))) cs).
Proof. reflexivity. Qed.

Lemma wf_module_skeleton (m : Module) : wf_module m = wf_skel (skeleton m).
Proof.
  induction m as [rt raw st cs IH] using Module_rect'.
  rewrite skeleton_unfold. cbn [wf_module wf_skel].
  rewrite <- list_fmap_compose. f_equal.
  induction cs as [|kc cs IHcs]; [done|].
  apply Forall_cons in IH as [IHc IH]. cbn. rewrite IHc. f_equal. by apply IHcs.
Qed.

Lemma skeleton_addChild (key : string) (child child' target : Module) :
  Mod.getChild key target = Some child ->
  skeleton child' = skeleton child ->
  skeleton (Mod.addChild key child' target) = skeleton target.
Proof.
  destruct target as [rt raw st cs]. unfold Mod.getChild, Mod.addChild.
  cbn [_children runtime _rawModule state].
  intros Hget Hsk. rewrite !skeleton_unfold. f_equal.
  induction cs as [|[k c] cs IH]; [discriminate|]. cbn in *.
  destruct (String.eqb_spec key k) as [->|Hne].
  - injection Hget as ->. cbn. by rewrite Hsk.
  - cbn. f_equal. by apply IH.
Qed.

Lemma update_skeleton (DEV : bool) (newModule : RawModule) :
  forall (path : list string) (target : Module),
    skeleton (fst (ModuleCollection.update DEV path target newModule)) = skeleton target.
Proof.
  induction newModule as [st ns ms acts gs cs IH] using RawModule_rect'.
  intros path target. rewrite update_unfold. cbn [raw_modules].
  transitivity (skeleton (Mod.update (mkRawModule st ns ms acts gs cs) target)).
  2: { destruct target. unfold Mod.update. cbn [runtime state _children]. by rewrite !skeleton_unfold. }
  generalize (Mod.update (mkRawModule st ns ms acts gs cs) target) as t.
  generalize (@nil LogEntry) as logs.
  induction (own_keys cs) as [|key keys IHkeys]; intros logs t; cbn [update_children]; [done|].
  destruct (Mod.getChild key t) as [child|] eqn:Hchild; [|done].
  assert (Hsk : skeleton (fst (update_child (ModuleCollection.update DEV) path key child cs
                                 (child, []))) = skeleton child).
  { destruct (update_child_cases (ModuleCollection.update DEV) path key child cs (child, []))
      as [->|(rawChild & Hin & ->)]; [done|].
    rewrite Forall_forall in IH. exact (IH _ Hin (path ++ [key]) child). }
  destruct (update_child _ _ _ _ _ _) as [child' l]. cbn [fst] in Hsk.
  rewrite IHkeys. by apply skeleton_addChild with (child := child).
Qed.

Lemma get_skeleton (path : list string) :
  forall (m m' c : Module),
    skeleton m = skeleton m' ->
    ModuleCollection.get m path = Val (Some c) ->
    exists c', ModuleCollection.get m' path = Val (Some c') /\ skeleton c = skeleton c'.
Proof.
  unfold ModuleCollection.get.
  induction path as [|key rest IH]; intros m m' c Hsk Hget; cbn in *.
  - injection Hget as <-. by exists m'.
  - destruct m as [rt raw st cs], m' as [rt' raw' st' cs'].
    rewrite !skeleton_unfold in Hsk. injection Hsk as _ _ Hcs.
    unfold Mod.getChild in *. cbn [_children] in *.
    destruct (alist_get key cs) as [d|] eqn:Hd.
    2: { destruct rest; cbn in Hget; discriminate. }
    assert (exists d', alist_get key cs' = Some d' /\ skeleton d = skeleton d') as (d' & -> & Hdd).
    { clear Hget IH. revert cs' Hcs. induction cs as [|[k x] cs IHcs]; [discriminate|].
      intros [|[k' x'] cs'] Hcs; [discriminate|]. cbn in *.
      injection Hcs as -> Hx Hcs. destruct (String.eqb key k').
      - injection Hd as <-. by exists x'.
      - by apply IHcs. }
    by apply (IH d d' c).
Qed.

Lemma skeleton_state (m m' : Module) : skeleton m = skeleton m' -> state m = state m'.
Proof.
  destruct m, m'. rewrite !skeleton_unfold. cbn. by intros [= _ -> _].
Qed.

(** ** Reinstallation keeps the state (C9) *)

Lemma bind_modify {B} (f : Store -> Store) (k : unit -> M B) (s : Store) :
  bind (modify f) k s = k tt (f s).
Proof. reflexivity. Qed.

Lemma bind_gets {A B} (f : Store -> A) (k : A -> M B) (s : Store) :
  bind (gets f) k s = k (f s) s.
Proof. reflexivity. Qed.

Lemma bind_ret {A B} (a : A) (k : A -> M B) (s : Store) :
  bind (ret a) k s = k a s.
Proof. reflexivity. Qed.

Lemma bind_lift {A B} (r : res A) (a : A) (k : A -> M B) (s : Store) :
  r = Val a -> bind (lift r) k s = k a s.
Proof. by intros ->. Qed.

Lemma bind_get_state {B} (k : val -> M B) (s : Store) (st : val) :
  _state s = Some st -> bind get_state k s = k st s.
Proof. intros H. unfold bind, get_state. by rewrite H. Qed.

Lemma resetStore_frame (DEV hot : bool) (s : Store) (st : val) :
  _state s = Some st ->
  wf_module (_modules s) = true ->
  exists s', resetStore DEV hot s = Ok tt s' /\ frame s s'.
Proof.
  intros Hst Hwf. unfold resetStore.
  set (s4 := set_modulesNamespaceMap ∅
               (set_wrappedGetters ∅ (set_mutations ∅ (set_actions ∅ s)))).
  assert (Hf4 : frame s s4) by by split.
  destruct (installModule_hot DEV (_modules s) (_modules s) [] st Hwf eq_refl s4 eq_refl)
    as (v & s5 & Hinst & Hf5 & ->).
  rewrite !bind_modify. fold s4.
  rewrite (bind_get_state _ s4 st Hst), bind_gets.
  replace (_modules s4) with (_modules s) by done.
  rewrite (bind_Ok _ _ _ _ _ Hinst).
  assert (Hst5 : _state s5 = Some st) by (by rewrite (frame_state _ _ Hf5)).
  unfold resetStoreState. rewrite bind_gets, bind_modify, Hst5.
  destruct hot; cbn; eexists; (split; [reflexivity|]).
  - eapply frame_trans; [exact Hf4|]. eapply frame_trans; [exact Hf5|].
    by split.
  - eapply frame_trans; [exact Hf4|]. eapply frame_trans; [exact Hf5|].
    by split.
Qed.

Module HotUpdate.
(** C9: [hotUpdate] returns and leaves the composed state tree as it was;
    the module at each path keeps its materialized state (and the tree its
    shape).  This holds for every new definition, with or without new child
    keys. *)
Theorem hotUpdate_preserves_state (DEV : bool) (newOptions : RawModule) (s : Store) (st : val) :
  _state s = Some st ->
  wf_module (_modules s) = true ->
  exists s',
    hotUpdate DEV newOptions s = Ok tt s'
    /\ _state s' = Some st
    /\ _committing s' = _committing s
    /\ forall path m,
         ModuleCollection.get (_modules s) path = Val (Some m) ->
         exists m', ModuleCollection.get (_modules s') path = Val (Some m')
                    /\ state m' = state m.
Proof.
  intros Hst Hwf. unfold hotUpdate. rewrite bind_gets. cbv zeta.
  pose proof (update_skeleton DEV newOptions [] (_modules s)) as Hsk.
  destruct (ModuleCollection.update DEV [] (_modules s) newOptions) as [root' logs]. cbn [fst snd] in *.
  set (s1 := set_modules root' s).
  assert (Hlogs : returns root' (forEach logs log) (fun _ => True)).
  { apply returns_forEach. intros e. apply returns_log. }
  destruct (Hlogs s1 eq_refl) as ([] & s2 & Hrun & Hf2 & _).
  destruct (resetStore_frame DEV true s2 st) as (s3 & Hreset & Hf3).
  { by rewrite (frame_state _ _ Hf2). }
  { rewrite (frame_modules _ _ Hf2). cbn. by rewrite wf_module_skeleton, Hsk, <- wf_module_skeleton. }
  exists s3. split; [|split; [|split]].
  - rewrite bind_modify. fold s1. by rewrite (bind_Ok _ _ _ _ _ Hrun).
  - by rewrite (frame_state _ _ Hf3), (frame_state _ _ Hf2).
  - by rewrite (frame_committing _ _ Hf3), (frame_committing _ _ Hf2).
  - intros path m Hget.
    rewrite (frame_modules _ _ Hf3), (frame_modules _ _ Hf2). cbn.
    destruct (get_skeleton path (_modules s) root' m (eq_sym Hsk) Hget) as (m' & Hget' & Hm).
    exists m'. split; [done|]. symmetry. by apply skeleton_state.
Qed.

End HotUpdate.

(** ** A store to try things on *)

Module ExampleFacts.
Import Example.
Lemma store_state (DEV : bool) : _state (store DEV) = Some state0.
Proof. by destruct DEV; vm_compute. Qed.

Lemma store_wf (DEV : bool) : wf_module (_modules (store DEV)) = true.
Proof. by destruct DEV; vm_compute. Qed.

Lemma store_console (DEV : bool) : console (store DEV) = [].
Proof. by destruct DEV; vm_compute. Qed.

End ExampleFacts.

Module MissExample.
Import Example ExampleFacts.

Lemma unregistered_type_example :
  normal_type (VStr "nope") = VStr "nope"
  /\ _mutations (store true) !! "nope" = None
  /\ _actions (store true) !! "nope" = None
  /\ commit true 1 (VStr "nope") VUndef VUndef (store true)
     = Ok VUndef
         (set_console (console (store true) ++ [LError "[vuex] unknown mutation type: nope"])
            (store true))
  /\ dispatch true 1 (VStr "nope") VUndef (store true)
     = Ok VUndef
         (set_console (console (store true) ++ [LError "[vuex] unknown action type: nope"])
            (store true))
  /\ is_string (normal_type (VNum 5)) = false
  /\ to_string (normal_type (VNum 5)) = Val "5"
  /\ _actions (store false) !! "5" = None
  /\ dispatch true 1 (VNum 5) VUndef (store true) = Exn (not_a_string (VNum 5)) (store true)
  /\ dispatch false 1 (VNum 5) VUndef (store false) = Ok VUndef (store false).
Proof.
  assert (Hm : _mutations (store true) !! "nope" = None) by (by vm_compute).
  assert (Ha : _actions (store true) !! "nope" = None) by (by vm_compute).
  assert (H5 : _actions (store false) !! "5" = None) by (by vm_compute).
  destruct (Miss.unregistered_type_is_a_noop true 0 (store true)
              (VStr "nope") VUndef VUndef) as [Hstring _].
  destruct (Hstring "nope" eq_refl) as [Hc Hd].
  destruct (Miss.unregistered_type_is_a_noop true 0 (store true)
              (VNum 5) VUndef VUndef) as [_ Hdebug].
  destruct (Hdebug eq_refl) as (_ & Hthrown & _).
  destruct (Miss.unregistered_type_is_a_noop false 0 (store false)
              (VNum 5) VUndef VUndef) as [_ Hproduction].
  destruct (Hproduction eq_refl) as (_ & _ & Hkey).
  destruct (Hkey "5" eq_refl) as [_ Hsilent].
  split; [reflexivity|]. split; [exact Hm|]. split; [exact Ha|].
  split; [exact (Hc Hm)|]. split; [exact (Hd Ha)|].
  split; [reflexivity|]. split; [reflexivity|]. split; [exact H5|].
  split; [exact Hthrown|exact (Hsilent H5)].
Defined.

(** In a production build the commit of an unregistered type is not
    reported: nothing is written on the console, the store is as before.
    In a debug build the commit of a type that is not a string, registered
    or not, throws. *)
Lemma unregistered_commit_not_reported :
  _mutations (store false) !! "nope" = None
  /\ console (store false) = []
  /\ (exists s', commit false 1 (VStr "nope") VUndef VUndef (store false) = Ok VUndef s'
                 /\ console s' = [])
  /\ _mutations (store true) !! "5" = None
  /\ commit true 1 (VNum 5) VUndef VUndef (store true)
     = Exn (AssertFail "[vuex] expects string as the type, but found number.") (store true).
Proof.
  split; [by vm_compute|]. split; [by vm_compute|].
  split; [eexists; split; [vm_compute; reflexivity|reflexivity]|].
  split; [by vm_compute|]. vm_compute. reflexivity.
Qed.

End MissExample.

Module HotUpdateExample.
Import Example ExampleFacts.

(** After [commit ('counter/increment')] the state is [{ counter: { n: 1 } }].
    A hot update with a definition whose states are other ones and whose
    mutation [increment] is another one leaves the state as it is, and the
    new mutation is the one that is registered. *)
Lemma hotUpdate_example :
  _state incremented = Some (VObj [("counter", VObj [("n", VNum 1)])])
  /\ wf_module (_modules incremented) = true
  /\ exists s',
       hotUpdate true hot_def incremented = Ok tt s'
       /\ _state s' = Some (VObj [("counter", VObj [("n", VNum 1)])])
       /\ _mutations s' !! "counter/increment" = Some [(counter_local, hot_increment)].
Proof.
  assert (H1 : _state incremented = Some (VObj [("counter", VObj [("n", VNum 1)])]))
    by (vm_compute; reflexivity).
  assert (H2 : wf_module (_modules incremented) = true) by (vm_compute; reflexivity).
  split; [exact H1|]. split; [exact H2|].
  destruct (HotUpdate.hotUpdate_preserves_state true hot_def incremented _ H1 H2)
    as (s' & Hrun & Hst & _).
  exists s'. split; [exact Hrun|]. split; [exact Hst|].
  assert (Hcomp : exists s0,
            hotUpdate true hot_def incremented = Ok tt s0
            /\ _mutations s0 !! "counter/increment" = Some [(counter_local, hot_increment)]).
  { eexists. split; [vm_compute; reflexivity|vm_compute; reflexivity]. }
  destruct Hcomp as (s0 & Hrun0 & Hm0). rewrite Hrun in Hrun0. by injection Hrun0 as ->.
Defined.

End HotUpdateExample.

(** ** Unregistering a module declared at construction (C1) *)

Module Unregister.
Import Example ExampleFacts.

(** C1 fails on the code: [unregisterModule (['counter'])], for the module
    [counter] declared at construction, leaves the module registered
    ([hasModule] is true afterwards) but deletes [state.counter]: the
    composed state [{ counter: { n: 0 } }] becomes [{}]. *)
Theorem unregisterModule_static_deletes_state :
  forall DEV : bool,
    ModuleCollection.get (_modules (store DEV)) ["counter"]
    = Val (Some (Mod.new counter false))
    /\ _state (store DEV) = Some (VObj [("counter", VObj [("n", VNum 0)])])
    /\ exists s',
         unregisterModule DEV ["counter"] (store DEV) = Ok tt s'
         /\ hasModule ["counter"] s' = Ok true s'
         /\ _state s' = Some (VObj []).
Proof.
  intros DEV. split; [by destruct DEV; vm_compute|]. split; [apply store_state|].
  destruct DEV; eexists; (split; [vm_compute; reflexivity|]); split; by vm_compute.
Qed.

End Unregister.

(** ** Writing into the state tree *)

Lemma alist_get_set_eq {A} (k : string) (a : A) (l : list (string * A)) :
  alist_get k (alist_set k a l) = Some a.
Proof.
  induction l as [|[k' a'] l IH]; cbn.
  - by rewrite String.eqb_refl.
  - destruct (String.eqb_spec k k') as [->|Hne]; cbn.
    + by rewrite String.eqb_refl.
    + destruct (String.eqb_spec k k'); [contradiction|exact IH].
Qed.

Lemma get_prop_own (k : string) (props : list (string * val)) (v : val) :
  alist_get k props = Some v -> get_prop (VObj props) k = Val v.
Proof. intros H. cbn. by rewrite H. Qed.

(** An object is read from an own property only. *)
Lemma getNestedState_cons_object (key : string) (rest : list string) (st : val)
    (props : list (string * val)) :
  getNestedState st (key :: rest) = Val (VObj props) ->
  exists props0 v,
    st = VObj props0 /\ alist_get key props0 = Some v
    /\ getNestedState v rest = Val (VObj props).
Proof.
  assert (Hundef : getNestedState VUndef rest <> Val (VObj props)).
  { destruct rest; cbn; discriminate. }
  destruct st; cbn; try discriminate.
  destruct (alist_get key props0) as [v|] eqn:Hv; cbn.
  - intros Hget. by exists props0, v.
  - destruct (inherited key); cbn; [discriminate|contradiction].
Qed.

Lemma update_at_cons_own (key : string) (rest : list string) (g : val -> res val)
    (props : list (string * val)) (v : val) :
  alist_get key props = Some v ->
  update_at (key :: rest) g (VObj props)
  = rbind (update_at rest g v) (fun v' => Val (VObj (alist_set key v' props))).
Proof. intros H. cbn. unfold alist_has. by rewrite H. Qed.

(** A change of the object found at [path] succeeds and is seen at [path]. *)
Lemma update_at_object (g : val -> res val) (props props' : list (string * val))
    (path : list string) :
  g (VObj props) = Val (VObj props') ->
  forall st : val,
    getNestedState st path = Val (VObj props) ->
    exists st',
      update_at path g st = Val st' /\ getNestedState st' path = Val (VObj props').
Proof.
  intros Hg. induction path as [|key rest IH]; intros st Hget.
  - cbn in *. injection Hget as ->. by exists (VObj props').
  - destruct (getNestedState_cons_object _ _ _ _ Hget) as (props0 & v & -> & Hv & Hrest).
    destruct (IH v Hrest) as (v' & Hupd & Hget').
    rewrite (update_at_cons_own _ _ _ _ _ Hv), Hupd. cbn [rbind].
    eexists. split; [reflexivity|].
    cbn [getNestedState]. by rewrite (get_prop_own _ _ _ (alist_get_set_eq _ _ _)).
Qed.

(** ** Exceptions of action subscribers (C6) *)

Lemma forEach_stops {A} (f : A -> M unit) (xs1 : list A) (x : A) (xs2 : list A) :
  forall (s s1 s2 : Store) (e : exn),
    forEach xs1 f s = Ok tt s1 ->
    f x s1 = Exn e s2 ->
    forEach (xs1 ++ x :: xs2) f s = Exn e s2.
Proof.
  induction xs1 as [|a xs1 IH]; intros s s1 s2 e Hrun Hx; cbn [forEach app] in *.
  - injection Hrun as ->. by rewrite (bind_Exn _ _ _ _ _ Hx).
  - unfold bind in *. destruct (f a s) as [[] s'| |]; try discriminate.
    by apply (IH s' s1).
Qed.


Module Subscribers.




End Subscribers.

Module SubscribersExample.
Import Example ExampleFacts.



End SubscribersExample.

(** ** The fates of promises *)

Module PromiseFacts.
Import Promise.













End PromiseFacts.

(** ** The promise of a dispatch (C2) *)

Module Dispatch.
Import Promise PromiseFacts.





End Dispatch.

Module DispatchExample.
Import Example ExampleFacts.



End DispatchExample.

(** ** Invariants of commit and dispatch *)

Lemma get_prop_error (st : val) (key : string) (e : exn) :
  get_prop st key = Err e -> runtime_error e.
Proof.
  destruct st; cbn; try (by intros [= <-]).
  destruct (alist_get key props); [done|]. destruct (inherited key); [|done].
  by intros [= <-].
Qed.

Lemma getNestedState_error (path : list string) :
  forall (st : val) (e : exn), getNestedState st path = Err e -> runtime_error e.
Proof.
  induction path as [|key rest IH]; intros st e H; cbn in H; [discriminate|].
  destruct (get_prop st key) as [v|e'] eqn:Hv; cbn in H.
  - by apply (IH v).
  - injection H as <-. by apply (get_prop_error st key).
Qed.

Lemma update_at_mutate_error (f : list (string * val) -> list (string * val))
    (path : list string) :
  forall (st : val) (e : exn),
    update_at path (mutate_obj f) st = Err e -> runtime_error e.
Proof.
  induction path as [|key rest IH]; intros st e H; cbn in H.
  - destruct st; cbn in H; try discriminate; by injection H as <-.
  - destruct (get_prop st key) as [v|e'] eqn:Hv; cbn in H.
    + destruct (update_at rest (mutate_obj f) v) as [v'|e'] eqn:Hu; cbn in H; [discriminate|].
      injection H as <-. by apply (IH v).
    + injection H as <-. by apply (get_prop_error st key).
Qed.

Lemma to_string_error : forall (v : val) (e : exn), to_string v = Err e -> runtime_error e.
Proof.
  fix IH 1. intros v e. destruct v as [| |b|n|str|props|items|pid f]; cbn; try discriminate.
  - destruct (safe_integer n); [discriminate|]. by intros [= <-].
  - destruct (alist_has "toString" props); [|discriminate]. by intros [= <-].
  - match goal with
    | |- rbind (?each items) _ = _ -> _ =>
        assert (Heach : forall e0, each items = Err e0 -> runtime_error e0)
    end.
    { clear e. induction items as [|x items IHitems]; intros e0; [discriminate|].
      assert (Hx : forall e1,
                 match x with VUndef | VNull => Val "" | _ => to_string x end = Err e1 ->
                 runtime_error e1).
      { intros e1 H1. apply (IH x). by destruct x. }
      destruct (match x with VUndef | VNull => Val "" | _ => to_string x end) as [part|e1];
        cbn [rbind].
      - match goal with
        | |- rbind ?c _ = _ -> _ => destruct c as [parts|e2] eqn:Hparts
        end; cbn [rbind]; [discriminate|].
        intros [= <-]. by apply IHitems.
      - intros [= <-]. by apply Hx. }
    match goal with
    | |- rbind ?c _ = _ -> _ => destruct c as [parts|e0]
    end; cbn [rbind]; [discriminate|].
    intros [= <-]. by apply Heach.
Qed.

Section Invariant.
Variable DEV : bool.
(** [P] holds before, [Q] relates the store before with the store after a
    return, [E] with the store after an exception. *)
Variable P : Store -> Prop.
Variable Q : Store -> Store -> Prop.
Variable E : exn -> Store -> Store -> Prop.

Hypothesis Q_refl : forall s, P s -> Q s s.
Hypothesis Q_trans : forall s s1 s2, P s -> Q s s1 -> Q s1 s2 -> Q s s2.
Hypothesis Q_P : forall s s', P s -> Q s s' -> P s'.
Hypothesis QE_trans : forall e s s1 s2, P s -> Q s s1 -> E e s1 s2 -> E e s s2.
Hypothesis E_refl : forall e s, P s -> e <> strict_violation -> E e s s.
Hypothesis E_P : forall e s s', P s -> E e s s' -> P s'.
Hypothesis EQ_trans : forall e s s1 s2, P s -> E e s s1 -> Q s1 s2 -> Q s s2.
Hypothesis EE_trans : forall e e' s s1 s2, P s -> E e s s1 -> E e' s1 s2 -> E e' s s2.
Hypothesis Q_console : forall s c, P s -> Q s (set_console c s).
Hypothesis Q_state : forall s st, P s -> Q s (set_state st s).
Hypothesis Q_pid : forall s n, P s -> Q s (set_next_pid n s).

Lemma sat_ret {A} (a : A) : sat P Q E (ret a).
Proof. intros s HP. by apply Q_refl. Qed.

Lemma sat_throw {A} (e : exn) : e <> strict_violation -> sat P Q E (@throw A e).
Proof. intros He s HP. by apply E_refl. Qed.

Lemma sat_bind {A B} (c : M A) (k : A -> M B) :
  sat P Q E c -> (forall a, sat P Q E (k a)) -> sat P Q E (bind c k).
Proof.
  intros Hc Hk s HP. unfold bind. specialize (Hc s HP).
  destruct (c s) as [a s1|e s1|]; [|done|done].
  specialize (Hk a s1 (Q_P _ _ HP Hc)).
  destruct (k a s1) as [b s2|e s2|]; [by eapply Q_trans|by eapply QE_trans|done].
Qed.

Lemma sat_try_catch {A} (c : M A) (h : exn -> M A) :
  sat P Q E c -> (forall e, sat P Q E (h e)) -> sat P Q E (try_catch c h).
Proof.
  intros Hc Hh s HP. unfold try_catch. specialize (Hc s HP).
  destruct (c s) as [a s1|e s1|]; [done| |done].
  specialize (Hh e s1 (E_P _ _ _ HP Hc)).
  destruct (h e s1) as [b s2|e' s2|]; [by eapply EQ_trans|by eapply EE_trans|done].
Qed.

Lemma sat_gets {A} (f : Store -> A) : sat P Q E (gets f).
Proof. intros s HP. by apply Q_refl. Qed.

Lemma sat_lift {A} (r : res A) :
  (forall e, r = Err e -> e <> strict_violation) -> sat P Q E (lift r).
Proof.
  intros Hr s HP. destruct r as [a|e]; cbn; [by apply Q_refl|].
  apply E_refl; [done|]. by apply Hr.
Qed.

Lemma sat_lift_runtime {A} (r : res A) :
  (forall e, r = Err e -> runtime_error e) -> sat P Q E (lift r).
Proof.
  intros Hr. apply sat_lift. intros e He. specialize (Hr e He). by destruct e.
Qed.

Lemma sat_log (e : LogEntry) : sat P Q E (log e).
Proof. intros s HP. by apply Q_console. Qed.

Lemma sat_when (b : bool) (c : M unit) : sat P Q E c -> sat P Q E (when b c).
Proof. destruct b; [done|]. intros _. apply sat_ret. Qed.

Lemma sat_forEach {A} (xs : list A) (f : A -> M unit) :
  (forall x, sat P Q E (f x)) -> sat P Q E (forEach xs f).
Proof.
  intros Hf. induction xs as [|x xs IH]; cbn [forEach]; [apply sat_ret|].
  apply sat_bind; [apply Hf|]. intros _. exact IH.
Qed.

Lemma sat_mapM {A B} (xs : list A) (f : A -> M B) :
  (forall x, sat P Q E (f x)) -> sat P Q E (mapM xs f).
Proof.
  intros Hf. induction xs as [|x xs IH]; cbn [mapM]; [apply sat_ret|].
  apply sat_bind; [apply Hf|]. intros y.
  apply sat_bind; [exact IH|]. intros ys. apply sat_ret.
Qed.

Lemma sat_get_state : sat P Q E get_state.
Proof.
  intros s HP. unfold get_state. destruct (_state s); [by apply Q_refl|].
  by apply E_refl.
Qed.

Lemma sat_fresh_pid : sat P Q E fresh_pid.
Proof. intros s HP. by apply Q_pid. Qed.

Lemma sat_local_state (local : Local) : sat P Q E (local_state local).
Proof.
  unfold local_state. apply sat_bind; [apply sat_get_state|]. intros st.
  apply sat_lift_runtime. apply getNestedState_error.
Qed.

Lemma sat_unifyObjectStyle (type payload options : val) :
  sat P Q E (unifyObjectStyle DEV type payload options).
Proof.
  unfold unifyObjectStyle. destruct (objectStyle type payload options) as [[t p] o].
  apply sat_bind; [|intros _; apply sat_ret].
  apply sat_when. unfold assert. destruct (is_string t); [apply sat_ret|].
  apply sat_throw. by intros [= H].
Qed.

Hypothesis sat_strict_watcher : sat P Q E (strict_watcher DEV).
Hypothesis sat_withCommit : forall A (fn : M A), sat P Q E fn -> sat P Q E (_withCommit fn).

Lemma sat_phase (keep : ActionSub -> bool) (call : ActionSub -> M unit) (phase : string) :
  (forall sub, sat P Q E (call sub)) ->
  sat P Q E (try_catch
         (subs <- gets _actionSubscribers ;; forEach (List.filter keep subs) call)
         (report_caught DEV phase)).
Proof.
  intros Hcall. apply sat_try_catch.
  - apply sat_bind; [apply sat_gets|]. intros subs. by apply sat_forEach.
  - intros e. unfold report_caught. apply sat_when.
    apply sat_bind; [apply sat_log|]. intros _. apply sat_log.
Qed.

Section Calls.
Variable boundCommit : val -> val -> val -> M val.
Variable boundDispatch : val -> val -> M val.
Hypothesis sat_boundCommit : forall t p o, sat P Q E (boundCommit t p o).
Hypothesis sat_boundDispatch : forall t p, sat P Q E (boundDispatch t p).

Lemma sat_local_dispatch (local : Local) (t p o : val) :
  sat P Q E (local_dispatch DEV boundDispatch local t p o).
Proof.
  unfold local_dispatch. destruct (String.eqb _ _); [apply sat_boundDispatch|].
  apply sat_bind; [apply sat_unifyObjectStyle|]. intros [[t' p'] o'].
  destruct (_ || _); [|apply sat_boundDispatch].
  apply sat_bind; [apply sat_lift_runtime, to_string_error|]. intros local_type.
  apply sat_bind; [apply sat_gets|]. intros actions.
  destruct (_ && _); [|apply sat_boundDispatch].
  apply sat_bind; [apply sat_log|]. intros _. apply sat_ret.
Qed.

Lemma sat_local_commit (local : Local) (t p o : val) :
  sat P Q E (local_commit DEV boundCommit local t p o).
Proof.
  unfold local_commit. destruct (String.eqb _ _); [apply sat_boundCommit|].
  apply sat_bind; [apply sat_unifyObjectStyle|]. intros [[t' p'] o'].
  destruct (_ || _).
  - apply sat_bind; [apply sat_lift_runtime, to_string_error|]. intros local_type.
    apply sat_bind; [apply sat_gets|]. intros mutations.
    destruct (_ && _).
    + apply sat_bind; [apply sat_log|]. intros _. apply sat_ret.
    + apply sat_bind; [apply sat_boundCommit|]. intros _. apply sat_ret.
  - apply sat_bind; [apply sat_boundCommit|]. intros _. apply sat_ret.
Qed.

Lemma sat_run (local : Local) (c : Cmd) : sat P Q E (run DEV boundCommit boundDispatch local c).
Proof.
  induction c as [v|e|msg k IH|sc k IH|sc rel f k IH|sc t p o k IH|sc t p o k IH
                  |body IHbody handler IHhandler k IH|f k IH];
    cbn [run].
  - apply sat_ret.
  - by apply sat_throw.
  - apply sat_bind; [apply sat_log|]. intros _. exact IH.
  - apply sat_bind; [apply sat_get_state|]. intros st.
    apply sat_bind; [apply sat_lift_runtime, getNestedState_error|]. intros v. apply IH.
  - apply sat_bind; [apply sat_get_state|]. intros st.
    apply sat_bind; [apply sat_lift_runtime, update_at_mutate_error|]. intros st'.
    apply sat_bind; [intros s HP; by apply Q_state|]. intros _.
    apply sat_bind; [apply sat_strict_watcher|]. intros _. exact IH.
  - apply sat_bind; [|intros _; exact IH].
    destruct sc; [apply sat_local_commit|apply sat_boundCommit].
  - apply sat_bind; [|intros v; apply IH].
    destruct sc; [apply sat_local_dispatch|apply sat_boundDispatch].
  - apply sat_bind; [|intros v; apply IH].
    apply sat_try_catch; [exact IHbody|]. intros _. exact IHhandler.
  - apply sat_bind; [apply sat_fresh_pid|]. intros pid. apply IH.
Qed.

Lemma sat_wrappedMutationHandler (entry : Local * Mutation) (payload : val) :
  sat P Q E (wrappedMutationHandler DEV boundCommit boundDispatch entry payload).
Proof.
  destruct entry as [local handler]. unfold wrappedMutationHandler.
  apply sat_bind; [apply sat_local_state|]. intros st.
  apply sat_bind; [apply sat_run|]. intros _. apply sat_ret.
Qed.

Lemma sat_wrappedActionHandler (entry : Local * Action) (payload : val) :
  sat P Q E (wrappedActionHandler DEV boundCommit boundDispatch entry payload).
Proof.
  destruct entry as [local handler]. unfold wrappedActionHandler.
  apply sat_bind; [apply sat_local_state|]. intros st.
  apply sat_bind; [apply sat_get_state|]. intros rootState.
  apply sat_bind; [apply sat_run|]. intros r.
  apply sat_bind.
  { destruct (isPromise r); [apply sat_ret|].
    apply sat_bind; [apply sat_fresh_pid|]. intros pid.
    apply sat_bind; [apply sat_gets|]. intros t. apply sat_ret. }
  intros r'. apply sat_bind; [apply sat_gets|]. intros [|]; [|apply sat_ret].
  apply sat_bind; [apply sat_fresh_pid|]. intros pid.
  apply sat_bind; [apply sat_gets|]. intros t. apply sat_ret.
Qed.

Lemma sat_commit_body (t p o : val) : sat P Q E (commit_body DEV boundCommit boundDispatch t p o).
Proof.
  unfold commit_body. apply sat_bind; [apply sat_unifyObjectStyle|]. intros [[type payload] options].
  apply sat_bind; [apply sat_gets|]. intros mutations.
  apply sat_bind; [apply sat_lift_runtime, to_string_error|]. intros key.
  destruct (mutations !! key) as [entry|].
  - apply sat_bind.
    { apply sat_withCommit, sat_forEach. intros h. apply sat_wrappedMutationHandler. }
    intros _. apply sat_bind.
    { unfold notify_subscribers. apply sat_bind; [apply sat_gets|]. intros subs.
      apply sat_forEach. intros sub.
      apply sat_bind; [apply sat_get_state|]. intros st.
      apply sat_bind; [apply sat_run|]. intros _. apply sat_ret. }
    intros _. apply sat_bind; [apply sat_when, sat_log|]. intros _. apply sat_ret.
  - apply sat_bind; [apply sat_when, sat_log|]. intros _. apply sat_ret.
Qed.

Lemma sat_call_before (action : val) (sub : ActionSub) :
  sat P Q E (call_before DEV boundCommit boundDispatch action sub).
Proof.
  unfold call_before. destruct (sub_before sub); [|apply sat_ret].
  apply sat_bind; [apply sat_get_state|]. intros st.
  apply sat_bind; [apply sat_run|]. intros _. apply sat_ret.
Qed.

Lemma sat_call_after (action : val) (sub : ActionSub) :
  sat P Q E (call_after DEV boundCommit boundDispatch action sub).
Proof.
  unfold call_after. destruct (sub_after sub); [|apply sat_ret].
  apply sat_bind; [apply sat_get_state|]. intros st.
  apply sat_bind; [apply sat_run|]. intros _. apply sat_ret.
Qed.

Lemma sat_call_error (action error : val) (sub : ActionSub) :
  sat P Q E (call_error DEV boundCommit boundDispatch action error sub).
Proof.
  unfold call_error. destruct (sub_error sub); [|apply sat_ret].
  apply sat_bind; [apply sat_get_state|]. intros st.
  apply sat_bind; [apply sat_run|]. intros _. apply sat_ret.
Qed.

Lemma sat_invoke_handlers (entry : list (Local * Action)) (payload : val) :
  sat P Q E (invoke_handlers DEV boundCommit boundDispatch entry payload).
Proof.
  unfold invoke_handlers. apply sat_bind.
  - destruct (1 <? length entry).
    + apply sat_bind; [apply sat_mapM; intros h; apply sat_wrappedActionHandler|].
      intros ps. apply sat_bind; [apply sat_fresh_pid|]. intros pid.
      apply sat_bind; [apply sat_gets|]. intros t. apply sat_ret.
    + destruct entry as [|h entry]; [by apply sat_throw|apply sat_wrappedActionHandler].
  - intros result. apply sat_bind; [apply sat_fresh_pid|]. intros pid.
    apply sat_bind; [apply sat_gets|]. intros t. apply sat_ret.
Qed.

Lemma sat_dispatch_body (t p : val) : sat P Q E (dispatch_body DEV boundCommit boundDispatch t p).
Proof.
  unfold dispatch_body. apply sat_bind; [apply sat_unifyObjectStyle|].
  intros [[type payload] options].
  apply sat_bind; [apply sat_gets|]. intros actions.
  apply sat_bind; [apply sat_lift_runtime, to_string_error|]. intros key.
  destruct (actions !! key) as [entry|].
  - apply sat_bind; [|intros _; apply sat_invoke_handlers].
    apply sat_phase. apply sat_call_before.
  - apply sat_bind; [apply sat_when, sat_log|]. intros _. apply sat_ret.
Qed.
End Calls.

Lemma sat_commit_dispatch (n : nat) :
  (forall t p o, sat P Q E (commit DEV n t p o)) /\ (forall t p, sat P Q E (dispatch DEV n t p)).
Proof.
  induction n as [|n [IHc IHd]]; [by split|].
  split; intros; cbn [commit dispatch].
  - by apply sat_commit_body.
  - by apply sat_dispatch_body.
Qed.
End Invariant.

(** *** Inside a committing window *)

Module Window.
Lemma w_refl : forall s, inside s -> stays s s.
Proof. done. Qed.

Lemma w_trans : forall s s1 s2, inside s -> stays s s1 -> stays s1 s2 -> stays s s2.
Proof. done. Qed.

Lemma w_P : forall s s', inside s -> stays s s' -> inside s'.
Proof. done. Qed.

Lemma w_QE : forall e s s1 s2, inside s -> stays s s1 -> stays_on_exn e s1 s2 -> stays_on_exn e s s2.
Proof. done. Qed.

Lemma w_E : forall e s, inside s -> e <> strict_violation -> stays_on_exn e s s.
Proof. done. Qed.

Lemma w_console : forall s c, inside s -> stays s (set_console c s).
Proof. done. Qed.

Lemma w_state : forall s st, inside s -> stays s (set_state st s).
Proof. done. Qed.

Lemma w_pid : forall s n, inside s -> stays s (set_next_pid n s).
Proof. done. Qed.

(** Inside a window the watcher of the strict mode finds the flag set. *)
Lemma w_strict (DEV : bool) : window_holds (strict_watcher DEV).
Proof.
  intros s HP. unfold strict_watcher. rewrite bind_gets. unfold inside in HP.
  rewrite HP. by destruct (strict s && _), DEV.
Qed.

Lemma w_withCommit : forall A (fn : M A), window_holds fn -> window_holds (_withCommit fn).
Proof.
  intros A fn Hfn s HP. unfold _withCommit. rewrite bind_gets, bind_modify.
  specialize (Hfn (set_committing true s) eq_refl). unfold bind.
  by destruct (fn _) as [a s'|e s'|].
Qed.

Lemma w_EP : forall e s s', inside s -> stays_on_exn e s s' -> inside s'.
Proof. by intros e s s' _ [H _]. Qed.

Lemma w_EQ : forall e s s1 s2, inside s -> stays_on_exn e s s1 -> stays s1 s2 -> stays s s2.
Proof. done. Qed.

Lemma w_EE :
  forall e e' s s1 s2, inside s -> stays_on_exn e s s1 -> stays_on_exn e' s1 s2 ->
    stays_on_exn e' s s2.
Proof. done. Qed.

Lemma window_commit_dispatch (DEV : bool) (n : nat) :
  (forall t p o, window_holds (commit DEV n t p o)) /\ (forall t p, window_holds (dispatch DEV n t p)).
Proof.
  exact (sat_commit_dispatch DEV inside stays stays_on_exn w_refl w_trans w_P w_QE w_E
           w_EP w_EQ w_EE w_console w_state w_pid (w_strict DEV) w_withCommit n).
Qed.

Lemma window_wrappedMutationHandler (DEV : bool) (n : nat) (entry : Local * Mutation)
    (payload : val) :
  window_holds (wrappedMutationHandler DEV (commit DEV n) (dispatch DEV n) entry payload).
Proof.
  destruct (window_commit_dispatch DEV n) as [Hc Hd].
  exact (sat_wrappedMutationHandler DEV inside stays stays_on_exn w_refl w_trans w_P w_QE w_E
           w_EP w_EQ w_EE w_console w_state w_pid (w_strict DEV) _ _ Hc Hd entry payload).
Qed.

End Window.

(** ** The handlers of a commit (C4) *)

Module Commit.
Lemma in_order_forEach {A} (f : A -> M unit) (xs : list A) (s : Store)
    (seen : list Store) (s_end : Store) :
  in_order f xs s seen s_end ->
  forEach xs f s = Ok tt s_end /\ length seen = length xs.
Proof.
  induction 1 as [s|x xs s s1 seen s_end Hx _ [IH Hlen]]; [done|].
  cbn [forEach]. rewrite (bind_Ok _ _ _ _ _ Hx). split; [done|]. cbn. by rewrite Hlen.
Qed.

Lemma in_order_inside (DEV : bool) (n : nat) (payload : val) (entry : list (Local * Mutation))
    (s : Store) (seen : list Store) (s_end : Store) :
  _committing s = true ->
  in_order
    (fun handler => wrappedMutationHandler DEV (commit DEV n) (dispatch DEV n) handler payload)
    entry s seen s_end ->
  Forall (fun si => _committing si = true) seen /\ _committing s_end = true.
Proof.
  intros Hs Hrun. induction Hrun as [s|x xs s s1 seen s_end Hx _ IH]; [by split|].
  pose proof (Window.window_wrappedMutationHandler DEV n x payload s Hs) as Hin.
  rewrite Hx in Hin. destruct (IH Hin) as [Hseen Hend]. split; [by constructor|done].
Qed.



End Commit.

Module CommitExample.
Import Example.

End CommitExample.

(** ** The flag [_committing] (C10) *)

Module Committing.
Lemma withCommit_returns {A} (fn : M A) (s s' : Store) (a : A) :
  fn (set_committing true s) = Ok a s' ->
  _withCommit fn s = Ok a (set_committing (_committing s) s').
Proof.
  intros H. unfold _withCommit. rewrite bind_gets, bind_modify.
  by rewrite (bind_Ok _ _ _ _ _ H).
Qed.

Lemma withCommit_throws {A} (fn : M A) (s s' : Store) (e : exn) :
  fn (set_committing true s) = Exn e s' -> @_withCommit A fn s = Exn e s'.
Proof.
  intros H. unfold _withCommit. rewrite bind_gets, bind_modify.
  by rewrite (bind_Exn _ _ _ _ _ H).
Qed.

End Committing.

Module CommittingExample.
Import Example ExampleFacts.

(** C10, where the code departs from it.  [_withCommit] restores the flag
    after [fn ()] only: when [fn] throws, the assignment is not reached.
    The commit of [boom], whose handler throws, ends with the flag set
    though it was clear before.  The commit of [ok] returns and leaves the
    flag set: its subscriber dispatches [act], whose [before] subscriber
    commits [boom]; the exception of [boom] leaves the window of that commit
    open and is caught by [dispatch].  So does the commit of [ok] in the
    store whose subscriber catches the exception of [boom] itself. *)
Theorem flag_left_set_after_commit :
  _committing stuck = false
  /\ (exists s',
        commit true 1 (VStr "boom") VUndef VUndef stuck = Exn (UserExn (VStr "x")) s'
        /\ _committing s' = true)
  /\ (exists s',
        commit true 3 (VStr "ok") VUndef VUndef stuck = Ok VUndef s'
        /\ _committing s' = true)
  /\ _committing swallowing = false
  /\ (exists s',
        commit true 2 (VStr "ok") VUndef VUndef swallowing = Ok VUndef s'
        /\ _committing s' = true).
Proof.
  split; [reflexivity|].
  split; [eexists; split; [vm_compute; reflexivity|reflexivity]|].
  split; [eexists; split; [vm_compute; reflexivity|reflexivity]|].
  split; [reflexivity|].
  eexists. split; [vm_compute; reflexivity|reflexivity].
Qed.

End CommittingExample.

Module UnregisterStatic.
Lemma path_split (path : list string) :
  path <> [] -> path = slice_init path ++ [last_key path].
Proof.
  induction path as [|k [|k' path] IH]; intros Hne; [done|done|].
  specialize (IH ltac:(done)). unfold slice_init, last_key in *.
  cbn [removelast last] in *. cbn [app]. by rewrite <- IH.
Qed.

Lemma get_parent (root child : Module) (path : list string) :
  path <> [] ->
  ModuleCollection.get root path = Val (Some child) ->
  exists parent,
    ModuleCollection.get root (slice_init path) = Val (Some parent)
    /\ Mod.getChild (last_key path) parent = Some child.
Proof.
  intros Hne Hget. rewrite (path_split path Hne) in Hget.
  unfold ModuleCollection.get in *. rewrite get_from_app in Hget.
  destruct (ModuleCollection.get_from (Some root) (slice_init path)) as [[parent|]|];
    cbn in Hget; try discriminate.
  exists parent. split; [done|]. by injection Hget.
Qed.

(** What [unregisterModule] does to every module declared at construction:
    the module stays in the tree and [hasModule] stays true, but the
    property of its state is deleted from the state of its parent. *)
Lemma unregisterModule_static (DEV : bool) (s : Store) (path : list string)
    (child : Module) (st : val) (props : list (string * val)) :
  path <> [] ->
  ModuleCollection.get (_modules s) path = Val (Some child) ->
  runtime child = false ->
  wf_module (_modules s) = true ->
  _state s = Some st ->
  getNestedState st (slice_init path) = Val (VObj props) ->
  exists s' st',
    unregisterModule DEV path s = Ok tt s'
    /\ _modules s' = _modules s
    /\ hasModule path s' = Ok true s'
    /\ _state s' = Some st'
    /\ getNestedState st' (slice_init path) = Val (VObj (alist_del (last_key path) props)).
Proof.
  intros Hne Hget Hstatic Hwf Hst Hparent.
  destruct (get_parent _ _ _ Hne Hget) as (parent & Hgetp & Hchild).
  destruct (update_at_object (delete_prop (last_key path)) props
              (alist_del (last_key path) props) (slice_init path) eq_refl st Hparent)
    as (st' & Hupd & Hget').
  assert (Hunreg : ModuleCollection.unregister DEV path (_modules s) = Val (_modules s, [])).
  { unfold ModuleCollection.unregister. rewrite Hgetp. cbn. by rewrite Hchild, Hstatic. }
  set (s2 := set_state (Some st') s).
  destruct (resetStore_frame DEV false s2 st') as (s3 & Hreset & Hf); [done|done|].
  exists s3, st'. unfold unregisterModule.
  rewrite bind_gets, (bind_lift _ _ _ _ Hunreg), bind_modify. cbn [fst snd forEach].
  rewrite bind_ret.
  assert (Hwindow : _withCommit
            (st0 <- get_state ;;
             st1 <- lift (update_at (slice_init path) (delete_prop (last_key path)) st0) ;;
             modify (set_state (Some st1)) ;; strict_watcher DEV) (set_modules (_modules s) s)
          = Ok tt s2).
  { rewrite (Committing.withCommit_returns _ _
               (set_state (Some st') (set_committing true s)) tt).
    - unfold s2. by destruct s.
    - rewrite (bind_get_state _ _ st) by done.
      rewrite (bind_lift _ _ _ _ Hupd), bind_modify.
      unfold strict_watcher. rewrite bind_gets. cbn. by destruct (strict s), DEV. }
  rewrite (bind_Ok _ _ _ _ _ Hwindow).
  split; [done|]. split; [by rewrite (frame_modules _ _ Hf)|]. split.
  - unfold hasModule. rewrite bind_gets, (frame_modules _ _ Hf). cbn [_modules s2].
    unfold ModuleCollection.isRegistered. replace (_modules s2) with (_modules s) by done.
    rewrite Hgetp. cbn. unfold Mod.hasChild, alist_has.
    unfold Mod.getChild in Hchild. by rewrite Hchild.
  - split; [by rewrite (frame_state _ _ Hf)|done].
Qed.

End UnregisterStatic.

(** * Further properties *)

(** ** Registration in the module tree *)

Lemma register_unfold (path : list string) (rawModule : RawModule) (rt : bool)
    (root : option Module) :
  ModuleCollection.register path rawModule rt root
  = rbind (place path (Mod.new rawModule rt) root)
      (register_children (fun p r => ModuleCollection.register p r rt) path
         (raw_modules rawModule)).
Proof. destruct rawModule, path; reflexivity. Qed.

Lemma build_unfold (rt : bool) (raw : RawModule) :
  build rt raw
  = mkModule rt raw (raw_state raw) (build_children (build rt) (raw_modules raw) []).
Proof. destruct raw. reflexivity. Qed.

Lemma alist_set_set {A} (k : string) (a b : A) (l : list (string * A)) :
  alist_set k b (alist_set k a l) = alist_set k b l.
Proof.
  induction l as [|[k' a'] l IH]; cbn.
  - by rewrite String.eqb_refl.
  - destruct (String.eqb_spec k k') as [->|Hne]; cbn.
    + by rewrite String.eqb_refl.
    + destruct (String.eqb_spec k k'); [contradiction|]. by rewrite IH.
Qed.

Lemma alist_set_same {A} (k : string) (a : A) (l : list (string * A)) :
  alist_get k l = Some a -> alist_set k a l = l.
Proof.
  induction l as [|[k' a'] l IH]; cbn; [discriminate|].
  destruct (String.eqb_spec k k') as [->|Hne].
  - by intros [= ->].
  - intros H. by rewrite IH.
Qed.

Lemma alist_del_fresh {A} (k : string) (l : list (string * A)) :
  alist_get k l = None -> alist_del k l = l.
Proof.
  induction l as [|[k' a'] l IH]; cbn; [done|].
  destruct (String.eqb_spec k k') as [->|Hne]; [discriminate|].
  intros H. by rewrite IH.
Qed.

Lemma alist_del_set_fresh {A} (k : string) (a : A) (l : list (string * A)) :
  alist_get k l = None -> alist_del k (alist_set k a l) = l.
Proof.
  induction l as [|[k' a'] l IH]; cbn.
  - by rewrite String.eqb_refl.
  - destruct (String.eqb_spec k k') as [->|Hne]; [discriminate|]. cbn.
    destruct (String.eqb_spec k k'); [contradiction|]. intros H. by rewrite IH.
Qed.

Lemma alist_get_set_ne {A} (k k' : string) (a : A) (l : list (string * A)) :
  k <> k' -> alist_get k (alist_set k' a l) = alist_get k l.
Proof.
  intros Hne. induction l as [|[k0 a0] l IH]; cbn.
  - by destruct (String.eqb_spec k k').
  - destruct (String.eqb_spec k' k0) as [->|Hne0]; cbn.
    + by destruct (String.eqb_spec k k0).
    + destruct (String.eqb_spec k k0); [done|exact IH].
Qed.

Lemma alist_get_del_eq {A} (k : string) (l : list (string * A)) :
  alist_get k (alist_del k l) = None.
Proof.
  induction l as [|[k' a'] l IH]; cbn; [done|].
  destruct (String.eqb_spec k k') as [->|Hne]; [done|]. cbn.
  by destruct (String.eqb_spec k k').
Qed.

Lemma alist_get_del_ne {A} (k k' : string) (l : list (string * A)) :
  k <> k' -> alist_get k (alist_del k' l) = alist_get k l.
Proof.
  intros Hne. induction l as [|[k0 a0] l IH]; cbn; [done|].
  destruct (String.eqb_spec k' k0) as [->|Hne0]; cbn.
  - by destruct (String.eqb_spec k k0).
  - destruct (String.eqb_spec k k0); [done|exact IH].
Qed.

Lemma slice_init_snoc (path : list string) (key : string) : slice_init (path ++ [key]) = path.
Proof. apply removelast_last. Qed.

Lemma last_key_snoc (path : list string) (key : string) : last_key (path ++ [key]) = key.
Proof. unfold last_key. by rewrite last_snoc. Qed.

(** ** Changes at a path of the module tree *)

Lemma addChild_addChild (key : string) (a b m : Module) :
  Mod.addChild key b (Mod.addChild key a m) = Mod.addChild key b m.
Proof. unfold Mod.addChild. cbn. by rewrite alist_set_set. Qed.

Lemma addChild_same (key : string) (c m : Module) :
  Mod.getChild key m = Some c -> Mod.addChild key c m = m.
Proof.
  destruct m as [rt raw st cs]. unfold Mod.getChild, Mod.addChild. cbn.
  intros H. by rewrite alist_set_same.
Qed.

Lemma getChild_addChild_eq (key : string) (c m : Module) :
  Mod.getChild key (Mod.addChild key c m) = Some c.
Proof. unfold Mod.getChild, Mod.addChild. cbn. apply alist_get_set_eq. Qed.

Lemma getChild_addChild_ne (k key : string) (c m : Module) :
  k <> key -> Mod.getChild k (Mod.addChild key c m) = Mod.getChild k m.
Proof. intros H. unfold Mod.getChild, Mod.addChild. cbn. by apply alist_get_set_ne. Qed.

Lemma modify_at_error (path : list string) (f g : Module -> Module) :
  forall (root : Module) (e : exn),
    ModuleCollection.modify_at path f root = Err e ->
    ModuleCollection.modify_at path g root = Err e.
Proof.
  induction path as [|key rest IH]; intros root e; cbn; [discriminate|].
  destruct (Mod.getChild key root) as [c|]; [|done].
  destruct (ModuleCollection.modify_at rest f c) as [c'|e'] eqn:Hf; cbn; [discriminate|].
  intros [= <-]. by rewrite (IH c e' Hf).
Qed.

Lemma modify_at_defined (path : list string) (f : Module -> Module) :
  forall (root parent : Module),
    ModuleCollection.get root path = Val (Some parent) ->
    exists root',
      ModuleCollection.modify_at path f root = Val root'
      /\ ModuleCollection.get root' path = Val (Some (f parent)).
Proof.
  unfold ModuleCollection.get.
  induction path as [|key rest IH]; intros root parent Hget; cbn in *.
  - injection Hget as ->. by eexists.
  - destruct (Mod.getChild key root) as [c|] eqn:Hc.
    2: { destruct rest; cbn in Hget; discriminate. }
    destruct (IH c parent Hget) as (c' & -> & Hget'). cbn.
    eexists. split; [reflexivity|]. by rewrite getChild_addChild_eq.
Qed.

(** A second change at the same place. *)
Lemma modify_at_modify_at (path : list string) (f g : Module -> Module) :
  forall (root r1 : Module),
    ModuleCollection.modify_at path f root = Val r1 ->
    ModuleCollection.modify_at path g r1
    = ModuleCollection.modify_at path (fun m => g (f m)) root.
Proof.
  induction path as [|key rest IH]; intros root r1; cbn.
  - by intros [= <-].
  - destruct (Mod.getChild key root) as [c|] eqn:Hc; [|discriminate].
    destruct (ModuleCollection.modify_at rest f c) as [c1|] eqn:Hf; cbn [rbind]; [|discriminate].
    intros [= <-]. rewrite getChild_addChild_eq, (IH c c1 Hf).
    destruct (ModuleCollection.modify_at rest (fun m => g (f m)) c) as [c2|]; cbn [rbind]; [|done].
    by rewrite addChild_addChild.
Qed.

(** A change of the child that was just added. *)
Lemma modify_at_added (path : list string) (key : string) (m : Module)
    (f : Module -> Module) :
  forall (root r1 : Module),
    ModuleCollection.modify_at path (Mod.addChild key m) root = Val r1 ->
    ModuleCollection.modify_at (path ++ [key]) f r1
    = ModuleCollection.modify_at path (Mod.addChild key (f m)) root.
Proof.
  induction path as [|k rest IH]; intros root r1; cbn.
  - intros [= <-]. rewrite getChild_addChild_eq. cbn. by rewrite addChild_addChild.
  - destruct (Mod.getChild k root) as [c|] eqn:Hc; [|discriminate].
    destruct (ModuleCollection.modify_at rest _ c) as [c1|] eqn:Hf; cbn [rbind]; [|discriminate].
    intros [= <-]. rewrite getChild_addChild_eq, (IH c c1 Hf).
    destruct (ModuleCollection.modify_at rest (Mod.addChild key (f m)) c) as [c2|]; cbn [rbind]; [|done].
    by rewrite addChild_addChild.
Qed.

(** A change that leaves the module as it is leaves the tree as it is. *)
Lemma modify_at_same (path : list string) (f : Module -> Module) :
  forall (root parent : Module),
    ModuleCollection.get root path = Val (Some parent) ->
    f parent = parent ->
    ModuleCollection.modify_at path f root = Val root.
Proof.
  unfold ModuleCollection.get.
  induction path as [|key rest IH]; intros root parent Hget Hf; cbn in *.
  - injection Hget as ->. by rewrite Hf.
  - destruct (Mod.getChild key root) as [c|] eqn:Hc.
    2: { destruct rest; cbn in Hget; discriminate. }
    rewrite (IH c parent Hget Hf). cbn. by rewrite addChild_same.
Qed.

Lemma place_error (path : list string) (m m' : Module) (root : option Module) (e : exn) :
  place path m root = Err e -> place path m' root = Err e.
Proof.
  destruct path as [|k path]; [discriminate|]. cbn.
  destruct root as [r|]; [|done].
  destruct (ModuleCollection.modify_at _ _ r) as [r'|e'] eqn:H; cbn; [discriminate|].
  intros [= <-]. by rewrite (modify_at_error _ _ (Mod.addChild (last_key (k :: path)) m') r e' H).
Qed.

Lemma place_some (path : list string) (m : Module) (root r : option Module) :
  place path m root = Val r -> exists r1, r = Some r1.
Proof.
  destruct path as [|k path]; cbn.
  - intros [= <-]. eauto.
  - destruct root as [r0|]; [|discriminate].
    destruct (ModuleCollection.modify_at _ _ r0); cbn; [|discriminate].
    intros [= <-]. eauto.
Qed.

Lemma place_snoc (path : list string) (key : string) (c : Module) (r1 : Module) :
  place (path ++ [key]) c (Some r1)
  = rbind (ModuleCollection.modify_at path (Mod.addChild key c) r1) (fun r' => Val (Some r')).
Proof.
  unfold place. destruct (path ++ [key]) as [|k0 p0] eqn:Hp; [by destruct path|].
  rewrite <- Hp. by rewrite slice_init_snoc, last_key_snoc.
Qed.

(** A change of the module that was just placed. *)
Lemma place_child (path : list string) (key : string) (m c : Module)
    (root : option Module) (r1 : Module) :
  place path m root = Val (Some r1) ->
  place (path ++ [key]) c (Some r1) = place path (Mod.addChild key c m) root.
Proof.
  intros Hplace. rewrite place_snoc.
  destruct path as [|k p].
  - cbn in *. by injection Hplace as <-.
  - cbn [place] in *. destruct root as [r|]; [|discriminate].
    remember (slice_init (k :: p)) as sp eqn:Hsp.
    remember (last_key (k :: p)) as lk eqn:Hlk.
    assert (Hsplit : k :: p = sp ++ [lk]).
    { subst. by apply UnregisterStatic.path_split. }
    destruct (ModuleCollection.modify_at sp (Mod.addChild lk m) r) as [r'|] eqn:Hm;
      cbn [rbind] in Hplace; [|discriminate].
    injection Hplace as ->. rewrite Hsplit.
    by rewrite (modify_at_added sp lk m (Mod.addChild key c) r r1 Hm).
Qed.

Lemma register_children_place (rt : bool) (raw : RawModule) (st : val)
    (path : list string) (root : option Module) (cs : list (string * RawModule)) :
  Forall (fun kc => forall path root,
            ModuleCollection.register path (snd kc) rt root
            = place path (build rt (snd kc)) root) cs ->
  forall acc : list (string * Module),
    rbind (place path (mkModule rt raw st acc) root)
      (register_children (fun p r => ModuleCollection.register p r rt) path cs)
    = place path (mkModule rt raw st (build_children (build rt) cs acc)) root.
Proof.
  induction cs as [|[key rawChild] cs IHcs]; intros IH acc.
  - cbn [register_children build_children].
    destruct (place path (mkModule rt raw st acc) root) as [r|e] eqn:Hp; [|done].
    by destruct (place_some _ _ _ _ Hp) as [r1 ->].
  - apply Forall_cons in IH as [IHc IH]. cbn [snd] in IHc.
    cbn [register_children build_children].
    destruct (place path (mkModule rt raw st acc) root) as [r|e] eqn:Hp.
    + destruct (place_some _ _ _ _ Hp) as [r1 ->]. cbn [rbind].
      rewrite IHc, (place_child path key _ (build rt rawChild) root r1 Hp).
      unfold Mod.addChild at 1. cbn [runtime _rawModule state _children].
      exact (IHcs IH (alist_set key (build rt rawChild) acc)).
    + cbn [rbind]. symmetry. eapply place_error. exact Hp.
Qed.

(** [register] puts the tree of the raw definition at the path. *)
Lemma register_place (rt : bool) (raw : RawModule) :
  forall (path : list string) (root : option Module),
    ModuleCollection.register path raw rt root = place path (build rt raw) root.
Proof.
  induction raw as [st ns ms acts gs cs IH] using RawModule_rect'.
  intros path root. rewrite register_unfold, build_unfold.
  exact (register_children_place rt _ st path root cs IH []).
Qed.

Lemma build_children_elem (bld : RawModule -> Module) (cs : list (string * RawModule)) :
  forall (acc : list (string * Module)) (k : string) (m : Module),
    alist_get k (build_children bld cs acc) = Some m ->
    alist_get k acc = Some m \/ exists rawc, (k, rawc) ∈ cs /\ m = bld rawc.
Proof.
  induction cs as [|[key rawChild] cs IH]; intros acc k m H; cbn in H; [by left|].
  destruct (IH _ k m H) as [Hacc|(rawc & Hin & ->)].
  - destruct (String.eqb_spec k key) as [->|Hne].
    + rewrite alist_get_set_eq in Hacc. injection Hacc as <-.
      right. exists rawChild. split; [apply elem_of_cons; by left|done].
    + rewrite alist_get_set_ne in Hacc by done. by left.
  - right. exists rawc. split; [apply elem_of_cons; by right|done].
Qed.

(** The modules of the tree of a raw definition have the runtime flag of
    the registration and the state of their own raw definitions. *)
Lemma build_modules (rt : bool) (raw : RawModule) :
  forall (path : list string) (m : Module),
    ModuleCollection.get (build rt raw) path = Val (Some m) ->
    runtime m = rt /\ state m = raw_state (_rawModule m).
Proof.
  unfold ModuleCollection.get.
  induction raw as [st ns ms acts gs cs IH] using RawModule_rect'.
  intros path m. rewrite build_unfold. destruct path as [|key rest]; cbn.
  - by intros [= <-].
  - unfold Mod.getChild. cbn [_children].
    destruct (alist_get key (build_children (build rt) cs [])) as [c|] eqn:Hc.
    2: { destruct rest; cbn; discriminate. }
    destruct (build_children_elem _ _ _ _ _ Hc) as [Hnil|(rawc & Hin & ->)]; [discriminate|].
    rewrite List.Forall_forall in IH. apply (IH (key, rawc)). by apply list_elem_of_In.
Qed.

Lemma register_at (rt : bool) (raw : RawModule) (path : list string)
    (root parent : Module) :
  path <> [] ->
  ModuleCollection.get root (slice_init path) = Val (Some parent) ->
  exists root',
    ModuleCollection.register path raw rt (Some root) = Val (Some root')
    /\ ModuleCollection.modify_at (slice_init path)
         (Mod.addChild (last_key path) (build rt raw)) root = Val root'
    /\ ModuleCollection.get root' (slice_init path)
       = Val (Some (Mod.addChild (last_key path) (build rt raw) parent)).
Proof.
  intros Hne Hget.
  destruct (modify_at_defined (slice_init path)
              (Mod.addChild (last_key path) (build rt raw)) root parent Hget)
    as (root' & Hmod & Hget').
  exists root'. rewrite register_place. unfold place.
  destruct path as [|k p]; [done|]. by rewrite Hmod.
Qed.

Lemma get_snoc (root parent : Module) (path : list string) (key : string) :
  ModuleCollection.get root path = Val (Some parent) ->
  ModuleCollection.get root (path ++ [key]) = Val (Mod.getChild key parent).
Proof.
  intros Hget. unfold ModuleCollection.get in *. by rewrite get_from_app, Hget.
Qed.

(** [unregister] of the module that was registered at run time under a
    key that was new to its parent. *)
Lemma unregister_registered (DEV : bool) (raw : RawModule) (path : list string)
    (root parent root' : Module) :
  ModuleCollection.get root (slice_init path) = Val (Some parent) ->
  Mod.getChild (last_key path) parent = None ->
  ModuleCollection.modify_at (slice_init path)
    (Mod.addChild (last_key path) (build true raw)) root = Val root' ->
  ModuleCollection.unregister DEV path root' = Val (root, []).
Proof.
  intros Hget Hfresh Hmod.
  destruct (modify_at_defined (slice_init path)
              (Mod.addChild (last_key path) (build true raw)) root parent Hget)
    as (r & Hmod' & Hget').
  rewrite Hmod in Hmod'. injection Hmod' as <-.
  unfold ModuleCollection.unregister.
  rewrite Hget'. cbn [rbind]. rewrite getChild_addChild_eq.
  assert (Hrt : runtime (build true raw) = true) by (by rewrite build_unfold).
  rewrite Hrt. cbn [negb].
  rewrite (modify_at_modify_at _ _ (Mod.removeChild (last_key path)) root root' Hmod).
  rewrite (modify_at_same _ _ root parent Hget); [done|].
  destruct parent as [prt praw pst pcs]. unfold Mod.removeChild, Mod.addChild.
  cbn [runtime _rawModule state _children]. unfold Mod.getChild in Hfresh.
  cbn [_children] in Hfresh. by rewrite alist_del_set_fresh.
Qed.

Module Tree.
(** X1: [new ModuleCollection (rawRootModule)] never throws: it builds the
    tree that mirrors the raw definition, and every module of that tree is
    static (runtime flag false) and holds the state of its own raw
    definition. *)
Theorem create_mirrors_definition (raw : RawModule) :
  ModuleCollection.create raw = Val (build false raw)
  /\ forall (path : list string) (m : Module),
       ModuleCollection.get (build false raw) path = Val (Some m) ->
       runtime m = false /\ state m = raw_state (_rawModule m).
Proof.
  split; [|apply build_modules].
  unfold ModuleCollection.create. by rewrite register_place.
Qed.

(** X2: [register] at a path whose parent exists returns; afterwards [get]
    finds at the path the tree of the raw definition, [isRegistered] says
    true, and the other children of the parent are the ones it had. *)
Theorem register_then_get (rt : bool) (raw : RawModule) (path : list string)
    (root parent : Module) :
  path <> [] ->
  ModuleCollection.get root (slice_init path) = Val (Some parent) ->
  exists root',
    ModuleCollection.register path raw rt (Some root) = Val (Some root')
    /\ ModuleCollection.get root' path = Val (Some (build rt raw))
    /\ ModuleCollection.isRegistered path root' = Val true
    /\ forall k, k <> last_key path ->
         ModuleCollection.get root' (slice_init path ++ [k])
         = ModuleCollection.get root (slice_init path ++ [k]).
Proof.
  intros Hne Hget.
  destruct (register_at rt raw path root parent Hne Hget) as (root' & Hreg & _ & Hget').
  exists root'. split; [done|]. split; [|split].
  - rewrite (UnregisterStatic.path_split path Hne) at 1.
    by rewrite (get_snoc _ _ _ _ Hget'), getChild_addChild_eq.
  - unfold ModuleCollection.isRegistered. rewrite Hget'. cbn [rbind].
    unfold Mod.hasChild, alist_has.
    pose proof (getChild_addChild_eq (last_key path) (build rt raw) parent) as H.
    unfold Mod.getChild in H. by rewrite H.
  - intros k Hk. rewrite (get_snoc _ _ _ _ Hget'), (get_snoc _ _ _ _ Hget).
    by rewrite getChild_addChild_ne.
Qed.

(** X3: [unregister] undoes a registration made at run time: when the key
    is new to the parent, [register] with the runtime flag followed by
    [unregister] gives back the tree as it was, without a warning.  A
    module registered as static is left in the tree by [unregister]. *)
Theorem unregister_undoes_register (DEV : bool) (raw : RawModule) (path : list string)
    (root parent : Module) :
  path <> [] ->
  ModuleCollection.get root (slice_init path) = Val (Some parent) ->
  Mod.getChild (last_key path) parent = None ->
  (exists root',
     ModuleCollection.register path raw true (Some root) = Val (Some root')
     /\ ModuleCollection.unregister DEV path root' = Val (root, []))
  /\ (exists root',
        ModuleCollection.register path raw false (Some root) = Val (Some root')
        /\ ModuleCollection.unregister DEV path root' = Val (root', [])).
Proof.
  intros Hne Hget Hfresh. split.
  - destruct (register_at true raw path root parent Hne Hget) as (root' & Hreg & Hmod & Hget').
    exists root'. split; [done|].
    by apply (unregister_registered DEV raw path root parent root').
  - destruct (register_at false raw path root parent Hne Hget) as (root' & Hreg & Hmod & Hget').
    exists root'. split; [done|]. unfold ModuleCollection.unregister.
    rewrite Hget'. cbn [rbind]. rewrite getChild_addChild_eq.
    assert (Hrt : runtime (build false raw) = false) by (by rewrite build_unfold).
    by rewrite Hrt.
Qed.

(** X4: [isRegistered] answers false when the parent of the path is
    missing as the last step towards it, and throws a TypeError when a
    module is missing earlier on the path. *)
Theorem isRegistered_missing_parent (root : Module) (a b c : string) (rest : list string) :
  Mod.getChild a root = None ->
  ModuleCollection.isRegistered [a] root = Val false
  /\ ModuleCollection.isRegistered [a; b] root = Val false
  /\ ModuleCollection.isRegistered (a :: b :: c :: rest) root
     = Err (TypeError "Cannot read properties of undefined (reading 'getChild')").
Proof.
  intros Ha. unfold ModuleCollection.isRegistered, ModuleCollection.get.
  split; [|split].
  - cbn. unfold Mod.hasChild, alist_has. unfold Mod.getChild in Ha. by rewrite Ha.
  - cbn. by rewrite Ha.
  - assert (Hinit : slice_init (a :: b :: c :: rest) = a :: b :: slice_init (c :: rest)).
    { reflexivity. }
    rewrite Hinit. cbn [ModuleCollection.get_from]. by rewrite Ha.
Qed.
End Tree.

Module TreeExample.
Import Example.

Lemma register_then_get_example :
  ["a"; "c"] <> []
  /\ ModuleCollection.get example_root (slice_init ["a"; "c"]) = Val (Some example_a)
  /\ exists root',
       ModuleCollection.register ["a"; "c"] counter true (Some example_root) = Val (Some root')
       /\ ModuleCollection.get root' ["a"; "c"] = Val (Some (build true counter))
       /\ ModuleCollection.get root' ["a"; "b"] = Val (Some example_b).
Proof.
  assert (H1 : ["a"; "c"] <> ([] : list string)) by done.
  assert (H2 : ModuleCollection.get example_root (slice_init ["a"; "c"])
               = Val (Some example_a)) by reflexivity.
  split; [exact H1|]. split; [exact H2|].
  destruct (Tree.register_then_get true counter ["a"; "c"] example_root example_a H1 H2)
    as (root' & Hreg & Hget & _ & Hsib).
  exists root'. split; [exact Hreg|]. split; [exact Hget|].
  assert (Hb : "b" <> last_key ["a"; "c"]) by (by vm_compute).
  exact (Hsib "b" Hb).
Defined.

Lemma unregister_undoes_register_example :
  ["a"; "c"] <> []
  /\ ModuleCollection.get example_root (slice_init ["a"; "c"]) = Val (Some example_a)
  /\ Mod.getChild (last_key ["a"; "c"]) example_a = None
  /\ exists root',
       ModuleCollection.register ["a"; "c"] counter true (Some example_root) = Val (Some root')
       /\ ModuleCollection.unregister true ["a"; "c"] root' = Val (example_root, []).
Proof.
  assert (H1 : ["a"; "c"] <> ([] : list string)) by done.
  assert (H2 : ModuleCollection.get example_root (slice_init ["a"; "c"])
               = Val (Some example_a)) by reflexivity.
  assert (H3 : Mod.getChild (last_key ["a"; "c"]) example_a = None) by reflexivity.
  split; [exact H1|]. split; [exact H2|]. split; [exact H3|].
  exact (proj1 (Tree.unregister_undoes_register true counter ["a"; "c"] example_root
                  example_a H1 H2 H3)).
Defined.

Lemma isRegistered_missing_parent_example :
  Mod.getChild "x" example_root = None
  /\ ModuleCollection.isRegistered ["x"; "y"] example_root = Val false
  /\ ModuleCollection.isRegistered ["x"; "y"; "z"] example_root
     = Err (TypeError "Cannot read properties of undefined (reading 'getChild')").
Proof.
  assert (H1 : Mod.getChild "x" example_root = None) by reflexivity.
  split; [exact H1|].
  destruct (Tree.isRegistered_missing_parent example_root "x" "y" "z" [] H1) as (_ & H2 & H3).
  by split.
Defined.
End TreeExample.

(** ** A hot update that meets a new child key *)

Lemma update_children_stops (upd : list string -> Module -> RawModule -> Module * list LogEntry)
    (DEV : bool) (path : list string) (raws : list (string * RawModule)) (key : string)
    (post : list string) :
  forall (pre : list string) (t : Module) (logs : list LogEntry),
    Forall (fun k => is_Some (Mod.getChild k t)) pre ->
    Mod.getChild key t = None ->
    (exists l,
       snd (update_children upd DEV path raws (pre ++ key :: post) t logs)
       = logs ++ l ++ (if DEV then [new_module_on_hot_reload key] else []))
    /\ forall k, k ∉ pre ->
         Mod.getChild k (fst (update_children upd DEV path raws (pre ++ key :: post) t logs))
         = Mod.getChild k t.
Proof.
  induction pre as [|k0 pre IH]; intros t logs Hpre Hkey.
  - cbn [app update_children]. rewrite Hkey. split; [by exists []|done].
  - apply Forall_cons in Hpre as [[child Hchild] Hpre].
    cbn [app update_children]. rewrite Hchild.
    destruct (update_child upd path k0 child raws (child, [])) as [child' l0].
    assert (Hne : key <> k0) by (intros ->; congruence).
    destruct (IH (Mod.addChild k0 child' t) (logs ++ l0)) as [(l & Hl) Hkeep].
    + eapply Forall_impl; [exact Hpre|]. intros k [c Hc].
      destruct (decide (k = k0)) as [->|Hk].
      * rewrite getChild_addChild_eq. eauto.
      * rewrite getChild_addChild_ne by done. eauto.
    + by rewrite getChild_addChild_ne.
    + split.
      * exists (l0 ++ l). rewrite Hl. by rewrite <- !app_assoc.
      * intros k Hk. rewrite Hkeep.
        -- apply getChild_addChild_ne. intros ->. apply Hk. apply elem_of_cons. by left.
        -- intros Hin. apply Hk. apply elem_of_cons. by right.
Qed.

Module HotReload.
(** X5: [update] goes through the child keys of the new definition in the
    order in which [for ... in] enumerates them (array indices first, in
    ascending order, then the other keys as written) and stops at the
    first one that the tree does not have: it warns (in a debug build
    only) and returns, so that the child definitions that come after that
    key are not applied; every child of the target whose key does not come
    before the new key is left as it was, handlers included. *)
Theorem update_stops_at_new_key (DEV : bool) (path : list string) (target : Module)
    (newModule : RawModule) (pre post : list string) (key : string) :
  own_keys (raw_modules newModule) = pre ++ key :: post ->
  Forall (fun k => is_Some (Mod.getChild k target)) pre ->
  Mod.getChild key target = None ->
  (exists l,
     snd (ModuleCollection.update DEV path target newModule)
     = l ++ (if DEV then [new_module_on_hot_reload key] else []))
  /\ forall k, k ∉ pre ->
       Mod.getChild k (fst (ModuleCollection.update DEV path target newModule))
       = Mod.getChild k target.
Proof.
  intros Hcs Hpre Hkey. rewrite update_unfold, Hcs.
  assert (Hsame : forall k, Mod.getChild k (Mod.update newModule target) = Mod.getChild k target)
    by reflexivity.
  destruct (update_children_stops (ModuleCollection.update DEV) DEV path
              (raw_modules newModule) key post pre
              (Mod.update newModule target) []) as [(l & Hl) Hkeep].
  - eapply Forall_impl; [exact Hpre|]. intros kc H. by rewrite Hsame.
  - by rewrite Hsame.
  - split; [by exists l|]. intros k Hk. by rewrite Hkeep, Hsame.
Qed.
End HotReload.

Module HotReloadExample.
Import Example HotSample.

(** The key [1] is written after [z] and comes before it: the child [1]
    has its new mutation, the child [a] has not. *)
Lemma update_stops_at_new_key_example :
  own_keys (raw_modules with_new_child) = ["1"] ++ "z" :: ["a"]
  /\ Mod.getChild "z" numbered = None
  /\ snd (ModuleCollection.update true [] numbered with_new_child)
     = [new_module_on_hot_reload "z"]
  /\ Mod.getChild "a" (fst (ModuleCollection.update true [] numbered with_new_child))
     = Some example_a
  /\ (Mod.mutations <$>
        Mod.getChild "1" (fst (ModuleCollection.update true [] numbered with_new_child)))
     = Some [("m", increment)].
Proof.
  assert (H1 : own_keys (raw_modules with_new_child) = ["1"] ++ "z" :: ["a"])
    by reflexivity.
  assert (H2 : Mod.getChild "z" numbered = None) by reflexivity.
  assert (H3 : Forall (fun k => is_Some (Mod.getChild k numbered)) ["1"]).
  { apply Forall_cons. split; [by eexists|]. by apply Forall_nil. }
  split; [exact H1|]. split; [exact H2|]. split; [reflexivity|].
  destruct (HotReload.update_stops_at_new_key true [] numbered with_new_child ["1"] ["a"] "z"
              H1 H3 H2) as [_ Hkeep].
  split; [|reflexivity].
  rewrite (Hkeep "a"); [reflexivity|].
  intros Hin. apply list_elem_of_singleton in Hin. discriminate.
Defined.
End HotReloadExample.

(** ** Reading along a path of the state *)

Lemma getNestedState_app (p q : list string) :
  forall st : val,
    getNestedState st (p ++ q) = rbind (getNestedState st p) (fun v => getNestedState v q).
Proof.
  induction p as [|key p IH]; intros st; cbn; [done|].
  destruct (get_prop st key) as [v|e]; cbn; [apply IH|done].
Qed.

Module NestedState.
(** X6: [getNestedState] reads key by key: reading along [p ++ q] is
    reading along [q] from what is found at [p], and a failure on the way
    is the failure of the whole read.  Where an object is found at [p], an
    own property [k] of it is what is read next, whatever [k] is; a key
    that the object neither has nor inherits from [Object.prototype] reads
    [undefined], and reading on from there throws a TypeError. *)
Theorem getNestedState_missing_key (st : val) (p : list string)
    (props : list (string * val)) (k : string) :
  getNestedState st p = Val (VObj props) ->
  (forall st0 p0 q,
     getNestedState st0 (p0 ++ q)
     = rbind (getNestedState st0 p0) (fun v => getNestedState v q))
  /\ (forall v q, alist_get k props = Some v ->
        getNestedState st (p ++ k :: q) = getNestedState v q)
  /\ (alist_get k props = None -> inherited k = false ->
        getNestedState st (p ++ [k]) = Val VUndef
        /\ forall k' q,
             getNestedState st (p ++ k :: k' :: q)
             = Err (TypeError "Cannot read properties of undefined")).
Proof.
  intros Hp. split; [intros st0 p0 q; apply getNestedState_app|].
  split.
  - intros v q Hk. rewrite getNestedState_app, Hp. cbn. by rewrite Hk.
  - intros Hk Hin. split.
    + rewrite getNestedState_app, Hp. cbn. by rewrite Hk, Hin.
    + intros k' q. rewrite getNestedState_app, Hp. cbn. by rewrite Hk, Hin.
Qed.
End NestedState.

Module NestedStateExample.
Import Example.
Lemma getNestedState_missing_key_example :
  getNestedState state0 ["counter"] = Val (VObj [("n", VNum 0)])
  /\ getNestedState state0 ["counter"; "n"] = Val (VNum 0)
  /\ getNestedState state0 ["counter"; "m"] = Val VUndef
  /\ getNestedState state0 ["counter"; "m"; "x"]
     = Err (TypeError "Cannot read properties of undefined").
Proof.
  assert (H1 : getNestedState state0 ["counter"] = Val (VObj [("n", VNum 0)])) by reflexivity.
  split; [exact H1|].
  destruct (NestedState.getNestedState_missing_key state0 ["counter"] _ "n" H1)
    as (_ & Hn & _).
  destruct (NestedState.getNestedState_missing_key state0 ["counter"] _ "m" H1)
    as (_ & _ & Hm).
  destruct (Hm eq_refl eq_refl) as [H3 H4].
  split; [exact (Hn (VNum 0) [] eq_refl)|]. split; [exact H3|exact (H4 "x" [])].
Defined.
End NestedStateExample.

(** ** The styles of a call *)

Module CallStyle.
(** X7: an object-style call is the call of its [type] with the object
    itself as the payload: [commit ({ type, ... }, options)] is
    [commit (type, { type, ... }, options)] and [dispatch ({ type, ... })]
    is [dispatch (type, { type, ... })]; a third argument is dropped. *)
Theorem object_style_is_positional (DEV : bool) (n : nat)
    (props : list (string * val)) (name : string) (options ignored : val) (s : Store) :
  alist_get "type" props = Some (VStr name) ->
  name <> "" ->
  commit DEV n (VObj props) options ignored s
  = commit DEV n (VStr name) (VObj props) options s
  /\ dispatch DEV n (VObj props) options s
     = dispatch DEV n (VStr name) (VObj props) s.
Proof.
  intros Hty Hne. destruct n as [|n]; [done|]. cbn [commit dispatch].
  unfold commit_body, dispatch_body, unifyObjectStyle.
  rewrite (objectStyle_object props name options ignored Hty Hne).
  rewrite (objectStyle_object props name options VUndef Hty Hne).
  rewrite !objectStyle_name. split; [reflexivity|]. by destruct DEV.
Qed.

(** X8: in a debug build a commit or a dispatch whose type is not a string
    fails the check of [unifyObjectStyle] before anything else is done: the
    assertion is thrown and the store is as it was.  A production build
    makes no check: the type is used as a property key, printed as
    [to_string] prints it, and without an entry under that key the call
    returns [undefined] without a word. *)
Theorem type_is_checked_in_debug_only (n : nat) (t p o : val) (s : Store) :
  is_string (normal_type t) = false ->
  commit true (S n) t p o s = Exn (not_a_string (normal_type t)) s
  /\ dispatch true (S n) t p s = Exn (not_a_string (normal_type t)) s
  /\ (forall key, to_string (normal_type t) = Val key ->
      _mutations s !! key = None ->
      commit false (S n) t p o s = Ok VUndef s)
  /\ (forall key, to_string (normal_type t) = Val key ->
      _actions s !! key = None ->
      dispatch false (S n) t p s = Ok VUndef s).
Proof.
  intros Hty.
  destruct (not_a_string_throws n t p o s Hty) as [Hc Hd].
  split; [exact Hc|]. split; [exact Hd|].
  destruct (objectStyle_type t p o) as (p1 & o1 & H1).
  destruct (objectStyle_type t p VUndef) as (p2 & o2 & H2).
  cbn [commit dispatch]. unfold commit_body, dispatch_body, unifyObjectStyle.
  rewrite H1, H2. split.
  - intros key Hkey Hmiss. unfold bind, when, ret, gets, lift. by rewrite Hkey, Hmiss.
  - intros key Hkey Hmiss. unfold bind, when, ret, gets, lift. by rewrite Hkey, Hmiss.
Qed.
End CallStyle.

Module CallStyleExample.
Import Example ExampleFacts.
Lemma object_style_is_positional_example :
  alist_get "type" [("type", VStr "counter/increment"); ("by", VNum 2)]
  = Some (VStr "counter/increment")
  /\ "counter/increment" <> ""
  /\ commit true 2 (VObj [("type", VStr "counter/increment"); ("by", VNum 2)]) VUndef VUndef
       (store true)
     = commit true 2 (VStr "counter/increment")
         (VObj [("type", VStr "counter/increment"); ("by", VNum 2)]) VUndef (store true).
Proof.
  assert (H1 : alist_get "type" [("type", VStr "counter/increment"); ("by", VNum 2)]
               = Some (VStr "counter/increment")) by reflexivity.
  assert (H2 : "counter/increment" <> "") by done.
  split; [exact H1|]. split; [exact H2|].
  exact (proj1 (CallStyle.object_style_is_positional true 2 _ _ VUndef VUndef (store true)
                  H1 H2)).
Defined.

Lemma type_is_checked_in_debug_only_example :
  is_string (normal_type (VNum 5)) = false
  /\ commit true 1 (VNum 5) VUndef VUndef (store true)
     = Exn (not_a_string (VNum 5)) (store true)
  /\ commit false 1 (VNum 5) VUndef VUndef (store false) = Ok VUndef (store false).
Proof.
  assert (H1 : is_string (normal_type (VNum 5)) = false) by reflexivity.
  split; [exact H1|].
  destruct (CallStyle.type_is_checked_in_debug_only 0 (VNum 5) VUndef VUndef (store true) H1)
    as (H2 & _ & _ & _).
  destruct (CallStyle.type_is_checked_in_debug_only 0 (VNum 5) VUndef VUndef (store false) H1)
    as (_ & _ & H3 & _).
  split; [exact H2|]. apply (H3 "5"); by vm_compute.
Defined.
End CallStyleExample.

(** ** Exceptions of handlers and of mutation subscribers *)

Lemma mapM_stops {A B} (f : A -> M B) (xs1 : list A) (x : A) (xs2 : list A) :
  forall (s s1 s2 : Store) (ys : list B) (e : exn),
    mapM xs1 f s = Ok ys s1 ->
    f x s1 = Exn e s2 ->
    mapM (xs1 ++ x :: xs2) f s = Exn e s2.
Proof.
  induction xs1 as [|a xs1 IH]; intros s s1 s2 ys e Hrun Hx; cbn [mapM app] in *.
  - injection Hrun as _ ->. by rewrite (bind_Exn _ _ _ _ _ Hx).
  - unfold bind in *. destruct (f a s) as [y s'| |]; try discriminate.
    destruct (mapM xs1 f s') as [ys' s''| |] eqn:Hm; try discriminate.
    injection Hrun as _ ->. by rewrite (IH s' s1 s2 ys' e Hm Hx).
Qed.

Lemma notify_subscribers_unfold (DEV : bool) boundCommit boundDispatch (mutation : val) :
  notify_subscribers DEV boundCommit boundDispatch mutation
  = (subs <- gets _subscribers ;;
     forEach subs (call_subscriber DEV boundCommit boundDispatch mutation)).
Proof. reflexivity. Qed.

Module Aborting.
(** X9: a mutation handler that throws aborts the commit: the exception
    reaches the caller of [commit] from the store that the handler left,
    so the handlers registered after it are not called and no subscriber
    is notified; the flag [_committing] is left set. *)
Theorem throwing_handler_aborts_commit (DEV : bool) (n : nat) (s : Store)
    (type : string) (payload options : val)
    (pre post : list (Local * Mutation)) (h : Local * Mutation)
    (seen : list Store) (s1 s2 : Store) (e : exn) :
  _mutations s !! type = Some (pre ++ h :: post) ->
  in_order
    (fun handler => wrappedMutationHandler DEV (commit DEV n) (dispatch DEV n) handler payload)
    pre (set_committing true s) seen s1 ->
  wrappedMutationHandler DEV (commit DEV n) (dispatch DEV n) h payload s1 = Exn e s2 ->
  commit DEV (S n) (VStr type) payload options s = Exn e s2
  /\ _committing s2 = true.
Proof.
  intros Hentry Hpre Hthrow.
  destruct (Commit.in_order_forEach _ _ _ _ _ Hpre) as [Hfor _].
  destruct (Commit.in_order_inside DEV n payload pre (set_committing true s) seen s1
              eq_refl Hpre) as [_ Hs1].
  split.
  - cbn [commit]. unfold commit_body.
    rewrite (bind_Ok _ _ _ _ _
               (unifyObjectStyle_string DEV (VStr type) payload options _ _ _ s eq_refl)).
    rewrite bind_gets. cbn [to_string]. rewrite (bind_lift _ _ _ _ eq_refl), Hentry.
    apply bind_Exn. apply Committing.withCommit_throws.
    by apply (forEach_stops _ pre h post _ s1).
  - pose proof (Window.window_wrappedMutationHandler DEV n h payload s1 Hs1) as Hin.
    rewrite Hthrow in Hin. apply Hin.
Qed.

(** X10: an exception of a mutation subscriber is not caught: it reaches
    the caller of [commit], after the handlers have run and changed the
    state, and the subscribers that come after the one that throws are not
    notified. *)
Theorem throwing_subscriber_aborts_commit (DEV : bool) (n : nat) (s : Store)
    (type : string) (payload options : val) (entry : list (Local * Mutation))
    (s_end : Store) (pre post : list Subscriber) (sub : Subscriber)
    (s1 s2 : Store) (e : exn) :
  let mutation := VObj [("type", VStr type); ("payload", payload)] in
  _mutations s !! type = Some entry ->
  forEach entry
    (fun handler => wrappedMutationHandler DEV (commit DEV n) (dispatch DEV n) handler payload)
    (set_committing true s) = Ok tt s_end ->
  _subscribers s_end = pre ++ sub :: post ->
  forEach pre (call_subscriber DEV (commit DEV n) (dispatch DEV n) mutation)
    (set_committing (_committing s) s_end) = Ok tt s1 ->
  call_subscriber DEV (commit DEV n) (dispatch DEV n) mutation sub s1 = Exn e s2 ->
  commit DEV (S n) (VStr type) payload options s = Exn e s2.
Proof.
  intros mutation Hentry Hfor Hsubs Hpre Hthrow.
  cbn [commit]. unfold commit_body.
  rewrite (bind_Ok _ _ _ _ _
             (unifyObjectStyle_string DEV (VStr type) payload options _ _ _ s eq_refl)).
  rewrite bind_gets. cbn [to_string]. rewrite (bind_lift _ _ _ _ eq_refl), Hentry.
  rewrite (bind_Ok _ _ _ _ _ (Committing.withCommit_returns _ _ _ _ Hfor)).
  apply bind_Exn. rewrite notify_subscribers_unfold, bind_gets.
  replace (_subscribers (set_committing (_committing s) s_end)) with (pre ++ sub :: post)
    by (by rewrite <- Hsubs).
  by apply (forEach_stops _ pre sub post _ s1).
Qed.

(** X11: an action handler that throws (rather than returning a promise
    that rejects) makes [dispatch] itself throw: the exception reaches the
    caller from the store that the handler left, no promise is returned,
    and the handlers registered after it are not called. *)
Theorem throwing_handler_aborts_dispatch (DEV : bool) (n : nat) (s : Store)
    (type : string) (payload : val)
    (pre post : list (Local * Action)) (h : Local * Action)
    (s0 s1 s2 : Store) (ps : list val) (e : exn) :
  let action := VObj [("type", VStr type); ("payload", payload)] in
  _actions s !! type = Some (pre ++ h :: post) ->
  before_subscribers DEV (commit DEV n) (dispatch DEV n) action s = Ok tt s0 ->
  mapM pre
    (fun handler => wrappedActionHandler DEV (commit DEV n) (dispatch DEV n) handler payload)
    s0 = Ok ps s1 ->
  wrappedActionHandler DEV (commit DEV n) (dispatch DEV n) h payload s1 = Exn e s2 ->
  dispatch DEV (S n) (VStr type) payload s = Exn e s2.
Proof.
  intros action Hentry Hbefore Hpre Hthrow.
  cbn [dispatch]. unfold dispatch_body.
  rewrite (bind_Ok _ _ _ _ _
             (unifyObjectStyle_string DEV (VStr type) payload VUndef _ _ _ s eq_refl)).
  rewrite bind_gets. cbn [to_string]. rewrite (bind_lift _ _ _ _ eq_refl), Hentry.
  rewrite (bind_Ok _ _ _ _ _ Hbefore).
  unfold invoke_handlers. apply bind_Exn.
  destruct (1 <? length (pre ++ h :: post)) eqn:Hlen.
  - apply bind_Exn. by apply (mapM_stops _ pre h post _ s1 s2 ps).
  - apply Nat.ltb_ge in Hlen. rewrite length_app in Hlen. cbn in Hlen.
    destruct pre as [|h0 pre]; [|cbn in Hlen; lia].
    cbn in Hpre. injection Hpre as _ ->. exact Hthrow.
Qed.
End Aborting.

Module AbortingExample.
Import ThrowSample.

Lemma throwing_handler_aborts_commit_example :
  _mutations (throwing false) !! "boom" = Some ([boom_first] ++ boom_second :: [boom_third])
  /\ in_order
       (fun handler =>
          wrappedMutationHandler true (commit true 0) (dispatch true 0) handler VUndef)
       [boom_first] (set_committing true (throwing false))
       [set_committing true (throwing false)] after_first
  /\ wrappedMutationHandler true (commit true 0) (dispatch true 0) boom_second VUndef
       after_first = Exn (UserExn (VStr "x")) after_first
  /\ commit true 1 (VStr "boom") VUndef VUndef (throwing false)
     = Exn (UserExn (VStr "x")) after_first
  /\ console after_first = [LPrint "first"].
Proof.
  assert (H1 : _mutations (throwing false) !! "boom"
               = Some ([boom_first] ++ boom_second :: [boom_third]))
    by (vm_compute; reflexivity).
  assert (H2 : in_order
                 (fun handler =>
                    wrappedMutationHandler true (commit true 0) (dispatch true 0) handler VUndef)
                 [boom_first] (set_committing true (throwing false))
                 [set_committing true (throwing false)] after_first).
  { apply in_order_cons with (s1 := after_first); [vm_compute; reflexivity|].
    apply in_order_nil. }
  assert (H3 : wrappedMutationHandler true (commit true 0) (dispatch true 0) boom_second VUndef
                 after_first = Exn (UserExn (VStr "x")) after_first)
    by (vm_compute; reflexivity).
  split; [exact H1|]. split; [exact H2|]. split; [exact H3|].
  split; [|reflexivity].
  exact (proj1 (Aborting.throwing_handler_aborts_commit true 0 (throwing false) "boom" VUndef
                  VUndef _ _ _ _ _ _ _ H1 H2 H3)).
Defined.

Lemma throwing_subscriber_aborts_commit_example :
  exists entry sub later,
    _mutations (throwing false) !! "set" = Some entry
    /\ forEach entry
         (fun handler =>
            wrappedMutationHandler true (commit true 0) (dispatch true 0) handler VUndef)
         (set_committing true (throwing false)) = Ok tt after_set
    /\ _subscribers after_set = [] ++ sub :: [later]
    /\ commit true 1 (VStr "set") VUndef VUndef (throwing false)
       = Exn (UserExn (VStr "sub")) (set_committing false after_set)
    /\ _state after_set = Some (VObj [("n", VNum 1); ("b", VObj []); ("c", VObj [])])
    /\ console after_set = [].
Proof.
  eexists _, _, _.
  assert (H1 : _mutations (throwing false) !! "set"
               = Some (default [] (_mutations (throwing false) !! "set")))
    by (vm_compute; reflexivity).
  assert (H2 : forEach (default [] (_mutations (throwing false) !! "set"))
                 (fun handler =>
                    wrappedMutationHandler true (commit true 0) (dispatch true 0) handler VUndef)
                 (set_committing true (throwing false)) = Ok tt after_set)
    by (vm_compute; reflexivity).
  assert (H3 : _subscribers after_set
               = [] ++ (fun _ _ => Throw (VStr "sub"))
                       :: [fun _ _ => Print "later" (Ret VUndef)])
    by (vm_compute; reflexivity).
  split; [exact H1|]. split; [exact H2|]. split; [exact H3|].
  split; [|split; by vm_compute].
  apply (Aborting.throwing_subscriber_aborts_commit true 0 (throwing false) "set" VUndef VUndef
           _ after_set [] _ _ (set_committing false after_set) _ _ H1 H2 H3).
  - reflexivity.
  - vm_compute. reflexivity.
Defined.

Lemma throwing_handler_aborts_dispatch_example :
  exists h,
    _actions (throwing false) !! "act" = Some ([] ++ h :: [])
    /\ dispatch true 1 (VStr "act") VUndef (throwing false)
       = Exn (UserExn (VStr "no")) (throwing false).
Proof.
  eexists.
  assert (H1 : _actions (throwing false) !! "act"
               = Some ([] ++ (mkLocal "" [], fun _ _ _ => Throw (VStr "no")) :: []))
    by (vm_compute; reflexivity).
  split; [exact H1|].
  apply (Aborting.throwing_handler_aborts_dispatch true 0 (throwing false) "act" VUndef
           [] [] _ (throwing false) (throwing false) (throwing false) [] _ H1).
  - vm_compute. reflexivity.
  - reflexivity.
  - vm_compute. reflexivity.
Defined.
End AbortingExample.

(** ** The wrapper of an action, the strict mode and [replaceState] *)

Lemma clamp_clamp (now : nat) (f : fate) :
  Promise.clamp now (Promise.clamp now f) = Promise.clamp now f.
Proof. destruct f; cbn; f_equal; lia. Qed.

Lemma fate_of_promise (now pid : nat) (v : val) :
  Promise.fate_of now (VPromise pid (Promise.fate_of now v)) = Promise.fate_of now v.
Proof.
  cbn. destruct v; cbn; try (f_equal; lia). apply clamp_clamp.
Qed.

Lemma local_state_returns (local : Local) (s : Store) (st lst : val) :
  _state s = Some st ->
  getNestedState st (l_path local) = Val lst ->
  local_state local s = Ok lst s.
Proof.
  intros Hst Hlst. unfold local_state. rewrite (bind_get_state _ s st Hst). by rewrite Hlst.
Qed.

Module Wrapped.
(** X12: what the wrapper of [registerAction] returns is always a promise
    that settles as the result of the handler does: a result that is not a
    promise is wrapped in a promise fulfilled with it, and a promise is
    returned as it is unless a devtool hook is installed. *)
Theorem action_result_is_a_promise (DEV : bool) boundCommit boundDispatch
    (local : Local) (handler : Action) (payload : val)
    (s : Store) (st lst res : val) (s1 : Store) :
  _state s = Some st ->
  getNestedState st (l_path local) = Val lst ->
  run DEV boundCommit boundDispatch local (handler lst st payload) s = Ok res s1 ->
  exists p s2,
    wrappedActionHandler DEV boundCommit boundDispatch (local, handler) payload s = Ok p s2
    /\ isPromise p = true
    /\ Promise.fate_of (now s1) p = Promise.fate_of (now s1) res
    /\ (isPromise res = true -> _devtoolHook s1 = false -> p = res /\ s2 = s1)
    /\ (isPromise res = false -> _devtoolHook s1 = false ->
        p = VPromise (next_pid s1) (Fulfilled (now s1) res)).
Proof.
  intros Hst Hlst Hrun. unfold wrappedActionHandler.
  rewrite (bind_Ok _ _ _ _ _ (local_state_returns local s st lst Hst Hlst)).
  rewrite (bind_get_state _ s st Hst).
  rewrite (bind_Ok _ _ _ _ _ Hrun).
  destruct (isPromise res) eqn:Hp.
  - rewrite bind_ret, bind_gets. destruct (_devtoolHook s1) eqn:Hhook.
    + eexists _, _. split; [reflexivity|]. split; [done|].
      split; [apply fate_of_promise|]. split; [done|done].
    + eexists _, _. split; [reflexivity|]. split; [done|]. split; [done|].
      split; [done|done].
  - unfold fresh_pid at 1. unfold bind at 1 2 3. cbn [gets ret].
    rewrite bind_gets. cbn [_devtoolHook set_next_pid now next_pid].
    destruct (_devtoolHook s1) eqn:Hhook.
    + eexists _, _. split; [reflexivity|]. split; [done|].
      split; [|split; [done|done]].
      cbn [now set_next_pid]. rewrite fate_of_promise.
      destruct res; try discriminate; cbn; f_equal; lia.
    + eexists _, _. split; [reflexivity|]. split; [done|].
      split; [|split; [done|done]].
      destruct res; try discriminate; cbn; f_equal; lia.
Qed.
End Wrapped.

Module Strict.
(** X13: the write of application code into the state, and the watcher of
    the strict mode.  In a debug build of a store made with [strict], a
    write outside a commit (the flag [_committing] is not set) throws the
    assertion, after the write has been made: the state has changed.  In
    every other case the write is made and the code goes on. *)
Theorem strict_mode_detects_write (DEV : bool) boundCommit boundDispatch
    (local : Local) (sc : scope) (rel : list string)
    (f : list (string * val) -> list (string * val)) (k : Cmd)
    (s : Store) (st st' : val) :
  _state s = Some st ->
  update_at (scope_path sc local ++ rel) (mutate_obj f) st = Val st' ->
  run DEV boundCommit boundDispatch local (Mutate sc rel f k) s
  = if DEV && strict s && negb (_committing s)
    then Exn strict_violation (set_state (Some st') s)
    else run DEV boundCommit boundDispatch local k (set_state (Some st') s).
Proof.
  intros Hst Hupd. cbn [run].
  rewrite (bind_get_state _ s st Hst), (bind_lift _ _ _ _ Hupd), bind_modify.
  unfold strict_watcher, bind at 1 2, gets.
  cbn [strict _state _committing set_state].
  destruct DEV, (strict s), (_committing s); reflexivity.
Qed.

(** X14: [replaceState] returns with the given state in the place of the
    old one and with nothing else changed: the flag is as before, no
    subscriber has been notified, and the watcher of the strict mode has
    not failed, whatever the build and the mode. *)
Theorem replaceState_replaces (DEV : bool) (st : val) (s : Store) :
  _state s <> None ->
  replaceState DEV st s = Ok tt (set_state (Some st) s).
Proof.
  intros Hst. destruct (_state s) as [st0|] eqn:Hst0; [|done].
  unfold replaceState.
  rewrite (Committing.withCommit_returns _ s (set_state (Some st) (set_committing true s)) tt).
  - by destruct s.
  - rewrite (bind_get_state _ _ st0) by done. rewrite bind_modify.
    unfold strict_watcher. rewrite bind_gets. cbn.
    by destruct (strict s), DEV.
Qed.
End Strict.

Module StrictExample.
Import Example ThrowSample.

Lemma action_result_is_a_promise_example :
  _state (store true) = Some state0
  /\ getNestedState state0 (l_path counter_local) = Val (VObj [("n", VNum 0)])
  /\ run true (commit true 0) (dispatch true 0) counter_local
       (fetch (VObj [("n", VNum 0)]) state0 (VNum 1)) (store true)
     = Ok (VPromise 0 (Fulfilled 3 (VNum 1))) (set_next_pid 1 (store true))
  /\ wrappedActionHandler true (commit true 0) (dispatch true 0) (counter_local, fetch)
       (VNum 1) (store true)
     = Ok (VPromise 0 (Fulfilled 3 (VNum 1))) (set_next_pid 1 (store true)).
Proof.
  assert (H1 : _state (store true) = Some state0) by (vm_compute; reflexivity).
  assert (H2 : getNestedState state0 (l_path counter_local) = Val (VObj [("n", VNum 0)]))
    by reflexivity.
  assert (H3 : run true (commit true 0) (dispatch true 0) counter_local
                 (fetch (VObj [("n", VNum 0)]) state0 (VNum 1)) (store true)
               = Ok (VPromise 0 (Fulfilled 3 (VNum 1))) (set_next_pid 1 (store true)))
    by (vm_compute; reflexivity).
  split; [exact H1|]. split; [exact H2|]. split; [exact H3|].
  destruct (Wrapped.action_result_is_a_promise true _ _ counter_local fetch (VNum 1)
              (store true) state0 _ _ _ H1 H2 H3) as (p & s2 & Hrun & _ & _ & Hsame & _).
  destruct Hsame as [-> ->]; [reflexivity|by vm_compute|exact Hrun].
Defined.

Lemma strict_mode_detects_write_example :
  _state (throwing true) = Some (VObj [("n", VNum 0); ("b", VObj []); ("c", VObj [])])
  /\ run true (commit true 0) (dispatch true 0) root_local
       (Mutate Global [] (alist_set "n" (VNum 5)) (Ret VUndef)) (throwing true)
     = Exn strict_violation
         (set_state (Some (VObj [("n", VNum 5); ("b", VObj []); ("c", VObj [])]))
            (throwing true)).
Proof.
  assert (H1 : _state (throwing true)
               = Some (VObj [("n", VNum 0); ("b", VObj []); ("c", VObj [])]))
    by (vm_compute; reflexivity).
  split; [exact H1|].
  rewrite (Strict.strict_mode_detects_write true _ _ root_local Global []
             (alist_set "n" (VNum 5)) (Ret VUndef) (throwing true) _
             (VObj [("n", VNum 5); ("b", VObj []); ("c", VObj [])]) H1 eq_refl).
  reflexivity.
Defined.

Lemma replaceState_replaces_example :
  _state (store true) <> None
  /\ replaceState true (VObj []) (store true) = Ok tt (set_state (Some (VObj [])) (store true)).
Proof.
  assert (H1 : _state (store true) <> None) by (by vm_compute).
  split; [exact H1|]. exact (Strict.replaceState_replaces true (VObj []) (store true) H1).
Defined.
End StrictExample.

(** ** Subscribing and unsubscribing *)

Section SubscriptionFacts.
Context {A : Type} `{EqDecision A}.

Lemma indexOf_None (fn : A) (subs : list A) :
  Subscription.indexOf fn subs = None <-> fn ∉ subs.
Proof.
  induction subs as [|x subs IH]; cbn.
  - split; [intros _; apply not_elem_of_nil|done].
  - destruct (decide (x = fn)) as [->|Hne].
    + split; [discriminate|]. intros H. exfalso. apply H. apply elem_of_cons. by left.
    + rewrite not_elem_of_cons. destruct (Subscription.indexOf fn subs); cbn.
      * split; [discriminate|]. intros [_ H]. by apply IH in H.
      * split; [|done]. intros _. split; [done|]. by apply IH.
Qed.

Lemma unsubscribe_cons (fn x : A) (subs : list A) :
  Subscription.unsubscribe fn (x :: subs)
  = if decide (x = fn) then subs else x :: Subscription.unsubscribe fn subs.
Proof.
  unfold Subscription.unsubscribe. cbn [Subscription.indexOf].
  destruct (decide (x = fn)); [done|].
  by destruct (Subscription.indexOf fn subs).
Qed.

Lemma unsubscribe_absent (fn : A) (subs : list A) :
  fn ∉ subs -> Subscription.unsubscribe fn subs = subs.
Proof.
  intros H. apply indexOf_None in H. unfold Subscription.unsubscribe. by rewrite H.
Qed.

Lemma unsubscribe_snoc (fn : A) (subs : list A) :
  fn ∉ subs -> Subscription.unsubscribe fn (subs ++ [fn]) = subs.
Proof.
  induction subs as [|x subs IH]; intros Hnot.
  - cbn [app]. rewrite unsubscribe_cons. by destruct (decide (fn = fn)).
  - apply not_elem_of_cons in Hnot as [Hne Hnot]. cbn [app]. rewrite unsubscribe_cons.
    destruct (decide (x = fn)); [congruence|]. by rewrite IH.
Qed.

Lemma unsubscribe_filter (fn : A) (subs : list A) :
  NoDup subs -> Subscription.unsubscribe fn subs = filter (fun g => g <> fn) subs.
Proof.
  induction subs as [|x subs IH]; intros Hnd; [done|].
  apply NoDup_cons in Hnd as [Hx Hnd]. rewrite unsubscribe_cons, filter_cons.
  destruct (decide (x = fn)) as [->|Hne].
  - destruct (decide (fn <> fn)); [done|].
    rewrite <- (IH Hnd). symmetry. by apply unsubscribe_absent.
  - destruct (decide (x <> fn)); [|done]. by rewrite IH.
Qed.

Lemma genericSubscribe_present (fn : A) (subs : list A) (prepend : bool) :
  fn ∈ subs -> Subscription.genericSubscribe fn subs prepend = subs.
Proof.
  intros Hin. unfold Subscription.genericSubscribe.
  destruct (Subscription.indexOf fn subs) eqn:Hi; [done|].
  apply indexOf_None in Hi. contradiction.
Qed.

Lemma genericSubscribe_absent (fn : A) (subs : list A) (prepend : bool) :
  fn ∉ subs ->
  Subscription.genericSubscribe fn subs prepend = if prepend then fn :: subs else subs ++ [fn].
Proof.
  intros Hnot. unfold Subscription.genericSubscribe.
  by rewrite (proj2 (indexOf_None fn subs) Hnot).
Qed.
End SubscriptionFacts.

Module Subscribing.
(** X15: [genericSubscribe] never adds a subscriber twice: a list without
    duplicates stays without duplicates, and subscribing a subscriber that
    is in the list leaves the list as it is, also its position when
    [prepend] is asked for.  A subscriber that is not in the list is put
    at its end, or at its head when [prepend] is asked for. *)
Theorem subscribing_twice_is_subscribing_once {A : Type} `{EqDecision A}
    (fn : A) (subs : list A) (prepend again : bool) :
  NoDup subs ->
  NoDup (Subscription.genericSubscribe fn subs prepend)
  /\ fn ∈ Subscription.genericSubscribe fn subs prepend
  /\ Subscription.genericSubscribe fn (Subscription.genericSubscribe fn subs prepend) again
     = Subscription.genericSubscribe fn subs prepend
  /\ (fn ∉ subs ->
      Subscription.genericSubscribe fn subs prepend
      = if prepend then fn :: subs else subs ++ [fn]).
Proof.
  intros Hnd. destruct (decide (fn ∈ subs)) as [Hin|Hnot].
  - rewrite !(genericSubscribe_present fn subs _ Hin).
    split; [done|]. split; [done|]. split; [done|]. intros. contradiction.
  - rewrite !(genericSubscribe_absent fn subs prepend Hnot).
    assert (Hin : fn ∈ (if prepend then fn :: subs else subs ++ [fn])).
    { destruct prepend; [apply elem_of_cons; by left|].
      apply elem_of_app. right. by apply list_elem_of_singleton. }
    split; [|split; [exact Hin|split; [by apply genericSubscribe_present|done]]].
    destruct prepend; [by apply NoDup_cons|].
    apply NoDup_app. split; [done|]. split; [|apply NoDup_singleton].
    intros x Hx Hx'. apply list_elem_of_singleton in Hx'. by subst.
Qed.

(** X16: the function that [genericSubscribe] returns takes the subscriber
    out again: after a subscription of a new subscriber it gives back the
    list as it was; it removes that subscriber only and keeps the others in
    their order; calling it a second time changes nothing. *)
Theorem unsubscribe_undoes_subscribe {A : Type} `{EqDecision A}
    (fn : A) (subs : list A) (prepend : bool) :
  NoDup subs ->
  (fn ∉ subs ->
   Subscription.unsubscribe fn (Subscription.genericSubscribe fn subs prepend) = subs)
  /\ Subscription.unsubscribe fn subs = filter (fun g => g <> fn) subs
  /\ Subscription.unsubscribe fn (Subscription.unsubscribe fn subs)
     = Subscription.unsubscribe fn subs.
Proof.
  intros Hnd. split; [|split].
  - intros Hnot. unfold Subscription.genericSubscribe.
    rewrite (proj2 (indexOf_None fn subs) Hnot). destruct prepend.
    + rewrite unsubscribe_cons. by destruct (decide (fn = fn)).
    + by apply unsubscribe_snoc.
  - by apply unsubscribe_filter.
  - apply unsubscribe_absent. rewrite (unsubscribe_filter fn subs Hnd).
    intros Hin. apply list_elem_of_filter in Hin as [Hne _]. done.
Qed.
End Subscribing.

Module SubscribingExample.
Lemma subscribing_twice_is_subscribing_once_example :
  NoDup [1; 2; 3]
  /\ Subscription.genericSubscribe 2 [1; 2; 3] true = [1; 2; 3]
  /\ Subscription.genericSubscribe 4 (Subscription.genericSubscribe 4 [1; 2; 3] true) false
     = [4; 1; 2; 3].
Proof.
  assert (H1 : NoDup [1; 2; 3]) by exact (bool_decide_unpack (NoDup [1; 2; 3]) I).
  split; [exact H1|]. split; [reflexivity|].
  destruct (Subscribing.subscribing_twice_is_subscribing_once 4 [1; 2; 3] true false H1)
    as (_ & _ & H2 & _).
  rewrite H2. reflexivity.
Defined.

Lemma unsubscribe_undoes_subscribe_example :
  NoDup [1; 2; 3]
  /\ Subscription.unsubscribe 4 (Subscription.genericSubscribe 4 [1; 2; 3] false) = [1; 2; 3]
  /\ Subscription.unsubscribe 2 [1; 2; 3] = [1; 3].
Proof.
  assert (H1 : NoDup [1; 2; 3]) by exact (bool_decide_unpack (NoDup [1; 2; 3]) I).
  split; [exact H1|].
  destruct (Subscribing.unsubscribe_undoes_subscribe 4 [1; 2; 3] false H1) as (H2 & _ & _).
  split; [|reflexivity]. apply H2. exact (bool_decide_unpack (4 ∉ [1; 2; 3]) I).
Defined.
End SubscribingExample.

(** ** The local getters of a namespace *)

Lemma substring_all (s : string) : String.substring 0 (String.length s) s = s.
Proof. induction s as [|c s IH]; cbn; [done|]. by rewrite IH. Qed.

Lemma substring_prefix_append (ns rest : string) :
  String.substring 0 (String.length ns) (ns +:+ rest) = ns.
Proof.
  induction ns as [|c ns IH]; [by destruct rest|].
  change (String c ns +:+ rest) with (String c (ns +:+ rest)). cbn. by rewrite IH.
Qed.

Lemma length_append (ns rest : string) :
  String.length (ns +:+ rest) = String.length ns + String.length rest.
Proof.
  induction ns as [|c ns IH]; [done|].
  change (String c ns +:+ rest) with (String c (ns +:+ rest)). cbn. by rewrite IH.
Qed.

Lemma substring_suffix_append (ns rest : string) :
  String.substring (String.length ns)
    (String.length (ns +:+ rest) - String.length ns) (ns +:+ rest) = rest.
Proof.
  rewrite length_append. replace (_ + _ - _) with (String.length rest) by lia.
  induction ns as [|c ns IH]; [apply substring_all|].
  change (String c ns +:+ rest) with (String c (ns +:+ rest)). cbn. exact IH.
Qed.

Lemma substring_prefix_split (ns : string) :
  forall type : string,
    String.substring 0 (String.length ns) type = ns ->
    type = ns +:+ String.substring (String.length ns)
                    (String.length type - String.length ns) type.
Proof.
  induction ns as [|c ns IH]; intros type H.
  - cbn. rewrite Nat.sub_0_r. by rewrite substring_all.
  - destruct type as [|c' type]; [discriminate|]. cbn in H. injection H as -> H.
    change (String c ns +:+ ?r) with (String c (ns +:+ r)). cbn. f_equal. by apply IH.
Qed.

Module LocalGettersFacts.
(** X17: the local getters of a namespace are the store getters whose type
    begins with the namespace, each under its type without the namespace:
    [localType] reads the store getter [type] exactly when [type] is a
    store getter and is [namespace + localType].  The proxy is made once
    for a namespace: a later call returns the cached one, whatever the
    store getters are by then. *)
Theorem local_getters_strip_namespace (getters : list string) (namespace : string)
    (cache : gmap string (list (string * string))) :
  cache !! namespace = None ->
  (forall localType type,
     (localType, type) ∈ fst (LocalGetters.makeLocalGetters cache getters namespace)
     <-> type ∈ getters /\ type = namespace +:+ localType)
  /\ forall getters',
       LocalGetters.makeLocalGetters
         (snd (LocalGetters.makeLocalGetters cache getters namespace)) getters' namespace
       = LocalGetters.makeLocalGetters cache getters namespace.
Proof.
  intros Hmiss. unfold LocalGetters.makeLocalGetters at 1 3 4. rewrite Hmiss.
  cbn [fst snd]. split.
  - intros localType type. unfold LocalGetters.gettersProxy.
    rewrite list_elem_of_In, in_flat_map. split.
    + intros (t & Hin & Hl). apply list_elem_of_In in Hin.
      destruct (String.eqb_spec (String.substring 0 (String.length namespace) t) namespace)
        as [Hpre|Hpre]; cbn in Hl; [|done].
      destruct Hl as [[= <- <-]|[]]. split; [done|]. by apply substring_prefix_split.
    + intros [Hin ->]. exists (namespace +:+ localType).
      split; [by apply list_elem_of_In|].
      rewrite substring_prefix_append, String.eqb_refl, substring_suffix_append.
      cbn. by left.
  - intros getters'. unfold LocalGetters.makeLocalGetters. by rewrite lookup_insert_eq.
Qed.
End LocalGettersFacts.

Module LocalGettersExample.
Lemma local_getters_strip_namespace_example :
  (∅ : gmap string (list (string * string))) !! "a/" = None
  /\ fst (LocalGetters.makeLocalGetters ∅ ["a/count"; "total"; "a/b/size"; "ab/x"] "a/")
     = [("count", "a/count"); ("b/size", "a/b/size")]
  /\ (("count", "a/count")
      ∈ fst (LocalGetters.makeLocalGetters ∅ ["a/count"; "total"; "a/b/size"; "ab/x"] "a/")).
Proof.
  assert (H1 : (∅ : gmap string (list (string * string))) !! "a/" = None) by reflexivity.
  split; [exact H1|]. split; [reflexivity|].
  destruct (LocalGettersFacts.local_getters_strip_namespace
              ["a/count"; "total"; "a/b/size"; "ab/x"] "a/" ∅ H1) as [H2 _].
  apply H2. split; [|reflexivity]. apply elem_of_cons. by left.
Defined.
End LocalGettersExample.

(** ** The registries under an installation *)

Lemma bind_inv {A B} (c : M A) (k : A -> M B) (s s' : Store) (b : B) :
  bind c k s = Ok b s' -> exists a s1, c s = Ok a s1 /\ k a s1 = Ok b s'.
Proof. unfold bind. destruct (c s) as [a s1| |]; [eauto|discriminate|discriminate]. Qed.

Lemma grows_refl (s : Store) : grows s s.
Proof.
  split; try done.
  - intros type entry H. exists []. by rewrite app_nil_r.
  - intros type entry H. exists []. by rewrite app_nil_r.
Qed.

Lemma grows_trans (s1 s2 s3 : Store) : grows s1 s2 -> grows s2 s3 -> grows s1 s3.
Proof.
  intros [m1 a1 g1 Hy1 Hz1] [m2 a2 g2 Hy2 Hz2]. split; try congruence.
  - intros type entry Hent. destruct (m1 _ _ Hent) as [more1 Hent1].
    destruct (m2 _ _ Hent1) as [more2 Hent2].
    exists (more1 ++ more2). by rewrite app_assoc.
  - intros type entry Hent. destruct (a1 _ _ Hent) as [more1 Hent1].
    destruct (a2 _ _ Hent1) as [more2 Hent2].
    exists (more1 ++ more2). by rewrite app_assoc.
  - intros type g Hent. by apply g2, g1.
Qed.

(** The fields that [grows] speaks of. *)
Lemma grows_same (s s' : Store) :
  _mutations s' = _mutations s -> _actions s' = _actions s ->
  _wrappedGetters s' = _wrappedGetters s ->
  _subscribers s' = _subscribers s -> _actionSubscribers s' = _actionSubscribers s ->
  grows s s'.
Proof.
  intros Hm Ha Hg Hy Hz. split; try done.
  - intros type entry Hent. exists []. by rewrite app_nil_r, Hm.
  - intros type entry Hent. exists []. by rewrite app_nil_r, Ha.
  - intros type g Hent. by rewrite Hg.
Qed.

Lemma grows_bind {A B} (c : M A) (k : A -> M B) :
  grows_holds c -> (forall a, grows_holds (k a)) -> grows_holds (bind c k).
Proof.
  apply (sat_bind always grows any_exn); try done.
  intros s s1 s2 _. apply grows_trans.
Qed.

Lemma grows_any {A} (c : M A) :
  (forall s a s', c s = Ok a s' -> grows s s') -> grows_holds c.
Proof. intros H s _. destruct (c s) eqn:Hc; [by eapply H|done|done]. Qed.

Lemma grows_forEach {A} (xs : list A) (f : A -> M unit) :
  (forall x, grows_holds (f x)) -> grows_holds (forEach xs f).
Proof.
  apply (sat_forEach always grows any_exn); try done.
  - intros s _. apply grows_refl.
  - intros s s1 s2 _. apply grows_trans.
Qed.

Lemma grows_when (b : bool) (c : M unit) : grows_holds c -> grows_holds (when b c).
Proof. destruct b; [done|]. intros _. apply grows_any. intros s a s' [= _ <-]. apply grows_refl. Qed.

Lemma grows_log (e : LogEntry) : grows_holds (log e).
Proof. apply grows_any. intros s a s' [= _ <-]. by apply grows_same. Qed.

Lemma grows_lift {A} (r : res A) : grows_holds (lift r).
Proof. apply grows_any. intros s a s'. destruct r; intros [= _ <-]. apply grows_refl. Qed.

Lemma grows_gets {A} (f : Store -> A) : grows_holds (gets f).
Proof. apply grows_any. intros s a s' [= _ <-]. apply grows_refl. Qed.

Lemma grows_ret {A} (a : A) : grows_holds (ret a).
Proof. apply grows_any. intros s a0 s' [= _ <-]. apply grows_refl. Qed.

Lemma grows_strict_watcher (DEV : bool) : grows_holds (strict_watcher DEV).
Proof.
  apply grows_any. intros s a s'. unfold strict_watcher. rewrite bind_gets.
  destruct (strict s && _), DEV, (_committing s); cbn; try discriminate;
    intros [= _ <-]; apply grows_refl.
Qed.

Lemma grows_withCommit {A} (fn : M A) : grows_holds fn -> grows_holds (_withCommit fn).
Proof.
  intros Hfn s _. unfold _withCommit. rewrite bind_gets, bind_modify.
  specialize (Hfn (set_committing true s) I). unfold bind.
  destruct (fn _) as [a s'|e s'|]; [|done|done]. cbn.
  eapply grows_trans; [|eapply grows_trans; [exact Hfn|]]; by apply grows_same.
Qed.

Lemma grows_attach_state (DEV : bool) (rootState : val) (path : list string) (module : Module) :
  grows_holds (attach_state DEV rootState path module).
Proof.
  unfold attach_state. apply grows_bind; [apply grows_lift|]. intros parentState.
  apply grows_withCommit. apply grows_bind.
  { apply grows_when. apply grows_bind; [apply grows_lift|]. intros present.
    apply grows_when, grows_log. }
  intros _. apply grows_bind; [apply grows_lift|]. intros rootState'.
  apply grows_bind; [|intros _; apply grows_ret].
  unfold write_through. apply grows_bind; [|intros _; apply grows_strict_watcher].
  apply grows_any. intros s a s' [= _ <-]. destruct (_state s); [by apply grows_same|apply grows_refl].
Qed.

Lemma grows_registerMutation (type : string) (handler : Mutation) (local : Local) :
  grows_holds (registerMutation type handler local).
Proof.
  apply grows_any. intros s a s' [= _ <-]. split; try done.
  - intros t entry H. cbn. destruct (decide (t = type)) as [->|Hne].
    + rewrite lookup_insert_eq, H. cbn. eauto.
    + rewrite lookup_insert_ne by done. exists []. by rewrite app_nil_r.
  - intros t entry H. exists []. by rewrite app_nil_r.
Qed.

Lemma grows_registerAction (type : string) (handler : Action) (local : Local) :
  grows_holds (registerAction type handler local).
Proof.
  apply grows_any. intros s a s' [= _ <-]. split; try done.
  - intros t entry H. exists []. by rewrite app_nil_r.
  - intros t entry H. cbn. destruct (decide (t = type)) as [->|Hne].
    + rewrite lookup_insert_eq, H. cbn. eauto.
    + rewrite lookup_insert_ne by done. exists []. by rewrite app_nil_r.
Qed.

Lemma grows_registerGetter (DEV : bool) (type : string) (getter : Getter) (local : Local) :
  grows_holds (registerGetter DEV type getter local).
Proof.
  apply grows_any. intros s a s'. unfold registerGetter. rewrite bind_gets.
  unfold registered. destruct (_wrappedGetters s !! type) as [g|] eqn:Hg.
  - rewrite bool_decide_eq_true_2 by eauto.
    destruct DEV; cbn; intros [= _ <-]; [by apply grows_same|apply grows_refl].
  - rewrite bool_decide_eq_false_2 by (by intros [? ?]).
    intros [= _ <-]. split; try done.
    + intros t entry H. exists []. by rewrite app_nil_r.
    + intros t entry H. exists []. by rewrite app_nil_r.
    + intros t g H. cbn. rewrite lookup_insert_ne; [done|]. intros ->. congruence.
Qed.

(** [installModule] only adds to the registries. *)
Lemma grows_installModule (DEV : bool) (hot : bool) (module : Module) :
  forall (path : list string) (rootState : val),
    grows_holds (installModule DEV rootState path module hot).
Proof.
  induction module as [rt raw st cs IH] using Module_rect'.
  intros path rootState. rewrite installModule_unfold.
  apply grows_bind; [apply grows_gets|]. intros root.
  apply grows_bind; [apply grows_lift|]. intros namespace.
  apply grows_bind.
  { apply grows_when. apply grows_bind; [apply grows_gets|]. intros map.
    apply grows_bind; [apply grows_when, grows_log|]. intros _.
    apply grows_any. intros s a s' [= _ <-]. by apply grows_same. }
  intros _. apply grows_bind.
  { destruct (_ && _); [apply grows_attach_state|apply grows_ret]. }
  intros rs. apply grows_bind.
  { apply grows_forEach. intros [key m]. apply grows_registerMutation. }
  intros _. apply grows_bind.
  { apply grows_forEach. intros [key a]. apply grows_registerAction. }
  intros _. apply grows_bind.
  { apply grows_forEach. intros [key g]. apply grows_registerGetter. }
  intros _. cbn [_children]. revert rs.
  induction cs as [|[key child] cs IHcs]; intros rs; cbn [install_children].
  - apply grows_ret.
  - apply Forall_cons in IH as [IHc IH].
    apply grows_bind; [apply IHc|]. intros rs'. by apply IHcs.
Qed.

Lemma grows_Ok {A} (c : M A) (s s' : Store) (a : A) :
  grows_holds c -> c s = Ok a s' -> grows s s'.
Proof. intros Hc Hrun. specialize (Hc s I). by rewrite Hrun in Hc. Qed.

Lemma grows_install_children (DEV hot : bool) (path : list string)
    (cs : list (string * Module)) :
  forall rootState : val,
    grows_holds (install_children (fun rs p m => installModule DEV rs p m hot) path cs rootState).
Proof.
  induction cs as [|[key child] cs IH]; intros rootState; cbn [install_children].
  - apply grows_ret.
  - apply grows_bind; [apply grows_installModule|]. intros rs. apply IH.
Qed.

Lemma grows_get_state : grows_holds get_state.
Proof.
  apply grows_any. intros s a s'. unfold get_state.
  destruct (_state s); [|discriminate]. intros [= _ <-]. apply grows_refl.
Qed.

Lemma grows_resetStoreState (st : val) (hot reserve : bool) :
  grows_holds (resetStoreState st hot reserve).
Proof.
  unfold resetStoreState. apply grows_bind; [apply grows_gets|]. intros oldState.
  apply grows_bind.
  { apply grows_any. intros s a s' [= _ <-]. by apply grows_same. }
  intros _. apply grows_when, grows_when, grows_withCommit, grows_ret.
Qed.

Lemma grows_registerModule (DEV : bool) (path : list string) (rawModule : RawModule)
    (preserveState : bool) :
  grows_holds (registerModule DEV path rawModule preserveState).
Proof.
  unfold registerModule. apply grows_bind.
  { apply grows_when. unfold assert. destruct (bool_decide _); [apply grows_ret|].
    by apply grows_any. }
  intros _. apply grows_bind; [apply grows_gets|]. intros root.
  apply grows_bind; [apply grows_lift|]. intros root'.
  apply grows_bind.
  { apply grows_any. intros s a s' [= _ <-]. by apply grows_same. }
  intros _. apply grows_bind; [apply grows_get_state|]. intros st.
  apply grows_bind; [apply grows_gets|]. intros root1.
  apply grows_bind; [apply grows_lift|]. intros [module|]; [|by apply grows_any].
  apply grows_bind; [apply grows_installModule|]. intros _.
  apply grows_bind; [apply grows_get_state|]. intros st'.
  apply grows_resetStoreState.
Qed.

Lemma forEach_registerMutation (namespace : string) (local : Local)
    (ms : list (string * Mutation)) :
  forall s s' : Store,
    forEach ms (fun '(key, mutation) => registerMutation (namespace +:+ key) mutation local) s
    = Ok tt s' ->
    forall key m, (key, m) ∈ ms ->
      exists entry, _mutations s' !! (namespace +:+ key) = Some entry /\ (local, m) ∈ entry.
Proof.
  induction ms as [|[k0 m0] ms IH]; intros s s' Hrun key m Hin; [by apply elem_of_nil in Hin|].
  cbn [forEach] in Hrun. apply bind_inv in Hrun as ([] & s1 & Hreg & Hrest).
  apply elem_of_cons in Hin as [[= -> ->]|Hin]; [|by apply (IH s1 s')].
  assert (Hs1 : _mutations s1 !! (namespace +:+ k0)
                = Some (default [] (_mutations s !! (namespace +:+ k0)) ++ [(local, m0)])).
  { injection Hreg as <-. cbn. by rewrite lookup_insert_eq. }
  assert (Hg : grows s1 s').
  { eapply grows_Ok; [|exact Hrest]. apply grows_forEach. intros [k x].
    apply grows_registerMutation. }
  destruct (grows_mutations _ _ Hg _ _ Hs1) as [more Hs'].
  eexists. split; [exact Hs'|]. apply elem_of_app. left. apply elem_of_app. right.
  by apply list_elem_of_singleton.
Qed.

Lemma forEach_registerAction (namespace : string) (local : Local)
    (acts : list (string * ActionDef)) :
  forall s s' : Store,
    forEach acts (fun '(key, action) =>
      let type := if act_root action then key else namespace +:+ key in
      registerAction type (act_handler action) local) s = Ok tt s' ->
    forall key a, (key, a) ∈ acts ->
      exists entry,
        _actions s' !! (if act_root a then key else namespace +:+ key) = Some entry
        /\ (local, act_handler a) ∈ entry.
Proof.
  induction acts as [|[k0 a0] acts IH]; intros s s' Hrun key a Hin;
    [by apply elem_of_nil in Hin|].
  cbn [forEach] in Hrun. apply bind_inv in Hrun as ([] & s1 & Hreg & Hrest).
  apply elem_of_cons in Hin as [[= -> ->]|Hin]; [|by apply (IH s1 s')].
  set (type := if act_root a0 then k0 else namespace +:+ k0) in *.
  assert (Hs1 : _actions s1 !! type
                = Some (default [] (_actions s !! type) ++ [(local, act_handler a0)])).
  { injection Hreg as <-. cbn. by rewrite lookup_insert_eq. }
  assert (Hg : grows s1 s').
  { eapply grows_Ok; [|exact Hrest]. apply grows_forEach. intros [k x].
    apply grows_registerAction. }
  destruct (grows_actions _ _ Hg _ _ Hs1) as [more Hs'].
  eexists. split; [exact Hs'|]. apply elem_of_app. left. apply elem_of_app. right.
  by apply list_elem_of_singleton.
Qed.

Lemma forEach_registerGetter (DEV : bool) (namespace : string) (local : Local)
    (gs : list (string * Getter)) :
  forall s s' : Store,
    forEach gs (fun '(key, getter) => registerGetter DEV (namespace +:+ key) getter local) s
    = Ok tt s' ->
    forall key g, (key, g) ∈ gs -> is_Some (_wrappedGetters s' !! (namespace +:+ key)).
Proof.
  induction gs as [|[k0 g0] gs IH]; intros s s' Hrun key g Hin; [by apply elem_of_nil in Hin|].
  cbn [forEach] in Hrun. apply bind_inv in Hrun as ([] & s1 & Hreg & Hrest).
  apply elem_of_cons in Hin as [[= -> ->]|Hin]; [|by apply (IH s1 s' Hrest key g)].
  assert (Hs1 : is_Some (_wrappedGetters s1 !! (namespace +:+ k0))).
  { unfold registerGetter in Hreg. rewrite bind_gets in Hreg. unfold registered in Hreg.
    destruct (_wrappedGetters s !! (namespace +:+ k0)) as [g1|] eqn:Hg1.
    - rewrite bool_decide_eq_true_2 in Hreg by eauto.
      destruct DEV; cbn in Hreg; injection Hreg as <-; cbn; rewrite Hg1; eauto.
    - rewrite bool_decide_eq_false_2 in Hreg by (by intros [? ?]).
      injection Hreg as <-. cbn. rewrite lookup_insert_eq. eauto. }
  assert (Hg : grows s1 s').
  { eapply grows_Ok; [|exact Hrest]. apply grows_forEach. intros [k x].
    apply grows_registerGetter. }
  destruct Hs1 as [g1 Hg1]. rewrite (grows_getters _ _ Hg _ _ Hg1). eauto.
Qed.

(** What [installModule] registers for the module itself. *)
Lemma installModule_registers (DEV : bool) (rootState : val)
    (path : list string) (module : Module) (hot : bool) (s : Store) (v : val) (s' : Store)
    (namespace : string) :
  installModule DEV rootState path module hot s = Ok v s' ->
  ModuleCollection.getNamespace (_modules s) path = Val namespace ->
  (forall key m, (key, m) ∈ Mod.mutations module ->
     exists entry,
       _mutations s' !! (namespace +:+ key) = Some entry
       /\ (makeLocalContext namespace path, m) ∈ entry)
  /\ (forall key a, (key, a) ∈ Mod.actions module ->
        exists entry,
          _actions s' !! (if act_root a then key else namespace +:+ key) = Some entry
          /\ (makeLocalContext namespace path, act_handler a) ∈ entry)
  /\ (forall key g, (key, g) ∈ Mod.getters module ->
        is_Some (_wrappedGetters s' !! (namespace +:+ key))).
Proof.
  intros Hrun Hns. rewrite installModule_unfold in Hrun.
  rewrite bind_gets, (bind_lift _ _ _ _ Hns) in Hrun.
  apply bind_inv in Hrun as ([] & s_a & _ & Hrun).
  apply bind_inv in Hrun as (rs & s_b & _ & Hrun). cbv zeta in Hrun.
  apply bind_inv in Hrun as ([] & s_c & Hmut & Hrun).
  apply bind_inv in Hrun as ([] & s_d & Hact & Hrun).
  apply bind_inv in Hrun as ([] & s_e & Hget & Hrun).
  assert (Hg_e : grows s_e s').
  { eapply grows_Ok; [|exact Hrun]. apply grows_install_children. }
  assert (Hg_d : grows s_d s_e).
  { eapply grows_Ok; [|exact Hget]. apply grows_forEach. intros [k x].
    apply grows_registerGetter. }
  assert (Hg_c : grows s_c s_d).
  { eapply grows_Ok; [|exact Hact]. apply grows_forEach. intros [k x].
    apply grows_registerAction. }
  split; [|split].
  - intros key m Hin.
    destruct (forEach_registerMutation _ _ _ _ _ Hmut key m Hin) as (entry & Hentry & Hm).
    destruct (grows_mutations _ _ (grows_trans _ _ _ Hg_c (grows_trans _ _ _ Hg_d Hg_e))
                _ _ Hentry) as [more Hs'].
    eexists. split; [exact Hs'|]. apply elem_of_app. by left.
  - intros key a Hin.
    destruct (forEach_registerAction _ _ _ _ _ Hact key a Hin) as (entry & Hentry & Ha).
    destruct (grows_actions _ _ (grows_trans _ _ _ Hg_d Hg_e) _ _ Hentry) as [more Hs'].
    eexists. split; [exact Hs'|]. apply elem_of_app. by left.
  - intros key g Hin.
    destruct (forEach_registerGetter _ _ _ _ _ _ Hget key g Hin) as [g1 Hg1].
    rewrite (grows_getters _ _ Hg_e _ _ Hg1). eauto.
Qed.

(** ** The local context of a module (C5) *)

Module LocalContext.
(** C5: the handlers that [installModule] registers for a module carry the
    local context that [makeLocalContext] makes of the namespace of its
    path and of the path, at which the state of the context is read.  When
    that namespace is empty, the [dispatch] and [commit] of the context are
    the store's own.  Otherwise the arguments of either calling
    convention are normalized to [type, payload, options]; unless
    [options.root] is set the type becomes [namespace + type]; in a debug
    build a rewritten type that is not registered is reported and the store
    is not called; otherwise the call is passed to the store's [dispatch]
    (type and payload) or [commit] (type, payload and options). *)
Theorem local_context_rewrites_type (DEV : bool)
    (boundCommit : val -> val -> val -> M val) (boundDispatch : val -> val -> M val)
    (rootState : val) (path : list string) (module : Module) (hot : bool)
    (s0 s_inst : Store) (v : val) (namespace : string)
    (_type _payload _options : val) (name : string) (payload options : val) (s : Store) :
  installModule DEV rootState path module hot s0 = Ok v s_inst ->
  ModuleCollection.getNamespace (_modules s0) path = Val namespace ->
  objectStyle _type _payload _options = (VStr name, payload, options) ->
  let local := makeLocalContext namespace path in
  ((forall key m, (key, m) ∈ Mod.mutations module ->
      exists entry,
        _mutations s_inst !! (namespace +:+ key) = Some entry /\ (local, m) ∈ entry)
   /\ (forall key a, (key, a) ∈ Mod.actions module ->
         exists entry,
           _actions s_inst !! (if act_root a then key else namespace +:+ key) = Some entry
           /\ (local, act_handler a) ∈ entry))
  /\ local_state local = (st <- get_state ;; lift (getNestedState st path))
  /\ (namespace = "" ->
      local_dispatch DEV boundDispatch local _type _payload _options
      = boundDispatch _type _payload
      /\ local_commit DEV boundCommit local _type _payload _options
         = boundCommit _type _payload _options)
  /\ (namespace <> "" ->
      let type := namespace +:+ name in
      local_dispatch DEV boundDispatch local _type _payload _options s
      = (if root_option options then boundDispatch (VStr name) payload s
         else if DEV && negb (registered (_actions s) type)
              then Ok VUndef
                     (set_console
                        (console s ++
                         [LError ("[vuex] unknown local action type: " +:+ name +:+
                                  ", global type: " +:+ type)]) s)
              else boundDispatch (VStr type) payload s)
      /\ local_commit DEV boundCommit local _type _payload _options s
         = (if root_option options
            then (boundCommit (VStr name) payload options ;; ret VUndef) s
            else if DEV && negb (registered (_mutations s) type)
                 then Ok VUndef
                        (set_console
                           (console s ++
                            [LError ("[vuex] unknown local mutation type: " +:+ name +:+
                                     ", global type: " +:+ type)]) s)
                 else (boundCommit (VStr type) payload options ;; ret VUndef) s)).
Proof.
  intros Hrun Hpath Hargs local. split; [|split; [reflexivity|split]].
  - destruct (installModule_registers DEV rootState path module hot s0 v s_inst namespace
                Hrun Hpath) as (Hm & Ha & _).
    by split.
  - intros Hns. unfold local_dispatch, local_commit. subst local. cbn [makeLocalContext l_namespace].
    by rewrite Hns.
  - intros Hns. cbv zeta. unfold local_dispatch, local_commit, root_option. subst local.
    cbn [makeLocalContext l_namespace].
    destruct (String.eqb_spec namespace "") as [|_]; [contradiction|].
    rewrite !(bind_Ok _ _ _ _ _ (unifyObjectStyle_string DEV _ _ _ _ _ _ s Hargs)).
    cbn [to_string].
    destruct (truthy options); cbn [negb orb andb];
      [destruct (truthy (member options "root")); cbn [negb]|];
      try (split; reflexivity);
      rewrite !(bind_lift _ _ _ _ eq_refl), !bind_gets;
      (split; [destruct (DEV && negb (registered (_actions s) _))
              |destruct (DEV && negb (registered (_mutations s) _))]; reflexivity).
Qed.

End LocalContext.

Module LocalContextExample.
Import Example ExampleFacts.

(** The module [counter] of the example store, installed again (as a hot
    update does): its mutation is registered with the context of
    ["counter/"], through which [commit ({ type: 'increment' })] is the
    store's [commit ('counter/increment', ...)], and [dispatch] of the same
    is reported, [counter/increment] being no action. *)
Lemma local_context_example :
  exists s_inst,
    installModule true state0 ["counter"] (Mod.new counter false) true (store true)
    = Ok state0 s_inst
    /\ ModuleCollection.getNamespace (_modules (store true)) ["counter"] = Val "counter/"
    /\ objectStyle (VObj [("type", VStr "increment")]) VUndef VUndef
       = (VStr "increment", VObj [("type", VStr "increment")], VUndef)
    /\ (exists entry,
          _mutations s_inst !! "counter/increment" = Some entry
          /\ (makeLocalContext "counter/" ["counter"], increment) ∈ entry)
    /\ local_commit true (commit true 1) (makeLocalContext "counter/" ["counter"])
         (VObj [("type", VStr "increment")]) VUndef VUndef (store true)
       = (commit true 1 (VStr "counter/increment") (VObj [("type", VStr "increment")]) VUndef ;;
          ret VUndef) (store true)
    /\ local_dispatch true (dispatch true 1) (makeLocalContext "counter/" ["counter"])
         (VObj [("type", VStr "increment")]) VUndef VUndef (store true)
       = Ok VUndef
           (set_console
              (console (store true) ++
               [LError ("[vuex] unknown local action type: increment" +:+
                        ", global type: counter/increment")]) (store true)).
Proof.
  eexists.
  assert (H2 : ModuleCollection.getNamespace (_modules (store true)) ["counter"]
               = Val "counter/") by (vm_compute; reflexivity).
  split; [vm_compute; reflexivity|]. split; [exact H2|]. split; [reflexivity|].
  match goal with
  | |- (exists entry, _mutations ?s' !! _ = _ /\ _) /\ _ =>
      assert (H1 : installModule true state0 ["counter"] (Mod.new counter false) true
                     (store true) = Ok state0 s') by (vm_compute; reflexivity)
  end.
  destruct (LocalContext.local_context_rewrites_type true (commit true 1) (dispatch true 1)
              state0 ["counter"] (Mod.new counter false) true (store true) _ state0 "counter/"
              (VObj [("type", VStr "increment")]) VUndef VUndef
              "increment" (VObj [("type", VStr "increment")]) VUndef (store true) H1 H2 eq_refl)
    as ([Hm _] & _ & _ & Hnamespaced).
  destruct (Hnamespaced ltac:(discriminate)) as [Hd Hc].
  split; [|split].
  - apply (Hm "increment" increment). apply elem_of_cons. by left.
  - rewrite Hc. reflexivity.
  - rewrite Hd. reflexivity.
Defined.

End LocalContextExample.

Module Registries.
(** X18: an installation only adds to the registries: after
    [installModule], and after [registerModule], every handler that was
    registered is registered still, in the same order and before the
    handlers that were added under its type, every getter that was
    registered is the getter of its type still, and the subscribers are
    the same.  So a module registered a second time at a path adds its
    handlers to the ones of the first registration. *)
Theorem installation_only_adds (DEV : bool) :
  (forall rootState path module hot s v s',
     installModule DEV rootState path module hot s = Ok v s' -> grows s s')
  /\ (forall path rawModule preserveState s s',
        registerModule DEV path rawModule preserveState s = Ok tt s' -> grows s s').
Proof.
  split.
  - intros rootState path module hot s v s' Hrun.
    eapply grows_Ok; [|exact Hrun]. apply grows_installModule.
  - intros path rawModule preserveState s s' Hrun.
    eapply grows_Ok; [|exact Hrun]. apply grows_registerModule.
Qed.

(** X19: after [installModule] the handlers of the module are in the
    registries under the namespace of its path: each mutation under
    [namespace + key], each action under [namespace + key], or under its
    bare key when it is declared with [root: true], each with the local
    context of the module; and a getter is registered under
    [namespace + key] of each of its getters. *)
Theorem module_handlers_are_registered (DEV : bool) (rootState : val)
    (path : list string) (module : Module) (hot : bool) (s : Store) (v : val) (s' : Store)
    (namespace : string) :
  installModule DEV rootState path module hot s = Ok v s' ->
  ModuleCollection.getNamespace (_modules s) path = Val namespace ->
  (forall key m, (key, m) ∈ Mod.mutations module ->
     exists entry,
       _mutations s' !! (namespace +:+ key) = Some entry
       /\ (makeLocalContext namespace path, m) ∈ entry)
  /\ (forall key a, (key, a) ∈ Mod.actions module ->
        exists entry,
          _actions s' !! (if act_root a then key else namespace +:+ key) = Some entry
          /\ (makeLocalContext namespace path, act_handler a) ∈ entry)
  /\ (forall key g, (key, g) ∈ Mod.getters module ->
        is_Some (_wrappedGetters s' !! (namespace +:+ key))).
Proof.
  intros Hrun Hns.
  exact (installModule_registers DEV rootState path module hot s v s' namespace Hrun Hns).
Qed.
End Registries.

(** ** Writing the states of the modules into the state tree *)

Lemma composed_unfold (m : Module) :
  composed m = attach_children composed (_children m) (state m).
Proof. destruct m. reflexivity. Qed.

Lemma rbind_assoc {A B C} (c : res A) (f : A -> res B) (g : B -> res C) :
  rbind (rbind c f) g = rbind c (fun a => rbind (f a) g).
Proof. by destruct c. Qed.

Lemma rbind_Val {A} (c : res A) : rbind c Val = c.
Proof. by destruct c. Qed.

Lemma getNestedState_object_child (key : string) (rest : list string) (st : val)
    (props : list (string * val)) :
  getNestedState st (key :: rest) = Val (VObj props) ->
  exists ps child,
    st = VObj ps /\ alist_get key ps = Some child
    /\ getNestedState child rest = Val (VObj props).
Proof. apply getNestedState_cons_object. Qed.

(** A change of the property that was just set. *)
Lemma update_at_added (k : string) (v : val) (g : val -> res val) (sp : list string) :
  forall (st st1 : val) (props : list (string * val)),
    getNestedState st sp = Val (VObj props) ->
    update_at sp (set_prop k v) st = Val st1 ->
    update_at (sp ++ [k]) g st1
    = rbind (g v) (fun v' => update_at sp (set_prop k v') st).
Proof.
  induction sp as [|key rest IH]; intros st st1 props Hget Hupd.
  - cbn in Hget. injection Hget as ->. cbn in Hupd. injection Hupd as <-.
    cbn [app]. rewrite (update_at_cons_own _ _ _ _ _ (alist_get_set_eq k v props)).
    cbn [update_at]. destruct (g v) as [v'|e]; cbn [rbind set_prop]; [|done].
    by rewrite alist_set_set.
  - destruct (getNestedState_object_child key rest st props Hget)
      as (ps & child & -> & Hchild & Hrest).
    rewrite (update_at_cons_own _ _ _ _ _ Hchild) in Hupd.
    destruct (update_at rest (set_prop k v) child) as [child1|] eqn:Hc1;
      cbn [rbind] in Hupd; [|discriminate].
    injection Hupd as <-. cbn [app].
    rewrite (update_at_cons_own _ _ _ _ _ (alist_get_set_eq key child1 ps)).
    rewrite (IH child child1 props Hrest Hc1).
    rewrite rbind_assoc. destruct (g v) as [v'|e]; cbn [rbind]; [|done].
    rewrite (update_at_cons_own _ _ _ _ _ Hchild).
    destruct (update_at rest (set_prop k v') child) as [child2|]; cbn [rbind]; [|done].
    by rewrite alist_set_set.
Qed.

Lemma update_at_set_prop (k : string) (v : val) (sp : list string) :
  forall (st : val) (props : list (string * val)),
    getNestedState st sp = Val (VObj props) ->
    exists st1,
      update_at sp (set_prop k v) st = Val st1
      /\ getNestedState st1 sp = Val (VObj (alist_set k v props)).
Proof.
  intros st props Hget.
  exact (update_at_object (set_prop k v) props (alist_set k v props) sp eq_refl st Hget).
Qed.

Lemma graft_snoc (path : list string) (key : string) (v rs : val) :
  graft (path ++ [key]) v rs = update_at path (set_prop key v) rs.
Proof.
  unfold graft. destruct (path ++ [key]) as [|k0 p0] eqn:Hp; [by destruct path|].
  rewrite <- Hp. by rewrite slice_init_snoc, last_key_snoc.
Qed.

(** Where the value was grafted, it is read. *)
Lemma graft_get (path : list string) (cur rs0 rs : val) :
  (path <> [] -> exists props0, getNestedState rs0 (slice_init path) = Val (VObj props0)) ->
  graft path cur rs0 = Val rs ->
  getNestedState rs path = Val cur.
Proof.
  intros Hparent Hgraft. destruct path as [|k0 p0]; [cbn in *; congruence|].
  destruct (Hparent ltac:(done)) as [props0 Hp0].
  unfold graft in Hgraft.
  destruct (update_at_set_prop (last_key (k0 :: p0)) cur _ rs0 props0 Hp0) as (st1 & Hupd & Hget).
  rewrite Hupd in Hgraft. injection Hgraft as <-.
  rewrite (UnregisterStatic.path_split (k0 :: p0)) at 1 by done.
  rewrite getNestedState_app, Hget. cbn. by rewrite alist_get_set_eq.
Qed.

(** A change of the value that was just grafted. *)
Lemma graft_child (path : list string) (cur rs0 rs : val) (g : val -> res val) :
  (path <> [] -> exists props0, getNestedState rs0 (slice_init path) = Val (VObj props0)) ->
  graft path cur rs0 = Val rs ->
  update_at path g rs = rbind (g cur) (fun cur' => graft path cur' rs0).
Proof.
  intros Hparent Hgraft. destruct path as [|k0 p0].
  - cbn in *. injection Hgraft as <-. by rewrite rbind_Val.
  - destruct (Hparent ltac:(done)) as [props0 Hp0]. unfold graft in *.
    remember (slice_init (k0 :: p0)) as sp eqn:Hsp.
    remember (last_key (k0 :: p0)) as lk eqn:Hlk.
    assert (Hsplit : k0 :: p0 = sp ++ [lk]).
    { subst. by apply UnregisterStatic.path_split. }
    rewrite Hsplit. exact (update_at_added lk cur g sp rs0 rs props0 Hp0 Hgraft).
Qed.

Lemma writes_refl (rs : val) (s : Store) : tracks rs s -> writes rs s s.
Proof. intros H. by split. Qed.

Lemma writes_tracks (rs : val) (s s' : Store) : writes rs s s' -> tracks rs s'.
Proof.
  intros [_ _ _ _ _ H]. unfold tracks. rewrite H. by destruct (_state s).
Qed.

Lemma writes_trans (r1 r2 : val) (s s1 s2 : Store) :
  writes r1 s s1 -> writes r2 s1 s2 -> writes r2 s s2.
Proof.
  intros [? ? ? ? ? H1] [? ? ? ? ? H2]. split; try congruence.
  rewrite H2, H1. by destruct (_state s).
Qed.

Lemma frame_writes (rs : val) (s s' : Store) : frame s s' -> tracks rs s -> writes rs s s'.
Proof.
  intros [] Ht. split; try done. unfold tracks in Ht. congruence.
Qed.

Lemma writes_frame (rs : val) (s s1 s2 : Store) :
  writes rs s s1 -> frame s1 s2 -> writes rs s s2.
Proof.
  intros Hw Hf. eapply writes_trans; [exact Hw|].
  apply frame_writes; [done|]. by eapply writes_tracks.
Qed.

(** The block that sets the state of a module on the state of its parent:
    what it returns and what it leaves. *)
Lemma attach_state_writes (DEV : bool) (rootState : val) (path : list string)
    (module : Module) (s : Store) (props : list (string * val)) :
  getNestedState rootState (slice_init path) = Val (VObj props) ->
  exists rootState' s',
    attach_state DEV rootState path module s = Ok rootState' s'
    /\ update_at (slice_init path) (set_prop (last_key path) (state module)) rootState
       = Val rootState'
    /\ writes rootState' s s'.
Proof.
  intros Hparent.
  destruct (update_at_set_prop (last_key path) (state module) (slice_init path)
              rootState props Hparent) as (rootState' & Hupd & _).
  exists rootState'. unfold attach_state. rewrite (bind_lift _ _ _ _ Hparent).
  unfold _withCommit. rewrite bind_gets, bind_modify.
  unfold write_through, strict_watcher. rewrite Hupd.
  destruct DEV, (alist_has (last_key path) props) eqn:Hhas,
    (inherited (last_key path)) eqn:Hinh;
    destruct s as [c a asub m g mods nm subs [st|] str hook con pid t]; destruct str;
    cbn -[alist_has inherited]; rewrite ?Hhas, ?Hinh; cbn; eexists;
    (split; [reflexivity|]); by split.
Qed.

(** The steps of [installModule] before the state is written. *)
Lemma installModule_namespace_step (DEV : bool) (rootState : val) (path : list string)
    (module : Module) (hot : bool) (s : Store) (namespace : string) :
  ModuleCollection.getNamespace (_modules s) path = Val namespace ->
  exists s_a,
    frame s s_a
    /\ installModule DEV rootState path module hot s
       = (rootState <-
            (if negb (bool_decide (path = [])) && negb hot
             then attach_state DEV rootState path module
             else ret rootState) ;;
          forEach (Mod.mutations module) (fun '(key, mutation) =>
            registerMutation (namespace +:+ key) mutation (makeLocalContext namespace path)) ;;
          forEach (Mod.actions module) (fun '(key, action) =>
            let type := if act_root action then key else namespace +:+ key in
            registerAction type (act_handler action) (makeLocalContext namespace path)) ;;
          forEach (Mod.getters module) (fun '(key, getter) =>
            registerGetter DEV (namespace +:+ key) getter (makeLocalContext namespace path)) ;;
          install_children (fun rs p m => installModule DEV rs p m hot) path
            (_children module) rootState) s_a.
Proof.
  intros Hns. rewrite installModule_unfold, bind_gets, (bind_lift _ _ _ _ Hns).
  assert (Hstep : returns (_modules s)
            (when (Mod.namespaced module)
               (map <- gets _modulesNamespaceMap ;;
                when (registered map namespace && DEV)
                  (log (LError ("[vuex] duplicate namespace " +:+ namespace +:+
                                " for the namespaced module " +:+ String.concat "/" path))) ;;
                modify (set_modulesNamespaceMap (<[namespace := path]> map))))
            (fun _ => True)).
  { apply returns_when. eapply returns_bind; [apply returns_gets|]. intros map _.
    eapply returns_bind; [apply returns_when, returns_log|]. intros _ _.
    intros s0 _. eexists tt, _. split; [reflexivity|]. by split. }
  destruct (Hstep s eq_refl) as ([] & s_a & Hrun & Hf & _).
  exists s_a. split; [exact Hf|]. by rewrite (bind_Ok _ _ _ _ _ Hrun).
Qed.

(** The registrations of [installModule]. *)
Lemma installModule_registrations (DEV : bool) (namespace : string) (local : Local)
    (module : Module) {B} (k : M B) (s : Store) :
  exists s_e,
    frame s s_e
    /\ (forEach (Mod.mutations module) (fun '(key, mutation) =>
          registerMutation (namespace +:+ key) mutation local) ;;
        forEach (Mod.actions module) (fun '(key, action) =>
          let type := if act_root action then key else namespace +:+ key in
          registerAction type (act_handler action) local) ;;
        forEach (Mod.getters module) (fun '(key, getter) =>
          registerGetter DEV (namespace +:+ key) getter local) ;;
        k) s
       = k s_e.
Proof.
  assert (H1 : returns (_modules s)
            (forEach (Mod.mutations module) (fun '(key, mutation) =>
               registerMutation (namespace +:+ key) mutation local)) (fun _ => True)).
  { apply returns_forEach. intros [key mutation]. apply returns_registerMutation. }
  destruct (H1 s eq_refl) as ([] & s1 & Hrun1 & Hf1 & _).
  assert (H2 : returns (_modules s)
            (forEach (Mod.actions module) (fun '(key, action) =>
               let type := if act_root action then key else namespace +:+ key in
               registerAction type (act_handler action) local)) (fun _ => True)).
  { apply returns_forEach. intros [key action]. apply returns_registerAction. }
  destruct (H2 s1 (frame_modules _ _ Hf1)) as ([] & s2 & Hrun2 & Hf2 & _).
  assert (H3 : returns (_modules s)
            (forEach (Mod.getters module) (fun '(key, getter) =>
               registerGetter DEV (namespace +:+ key) getter local)) (fun _ => True)).
  { apply returns_forEach. intros [key getter]. apply returns_registerGetter. }
  destruct (H3 s2) as ([] & s3 & Hrun3 & Hf3 & _).
  { by rewrite (frame_modules _ _ Hf2), (frame_modules _ _ Hf1). }
  exists s3. split.
  - eapply frame_trans; [exact Hf1|]. eapply frame_trans; [exact Hf2|exact Hf3].
  - by rewrite (bind_Ok _ _ _ _ _ Hrun1), (bind_Ok _ _ _ _ _ Hrun2), (bind_Ok _ _ _ _ _ Hrun3).
Qed.

Lemma install_children_composes (DEV : bool) (root : Module) (path : list string)
    (rs0 : val) (cs : list (string * Module)) :
  Forall (fun kc => composes DEV root (snd kc)) cs ->
  Forall (fun kc => wf_module (snd kc) = true) cs ->
  (forall key child, (key, child) ∈ cs ->
     ModuleCollection.get root (path ++ [key]) = Val (Some child)) ->
  (path <> [] -> exists props0, getNestedState rs0 (slice_init path) = Val (VObj props0)) ->
  forall (cur rs : val) (s : Store) (c : val),
    graft path cur rs0 = Val rs ->
    _modules s = root ->
    tracks rs s ->
    attach_children composed cs cur = Val c ->
    exists rs' s',
      install_children (fun rs p m => installModule DEV rs p m false) path cs rs s = Ok rs' s'
      /\ graft path c rs0 = Val rs'
      /\ writes rs' s s'.
Proof.
  induction cs as [|[key child] cs IHcs]; intros IH Hwf Hsub Hparent cur rs s c Hgraft Hs Ht Hc.
  - cbn in Hc. injection Hc as <-. exists rs, s. cbn [install_children].
    split; [done|]. split; [done|by apply writes_refl].
  - apply Forall_cons in IH as [IHc IH]. apply Forall_cons in Hwf as [Hwfc Hwf].
    cbn [snd] in IHc, Hwfc. cbn [attach_children] in Hc.
    destruct (composed child) as [cc|] eqn:Hcc; cbn [rbind] in Hc; [|discriminate].
    destruct (set_prop key cc cur) as [cur'|] eqn:Hset; cbn [rbind] in Hc; [|discriminate].
    assert (Hcur : exists p, cur = VObj p).
    { destruct cur; cbn in Hset; try discriminate. eauto. }
    destruct Hcur as [p ->].
    pose proof (graft_get path (VObj p) rs0 rs Hparent Hgraft) as Hget.
    destruct (IHc (path ++ [key]) rs s cc p) as (rs1 & s1 & Hrun1 & Hg1 & Hw1); try done.
    { apply Hsub. apply elem_of_cons. by left. }
    { by destruct path. }
    { by rewrite slice_init_snoc. }
    rewrite graft_snoc, (graft_child path (VObj p) rs0 rs _ Hparent Hgraft), Hset in Hg1.
    cbn [rbind] in Hg1.
    destruct (IHcs IH Hwf) with (cur := cur') (rs := rs1) (s := s1) (c := c)
      as (rs2 & s2 & Hrun2 & Hg2 & Hw2); try done.
    { intros k ch Hin. apply Hsub. apply elem_of_cons. by right. }
    { by rewrite (writes_modules _ _ _ Hw1). }
    { by eapply writes_tracks. }
    exists rs2, s2. cbn [install_children]. rewrite (bind_Ok _ _ _ _ _ Hrun1).
    split; [done|]. split; [done|]. by eapply writes_trans.
Qed.

Lemma wf_children_get (root : Module) (path : list string) (rt : bool) (raw : RawModule)
    (st : val) (cs : list (string * Module)) :
  NoDup (map fst cs) ->
  ModuleCollection.get root path = Val (Some (mkModule rt raw st cs)) ->
  forall key child, (key, child) ∈ cs ->
    ModuleCollection.get root (path ++ [key]) = Val (Some child).
Proof.
  intros Hnd Hget key child Hin. rewrite (get_snoc _ _ _ _ Hget).
  unfold Mod.getChild. cbn. by rewrite (alist_get_NoDup cs key child Hnd Hin).
Qed.

(** [installModule], not the root and not a reinstallation: the composed
    state of the module is set on the state of its parent. *)
Lemma installModule_composes (DEV : bool) (root : Module) (module : Module) :
  composes DEV root module.
Proof.
  induction module as [rt raw st cs IH] using Module_rect'.
  intros path rs s c props Hwf Hget Hs Hne Hparent Hc Ht.
  destruct (get_namespace_defined root _ path Hget) as (namespace & Hns).
  rewrite <- Hs in Hns.
  destruct (installModule_namespace_step DEV rs path (mkModule rt raw st cs) false s
              namespace Hns) as (s_a & Hf_a & ->).
  rewrite bool_decide_eq_false_2 by done. cbn [negb andb].
  destruct (attach_state_writes DEV rs path (mkModule rt raw st cs) s_a props Hparent)
    as (rs_b & s_b & Hrun_b & Hupd_b & Hw_b).
  rewrite (bind_Ok _ _ _ _ _ Hrun_b). cbv beta.
  destruct (installModule_registrations DEV namespace (makeLocalContext namespace path)
              (mkModule rt raw st cs)
              (install_children (fun rs p m => installModule DEV rs p m false) path
                 (_children (mkModule rt raw st cs)) rs_b) s_b) as (s_e & Hf_e & Heq).
  lazymatch goal with
  | |- exists rs' s', ?lhs = Ok rs' s' /\ _ =>
      assert (Hlhs : lhs = install_children (fun rs p m => installModule DEV rs p m false) path
                             (_children (mkModule rt raw st cs)) rs_b s_e) by exact Heq;
      rewrite Hlhs; clear Hlhs Heq
  end.
  cbn [_children state] in *.
  apply wf_module_children in Hwf as [Hnd Hwf].
  rewrite composed_unfold in Hc. cbn [_children state] in Hc.
  assert (Hw_e : writes rs_b s s_e).
  { eapply writes_frame; [|exact Hf_e]. eapply writes_trans; [|exact Hw_b].
    apply frame_writes; [exact Hf_a|exact Ht]. }
  destruct (install_children_composes DEV root path rs cs IH Hwf) with
    (cur := st) (rs := rs_b) (s := s_e) (c := c) as (rs' & s' & Hrun & Hg & Hw); try done.
  - by apply (wf_children_get root path rt raw st cs).
  - intros _. eauto.
  - unfold graft. by destruct path.
  - by rewrite (writes_modules _ _ _ Hw_e).
  - by eapply writes_tracks.
  - exists rs', s'. split; [done|]. split; [done|]. by eapply writes_trans.
Qed.


(** ** The tree of a raw definition is well formed *)

Lemma alist_set_keys_NoDup {A} (k : string) (a : A) (l : list (string * A)) :
  NoDup (map fst l) -> NoDup (map fst (alist_set k a l)).
Proof.
  induction l as [|[k' a'] l IH]; intros Hnd; cbn.
  - apply NoDup_singleton.
  - cbn in Hnd. apply NoDup_cons in Hnd as [Hk' Hnd].
    destruct (String.eqb_spec k k') as [->|Hne]; cbn; [by apply NoDup_cons|].
    apply NoDup_cons. split; [|by apply IH].
    intros Hin. apply list_elem_of_fmap in Hin as [[k1 a1] [-> Hin]]. cbn in *.
    assert (Hget : is_Some (alist_get k1 (alist_set k a l))).
    { clear -Hin. induction (alist_set k a l) as [|[k2 a2] l2 IH2];
        [by apply elem_of_nil in Hin|].
      cbn. destruct (String.eqb_spec k1 k2); [eauto|].
      apply elem_of_cons in Hin as [[= -> ->]|Hin]; [done|by apply IH2]. }
    rewrite alist_get_set_ne in Hget by done. destruct Hget as [a2 Hget].
    apply Hk'. apply list_elem_of_fmap. exists (k1, a2). split; [done|].
    clear -Hget. induction l as [|[k2 a3] l IH2]; [discriminate|]. cbn in Hget.
    destruct (String.eqb_spec k1 k2) as [->|Hne].
    + injection Hget as ->. apply elem_of_cons. by left.
    + apply elem_of_cons. right. by apply IH2.
Qed.

Lemma alist_set_Forall {A} (P : A -> Prop) (k : string) (a : A) (l : list (string * A)) :
  P a -> Forall (fun ka => P (snd ka)) l -> Forall (fun ka => P (snd ka)) (alist_set k a l).
Proof.
  intros Ha. induction l as [|[k' a'] l IH]; intros Hl; cbn.
  - by constructor.
  - apply Forall_cons in Hl as [Ha' Hl].
    destruct (String.eqb_spec k k'); constructor; auto.
Qed.

Lemma wf_module_intro (rt : bool) (raw : RawModule) (st : val) (cs : list (string * Module)) :
  NoDup (map fst cs) -> Forall (fun kc => wf_module (snd kc) = true) cs ->
  wf_module (mkModule rt raw st cs) = true.
Proof.
  intros Hnd Hcs. cbn [wf_module]. apply andb_true_iff. split; [by apply bool_decide_eq_true|].
  clear Hnd. induction cs as [|kc cs IH]; [done|].
  apply Forall_cons in Hcs as [Hc Hcs]. apply andb_true_iff. split; [done|by apply IH].
Qed.

Lemma wf_build (rt : bool) (raw : RawModule) : wf_module (build rt raw) = true.
Proof.
  induction raw as [st ns ms acts gs cs IH] using RawModule_rect'.
  rewrite build_unfold. cbn [raw_modules].
  assert (H : forall acc,
            NoDup (map fst acc) -> Forall (fun kc => wf_module (snd kc) = true) acc ->
            NoDup (map fst (build_children (build rt) cs acc))
            /\ Forall (fun kc => wf_module (snd kc) = true) (build_children (build rt) cs acc)).
  { induction cs as [|[key rawChild] cs IHcs]; intros acc Hnd Hwf; [done|].
    apply Forall_cons in IH as [IHc IH]. cbn [build_children]. apply (IHcs IH).
    - by apply alist_set_keys_NoDup.
    - by apply (alist_set_Forall (fun m => wf_module m = true)). }
  destruct (H [] (NoDup_nil_2) (List.Forall_nil _)) as [Hnd Hwf].
  by apply wf_module_intro.
Qed.

(** ** The state of each module in the composed state *)







Lemma resetStoreState_cold (st : val) (reserve : bool) (s : Store) :
  resetStoreState st false reserve s = Ok tt (set_state (Some st) s).
Proof.
  unfold resetStoreState. rewrite bind_gets, bind_modify. by destruct (bool_decide _).
Qed.

(** ** The state of a module on the state of its parent (C8) *)

Lemma attach_state_spec (DEV : bool) (rootState : val) (path : list string)
    (module : Module) (s : Store) (props : list (string * val)) :
  getNestedState rootState (slice_init path) = Val (VObj props) ->
  exists rootState' s',
    attach_state DEV rootState path module s = Ok rootState' s'
    /\ console s'
       = console s ++
         (if DEV && (alist_has (last_key path) props || inherited (last_key path))
          then [overridden path] else []).
Proof.
  intros Hparent.
  destruct (update_at_object (set_prop (last_key path) (state module)) props
              (alist_set (last_key path) (state module) props) (slice_init path) eq_refl
              rootState Hparent) as (rootState' & Hupd & Hget').
  exists rootState'. unfold attach_state. rewrite (bind_lift _ _ _ _ Hparent).
  unfold _withCommit. rewrite bind_gets, bind_modify.
  unfold write_through, strict_watcher. rewrite Hupd.
  destruct DEV, (alist_has (last_key path) props) eqn:Hhas,
    (inherited (last_key path)) eqn:Hinh;
    destruct s as [c a asub m g mods nm subs [st|] str hook con pid t]; destruct str;
    cbn -[alist_has inherited]; rewrite ?Hhas, ?Hinh; cbn; eexists;
    (split; [reflexivity|]); cbn; rewrite ?app_nil_r; auto.
Qed.

Lemma logged_refl (DEV : bool) (s : Store) : logged DEV s s.
Proof. exists []. by rewrite app_nil_r. Qed.

Lemma logged_trans (DEV : bool) (s1 s2 s3 : Store) :
  logged DEV s1 s2 -> logged DEV s2 s3 -> logged DEV s1 s3.
Proof.
  intros (l1 & H1 & Hp1) (l2 & H2 & Hp2). exists (l1 ++ l2). split.
  - by rewrite H2, H1, app_assoc.
  - intros Hd. by rewrite (Hp1 Hd), (Hp2 Hd).
Qed.

Lemma logged_same (DEV : bool) (s s' : Store) : console s' = console s -> logged DEV s s'.
Proof. intros H. exists []. by rewrite app_nil_r. Qed.

Lemma logged_bind (DEV : bool) {A B} (c : M A) (k : A -> M B) :
  logged_holds DEV c -> (forall a, logged_holds DEV (k a)) -> logged_holds DEV (bind c k).
Proof.
  apply (sat_bind always (logged DEV) any_exn); try done.
  intros s s1 s2 _. apply logged_trans.
Qed.

Lemma logged_any (DEV : bool) {A} (c : M A) :
  (forall s a s', c s = Ok a s' -> logged DEV s s') -> logged_holds DEV c.
Proof. intros H s _. destruct (c s) eqn:Hc; [by eapply H|done|done]. Qed.

Lemma logged_quiet (DEV : bool) {A} (c : M A) :
  (forall s a s', c s = Ok a s' -> console s' = console s) -> logged_holds DEV c.
Proof. intros H. apply logged_any. intros s a s' Hc. apply logged_same. by eapply H. Qed.

Lemma logged_forEach (DEV : bool) {A} (xs : list A) (f : A -> M unit) :
  (forall x, logged_holds DEV (f x)) -> logged_holds DEV (forEach xs f).
Proof.
  apply (sat_forEach always (logged DEV) any_exn); try done.
  - intros s _. apply logged_refl.
  - intros s s1 s2 _. apply logged_trans.
Qed.

Lemma logged_ret (DEV : bool) {A} (a : A) : logged_holds DEV (ret a).
Proof. by apply logged_quiet; intros s a0 s' [= _ <-]. Qed.

Lemma logged_gets (DEV : bool) {A} (f : Store -> A) : logged_holds DEV (gets f).
Proof. by apply logged_quiet; intros s a s' [= _ <-]. Qed.

Lemma logged_lift (DEV : bool) {A} (r : res A) : logged_holds DEV (lift r).
Proof. apply logged_quiet. intros s a s'. by destruct r; intros [= _ <-]. Qed.

(** A report that is made in a debug build only. *)
Lemma logged_when_DEV (DEV : bool) (b : bool) (e : LogEntry) :
  logged_holds DEV (when (b && DEV) (log e)).
Proof.
  apply logged_any. intros s a s'. destruct b, DEV; cbn; intros [= _ <-];
    try apply logged_refl.
  exists [e]. by split.
Qed.

Lemma logged_Ok (DEV : bool) {A} (c : M A) (s s' : Store) (a : A) :
  logged_holds DEV c -> c s = Ok a s' -> logged DEV s s'.
Proof. intros Hc Hrun. specialize (Hc s I). by rewrite Hrun in Hc. Qed.

Lemma logged_namespace_step (DEV : bool) (module : Module) (namespace : string)
    (path : list string) :
  logged_holds DEV
    (when (Mod.namespaced module)
       (map <- gets _modulesNamespaceMap ;;
        when (registered map namespace && DEV)
          (log (LError ("[vuex] duplicate namespace " +:+ namespace +:+
                        " for the namespaced module " +:+ String.concat "/" path))) ;;
        modify (set_modulesNamespaceMap (<[namespace := path]> map)))).
Proof.
  destruct (Mod.namespaced module); [|apply logged_ret]. cbn [when].
  apply logged_bind; [apply logged_gets|]. intros map.
  apply logged_bind; [apply logged_when_DEV|]. intros _.
  by apply logged_quiet; intros s a s' [= _ <-].
Qed.

Lemma logged_attach_state (DEV : bool) (rootState : val) (path : list string)
    (module : Module) :
  logged_holds DEV (attach_state DEV rootState path module).
Proof.
  unfold attach_state. apply logged_bind; [apply logged_lift|]. intros parentState.
  apply logged_any. intros s a s'. unfold _withCommit. rewrite bind_gets, bind_modify.
  intros Hrun. apply bind_inv in Hrun as (rs & s1 & Hrun & Hend).
  injection Hend as _ <-. apply logged_trans with (s2 := s1); [|by apply logged_same].
  apply logged_trans with (s2 := set_committing true s); [by apply logged_same|].
  revert Hrun. apply logged_Ok.
  apply logged_bind.
  { destruct DEV; [|apply logged_ret]. cbn [when].
    apply logged_bind; [apply logged_lift|]. intros present.
    destruct present; [apply (logged_when_DEV true true)|apply logged_ret]. }
  intros _. apply logged_bind; [apply logged_lift|]. intros rootState'.
  apply logged_bind; [|intros _; apply logged_ret].
  unfold write_through. apply logged_bind.
  { apply logged_quiet. intros s0 a0 s0' [= _ <-]. by destruct (_state s0). }
  intros _. apply logged_quiet. intros s0 a0 s0'. unfold strict_watcher. rewrite bind_gets.
  destruct (strict s0 && _), DEV, (_committing s0); cbn; try discriminate; by intros [= _ <-].
Qed.

Lemma logged_registrations (DEV : bool) (namespace : string) (local : Local)
    (module : Module) {B} (k : M B) :
  logged_holds DEV k ->
  logged_holds DEV
    (forEach (Mod.mutations module) (fun '(key, mutation) =>
       registerMutation (namespace +:+ key) mutation local) ;;
     forEach (Mod.actions module) (fun '(key, action) =>
       let type := if act_root action then key else namespace +:+ key in
       registerAction type (act_handler action) local) ;;
     forEach (Mod.getters module) (fun '(key, getter) =>
       registerGetter DEV (namespace +:+ key) getter local) ;;
     k).
Proof.
  intros Hk. apply logged_bind.
  { apply logged_forEach. intros [key m]. by apply logged_quiet; intros s a s' [= _ <-]. }
  intros _. apply logged_bind.
  { apply logged_forEach. intros [key a]. by apply logged_quiet; intros s a0 s' [= _ <-]. }
  intros _. apply logged_bind; [|intros _; exact Hk].
  apply logged_forEach. intros [key g]. unfold registerGetter.
  apply logged_bind; [apply logged_gets|]. intros getters.
  destruct (registered getters _).
  - apply (logged_when_DEV DEV true).
  - by apply logged_quiet; intros s a s' [= _ <-].
Qed.

(** [installModule] writes at the end of the console, and nothing in a
    production build. *)
Lemma logged_installModule (DEV : bool) (hot : bool) (module : Module) :
  forall (path : list string) (rootState : val),
    logged_holds DEV (installModule DEV rootState path module hot).
Proof.
  induction module as [rt raw st cs IH] using Module_rect'.
  intros path rootState. rewrite installModule_unfold.
  apply logged_bind; [apply logged_gets|]. intros root.
  apply logged_bind; [apply logged_lift|]. intros namespace.
  apply logged_bind; [apply logged_namespace_step|]. intros _.
  apply logged_bind.
  { destruct (_ && _); [apply logged_attach_state|apply logged_ret]. }
  intros rs. cbv zeta. apply logged_registrations.
  cbn [_children]. revert rs.
  induction cs as [|[key child] cs IHcs]; intros rs; cbn [install_children].
  - apply logged_ret.
  - apply Forall_cons in IH as [IHc IH].
    apply logged_bind; [apply IHc|]. intros rs'. by apply IHcs.
Qed.

(** The console after an installation that writes the state: what was
    written before the state, the warning, what was written after it. *)
Lemma installModule_console (DEV : bool) (rootState : val) (path : list string)
    (module : Module) (s : Store) (props : list (string * val)) (rootState' : val)
    (s' : Store) :
  path <> [] ->
  getNestedState rootState (slice_init path) = Val (VObj props) ->
  installModule DEV rootState path module false s = Ok rootState' s' ->
  (exists before after,
     console s'
     = console s ++ before ++
       (if DEV && (alist_has (last_key path) props || inherited (last_key path))
        then [overridden path] else []) ++ after)
  /\ (DEV = false -> console s' = console s).
Proof.
  intros Hne Hparent Hrun. split.
  - rewrite installModule_unfold in Hrun.
    rewrite bind_gets in Hrun.
    apply bind_inv in Hrun as (namespace & s0 & Hns & Hrun).
    assert (s0 = s) as ->.
    { unfold lift in Hns. destruct (ModuleCollection.getNamespace _ _); [|discriminate].
      by injection Hns as _ <-. }
    apply bind_inv in Hrun as ([] & s_a & Hstep & Hrun).
    apply (logged_Ok DEV _ _ _ _ (logged_namespace_step DEV module namespace path)) in Hstep
      as (before & Hbefore & _).
    rewrite bool_decide_eq_false_2 in Hrun by done. cbn [negb andb] in Hrun.
    apply bind_inv in Hrun as (rs_b & s_b & Hattach & Hrun). cbv zeta in Hrun.
    destruct (attach_state_spec DEV rootState path module s_a props Hparent)
      as (rs_b' & s_b' & Hattach' & Hwarn).
    rewrite Hattach in Hattach'. injection Hattach' as <- <-.
    assert (Hafter : logged DEV s_b s').
    { revert Hrun. apply logged_Ok. apply logged_registrations.
      generalize rs_b as rs. generalize (_children module) as cs.
      induction cs as [|[key child] cs IHcs]; intros rs; cbn [install_children].
      - apply logged_ret.
      - apply logged_bind; [apply logged_installModule|]. intros rs'. apply IHcs. }
    destruct Hafter as (after & Hafter & _).
    exists before, after. by rewrite Hafter, Hwarn, Hbefore, <- !app_assoc.
  - intros Hd. apply (logged_Ok DEV _ _ _ _ (logged_installModule DEV false module path rootState))
      in Hrun as (added & Hadded & Hnone).
    by rewrite Hadded, (Hnone Hd), app_nil_r.
Qed.

Module Attach.
(** C8, as the code has it: when a module is installed (not the root, not
    a reinstallation), its state, with the states of the modules below it,
    is set on the state of its parent under its key, over a property of
    that name if there is one.  In a debug build ([__DEV__]) the warning is
    written on the console whenever the parent state has the name, as an
    own property or as one that it inherits; in a production build nothing
    is written.  A reinstallation ([hot]) writes nothing into the state.
    The key [__proto__] is left out: an assignment under it goes through
    the accessor of [Object.prototype] and makes no property. *)
Theorem install_overwrites_with_warning_in_debug (DEV : bool) (rootState : val)
    (path : list string) (module : Module) (s : Store) (props : list (string * val))
    (c : val) :
  path <> [] ->
  last_key path <> "__proto__" ->
  wf_module module = true ->
  ModuleCollection.get (_modules s) path = Val (Some module) ->
  getNestedState rootState (slice_init path) = Val (VObj props) ->
  composed module = Val c ->
  tracks rootState s ->
  (exists rootState' s',
     installModule DEV rootState path module false s = Ok rootState' s'
     /\ getNestedState rootState' (slice_init path)
        = Val (VObj (alist_set (last_key path) c props))
     /\ (exists before after,
           console s'
           = console s ++ before ++
             (if DEV && (alist_has (last_key path) props || inherited (last_key path))
              then [overridden path] else []) ++ after)
     /\ (DEV = false -> console s' = console s))
  /\ (exists s',
        installModule DEV rootState path module true s = Ok rootState s'
        /\ _state s' = _state s).
Proof.
  intros Hne _ Hwf Hget Hparent Hc Ht. split.
  - destruct (installModule_composes DEV (_modules s) module path rootState s c props)
      as (rs' & s' & Hrun & Hg & _); try done.
    exists rs', s'. split; [done|].
    destruct (installModule_console DEV rootState path module s props rs' s' Hne Hparent Hrun)
      as [Hcon Hsilent].
    split; [|by split].
    unfold graft in Hg. destruct path as [|k0 p0]; [done|].
    destruct (update_at_set_prop (last_key (k0 :: p0)) c _ rootState props Hparent)
      as (st1 & Hupd & Hget1).
    rewrite Hupd in Hg. by injection Hg as <-.
  - destruct (installModule_hot DEV (_modules s) module path rootState Hwf Hget s eq_refl)
      as (v & s' & Hinst & Hf & ->).
    exists s'. split; [done|apply Hf].
Qed.

End Attach.

Module AttachExample.
Import Example ExampleFacts.

(** The module [counter] is installed while the store of [clash_def] is
    constructed: the root state has the property [counter], which the
    state of the module replaces, with a warning. *)
Lemma install_overwrite_example :
  wf_module (Mod.new counter false) = true
  /\ ModuleCollection.get (_modules clash_store) ["counter"] = Val (Some (Mod.new counter false))
  /\ getNestedState (VObj [("counter", VNum 5)]) (slice_init ["counter"])
     = Val (VObj [("counter", VNum 5)])
  /\ composed (Mod.new counter false) = Val (VObj [("n", VNum 0)])
  /\ tracks (VObj [("counter", VNum 5)]) clash_store
  /\ (exists rootState' s',
        installModule true (VObj [("counter", VNum 5)]) ["counter"] (Mod.new counter false)
          false clash_store = Ok rootState' s'
        /\ rootState' = VObj [("counter", VObj [("n", VNum 0)])]
        /\ console s' = [overridden ["counter"]]).
Proof.
  assert (Hget : ModuleCollection.get (_modules clash_store) ["counter"]
                 = Val (Some (Mod.new counter false))) by reflexivity.
  assert (Ht : tracks (VObj [("counter", VNum 5)]) clash_store) by reflexivity.
  split; [reflexivity|]. split; [exact Hget|]. split; [reflexivity|].
  split; [reflexivity|]. split; [exact Ht|].
  destruct (Attach.install_overwrites_with_warning_in_debug true
              (VObj [("counter", VNum 5)]) ["counter"] (Mod.new counter false) clash_store
              [("counter", VNum 5)] (VObj [("n", VNum 0)])
              ltac:(discriminate) ltac:(discriminate) eq_refl Hget eq_refl eq_refl Ht)
    as [(rs & s' & Hrun & Hst & _ & _) _].
  exists rs, s'. split; [exact Hrun|].
  assert (Hrs : rs = VObj [("counter", VObj [("n", VNum 0)])]).
  { cbn in Hst. by injection Hst as ->. }
  split; [exact Hrs|].
  assert (Hcomp : exists s0,
            installModule true (VObj [("counter", VNum 5)]) ["counter"] (Mod.new counter false)
              false clash_store = Ok (VObj [("counter", VObj [("n", VNum 0)])]) s0
            /\ console s0 = [overridden ["counter"]]).
  { eexists. split; [vm_compute; reflexivity|reflexivity]. }
  destruct Hcomp as (s0 & Hrun0 & Hcon0). rewrite Hrun in Hrun0. by injection Hrun0 as _ ->.
Defined.

(** In a production build the state of the child module takes the place of
    [state.counter = 5] and nothing is written on the console. *)
Lemma install_overwrites_silently_in_production :
  raw_state clash_def = VObj [("counter", VNum 5)]
  /\ exists s',
       createStore false 1 clash_options = Ok tt s'
       /\ _state s' = Some (VObj [("counter", VObj [("n", VNum 0)])])
       /\ console s' = [].
Proof.
  split; [reflexivity|]. eexists. split; [vm_compute; reflexivity|]. by split.
Qed.

(** A module under a name that the parent state inherits is warned about
    in a debug build, though the state has no such property of its own. *)
Lemma inherited_name_is_warned_about :
  exists s',
    createStore true 1 (mkOptions inherit_def [] false) = Ok tt s'
    /\ _state s' = Some (VObj [("toString", VObj [("n", VNum 0)])])
    /\ console s' = [overridden ["toString"]].
Proof. eexists. split; [vm_compute; reflexivity|]. by split. Qed.

End AttachExample.

Module Composition.

End Composition.

(** ** Registering a module at run time *)

Lemma assert_path (DEV : bool) (path : list string) (msg : string) (s : Store) :
  path <> [] ->
  when DEV (assert (bool_decide (0 < length path)) msg) s = Ok tt s.
Proof.
  intros Hne. destruct DEV; [|done]. cbn [when]. unfold assert.
  rewrite bool_decide_eq_true_2; [done|]. destruct path; [done|cbn; lia].
Qed.

(** [registerModule] up to the installation. *)
Lemma registerModule_steps (DEV : bool) (path : list string) (rawModule : RawModule)
    (preserveState : bool) (s : Store) (parent : Module) (st : val) :
  path <> [] ->
  ModuleCollection.get (_modules s) (slice_init path) = Val (Some parent) ->
  _state s = Some st ->
  exists root',
    ModuleCollection.modify_at (slice_init path)
      (Mod.addChild (last_key path) (build true rawModule)) (_modules s) = Val root'
    /\ ModuleCollection.get root' path = Val (Some (build true rawModule))
    /\ ModuleCollection.isRegistered path root' = Val true
    /\ registerModule DEV path rawModule preserveState s
       = (installModule DEV st path (build true rawModule) preserveState ;;
          st' <- get_state ;;
          resetStoreState st' false true) (set_modules root' s).
Proof.
  intros Hne Hget Hst.
  destruct (register_at true rawModule path (_modules s) parent Hne Hget)
    as (root' & Hreg & Hmod & Hget').
  assert (Hfound : ModuleCollection.get root' path = Val (Some (build true rawModule))).
  { rewrite (UnregisterStatic.path_split path Hne) at 1.
    by rewrite (get_snoc _ _ _ _ Hget'), getChild_addChild_eq. }
  exists root'. split; [done|]. split; [done|]. split.
  - unfold ModuleCollection.isRegistered. rewrite Hget'. cbn [rbind].
    unfold Mod.hasChild, alist_has.
    pose proof (getChild_addChild_eq (last_key path) (build true rawModule) parent) as H.
    unfold Mod.getChild in H. by rewrite H.
  - unfold registerModule.
    rewrite (bind_Ok _ _ _ _ _ (assert_path DEV path _ s Hne)).
    rewrite bind_gets, (bind_lift _ _ _ _ Hreg), bind_modify. cbn [default from_option id].
    rewrite (bind_get_state _ _ st) by done.
    rewrite bind_gets. cbn [_modules set_modules].
    by rewrite (bind_lift _ _ _ _ Hfound).
Qed.



Module Registering.

(** X23: [registerModule] with [preserveState] returns with the module in
    the tree and with the state of the store untouched: the state of the
    definition is not written. *)
Theorem registerModule_preserves_state (DEV : bool) (path : list string)
    (rawModule : RawModule) (s : Store) (parent : Module) (st : val) :
  path <> [] ->
  ModuleCollection.get (_modules s) (slice_init path) = Val (Some parent) ->
  _state s = Some st ->
  exists s',
    registerModule DEV path rawModule true s = Ok tt s'
    /\ _state s' = Some st
    /\ hasModule path s' = Ok true s'
    /\ ModuleCollection.get (_modules s') path = Val (Some (build true rawModule))
    /\ _committing s' = _committing s.
Proof.
  intros Hne Hget Hst.
  destruct (registerModule_steps DEV path rawModule true s parent st Hne Hget Hst)
    as (root' & Hmod & Hfound & Hreg & ->).
  destruct (installModule_hot DEV root' (build true rawModule) path st (wf_build _ _) Hfound
              (set_modules root' s) eq_refl) as (v & s1 & Hrun & Hf & ->).
  assert (Hst1 : _state s1 = Some st) by (by rewrite (frame_state _ _ Hf)).
  exists (set_state (Some st) s1).
  rewrite (bind_Ok _ _ _ _ _ Hrun), (bind_get_state _ _ st Hst1).
  split; [apply resetStoreState_cold|]. split; [done|]. split.
  { unfold hasModule. rewrite bind_gets. cbn [_modules set_state].
    rewrite (frame_modules _ _ Hf). cbn [_modules set_modules]. by rewrite Hreg. }
  cbn [_modules _committing set_state]. split.
  - rewrite (frame_modules _ _ Hf). cbn [_modules set_modules]. done.
  - by rewrite (frame_committing _ _ Hf).
Qed.

End Registering.

(** ** The handlers after a hot update *)

Lemma update_children_rawModule (upd : list string -> Module -> RawModule -> Module * list LogEntry)
    (DEV : bool) (path : list string) (raws : list (string * RawModule)) (keys : list string) :
  forall (t : Module) (logs : list LogEntry),
    _rawModule (fst (update_children upd DEV path raws keys t logs)) = _rawModule t.
Proof.
  induction keys as [|key keys IH]; intros t logs; cbn [update_children]; [done|].
  destruct (Mod.getChild key t) as [child|]; [|done].
  destruct (update_child _ _ _ _ _ _) as [child' l]. by rewrite IH.
Qed.

Lemma update_definitions (DEV : bool) (path : list string) (target : Module)
    (newModule : RawModule) :
  let target' := fst (ModuleCollection.update DEV path target newModule) in
  Mod.mutations target' = raw_mutations newModule
  /\ Mod.actions target' = raw_actions newModule
  /\ Mod.getters target' = raw_getters newModule.
Proof.
  cbv zeta. unfold Mod.mutations, Mod.actions, Mod.getters.
  rewrite update_unfold, update_children_rawModule. by destruct target.
Qed.

Module HotHandlers.
(** X25: after [hotUpdate] the handlers of the new root definition are in
    the registries, under their keys and with the local context of the
    root: a commit or a dispatch of such a key reaches the new handler. *)
Theorem hotUpdate_registers_new_handlers (DEV : bool) (newOptions : RawModule)
    (s : Store) (st : val) :
  _state s = Some st ->
  wf_module (_modules s) = true ->
  exists s',
    hotUpdate DEV newOptions s = Ok tt s'
    /\ (forall key m, (key, m) ∈ raw_mutations newOptions ->
          exists entry, _mutations s' !! key = Some entry /\ (root_local, m) ∈ entry)
    /\ (forall key a, (key, a) ∈ raw_actions newOptions ->
          exists entry,
            _actions s' !! key = Some entry /\ (root_local, act_handler a) ∈ entry).
Proof.
  intros Hst Hwf. unfold hotUpdate. rewrite bind_gets. cbv zeta.
  pose proof (update_skeleton DEV newOptions [] (_modules s)) as Hsk.
  destruct (update_definitions DEV [] (_modules s) newOptions) as (Hmut & Hact & _).
  destruct (ModuleCollection.update DEV [] (_modules s) newOptions) as [root' logs].
  cbn [fst snd] in *. rewrite bind_modify.
  assert (Hwf' : wf_module root' = true).
  { by rewrite wf_module_skeleton, Hsk, <- wf_module_skeleton. }
  assert (Hlogs : exists s_l, forEach logs log (set_modules root' s) = Ok tt s_l
                              /\ frame (set_modules root' s) s_l).
  { generalize (set_modules root' s) as s0.
    induction logs as [|l logs IH]; intros s0; cbn [forEach].
    - exists s0. split; [done|apply frame_refl].
    - unfold log at 1. rewrite bind_modify. destruct (IH (set_console (console s0 ++ [l]) s0)) as (s_l & -> & Hf).
      exists s_l. split; [done|]. eapply frame_trans; [|exact Hf]. by split. }
  destruct Hlogs as (s_l & Hrun_l & Hf_l). rewrite (bind_Ok _ _ _ _ _ Hrun_l).
  assert (Hmods : _modules s_l = root') by (by rewrite (frame_modules _ _ Hf_l)).
  assert (Hst_l : _state s_l = Some st) by (by rewrite (frame_state _ _ Hf_l)).
  unfold resetStore. rewrite !bind_modify.
  set (s4 := set_modulesNamespaceMap ∅
               (set_wrappedGetters ∅ (set_mutations ∅ (set_actions ∅ s_l)))).
  rewrite (bind_get_state _ s4 st Hst_l), bind_gets.
  replace (_modules s4) with root' by done.
  destruct (installModule_hot DEV root' root' [] st Hwf' eq_refl s4 Hmods)
    as (v & s5 & Hinst & Hf5 & ->).
  rewrite (bind_Ok _ _ _ _ _ Hinst).
  destruct (installModule_registers DEV st [] root' true s4 st s5 "" Hinst eq_refl)
    as (Hm & Ha & _).
  rewrite Hmut in Hm. rewrite Hact in Ha.
  assert (Hst5 : _state s5 = Some st) by (by rewrite (frame_state _ _ Hf5)).
  unfold resetStoreState. rewrite bind_gets, bind_modify, Hst5.
  cbn. eexists. split; [reflexivity|]. cbn. split.
  - intros key m Hin. exact (Hm key m Hin).
  - intros key a Hin. destruct (Ha key a Hin) as (entry & Hentry & Hin').
    exists entry. split; [|exact Hin']. by destruct (act_root a).
Qed.
End HotHandlers.

(** ** The further properties, on the stores of the examples *)

Module RegistriesExample.
Import Example ExampleFacts RegisterSample.

Lemma installation_only_adds_example :
  registerModule true ["counter"] counter true (store true) = Ok tt registered_twice
  /\ grows (store true) registered_twice
  /\ _mutations (store true) !! "counter/increment" = Some [(counter_local, increment)]
  /\ _mutations registered_twice !! "counter/increment"
     = Some [(counter_local, increment); (counter_local, increment)].
Proof.
  assert (H1 : registerModule true ["counter"] counter true (store true)
               = Ok tt registered_twice) by (vm_compute; reflexivity).
  split; [exact H1|]. split; [|split; vm_compute; reflexivity].
  exact (proj2 (Registries.installation_only_adds true) _ _ _ _ _ H1).
Defined.

Lemma module_handlers_are_registered_example :
  exists v s',
    installModule true state0 ["extra"] (build true extra) true with_extra = Ok v s'
    /\ ModuleCollection.getNamespace (_modules with_extra) ["extra"] = Val "extra/"
    /\ (exists entry,
          _mutations s' !! "extra/inc" = Some entry
          /\ (makeLocalContext "extra/" ["extra"], increment) ∈ entry)
    /\ (exists entry,
          _actions s' !! "go" = Some entry
          /\ (makeLocalContext "extra/" ["extra"], fetch) ∈ entry).
Proof.
  eexists _, _.
  assert (H2 : ModuleCollection.getNamespace (_modules with_extra) ["extra"] = Val "extra/")
    by (vm_compute; reflexivity).
  split; [vm_compute; reflexivity|]. split; [exact H2|].
  match goal with
  | |- (exists entry, _mutations ?s' !! _ = _ /\ _) /\ _ =>
      assert (H1 : installModule true state0 ["extra"] (build true extra) true with_extra
                   = Ok state0 s') by (vm_compute; reflexivity)
  end.
  destruct (Registries.module_handlers_are_registered true state0 ["extra"] (build true extra)
              true with_extra _ _ "extra/" H1 H2) as (Hm & Ha & _).
  split.
  - apply (Hm "inc" increment). apply elem_of_cons. by left.
  - apply (Ha "go" (mkActionDef true fetch)). apply elem_of_cons. by left.
Defined.
End RegistriesExample.

Module CompositionExample.
Import Example ExampleFacts RegisterSample.


End CompositionExample.

Module RegisteringExample.
Import Example ExampleFacts RegisterSample.


Lemma registerModule_preserves_state_example :
  ["extra"] <> []
  /\ ModuleCollection.get (_modules (store true)) (slice_init ["extra"])
     = Val (Some (_modules (store true)))
  /\ _state (store true) = Some state0
  /\ exists s',
       registerModule true ["extra"] extra true (store true) = Ok tt s'
       /\ _state s' = Some state0
       /\ hasModule ["extra"] s' = Ok true s'.
Proof.
  assert (H1 : ["extra"] <> ([] : list string)) by done.
  assert (H2 : ModuleCollection.get (_modules (store true)) (slice_init ["extra"])
               = Val (Some (_modules (store true)))) by reflexivity.
  assert (H3 : _state (store true) = Some state0) by apply store_state.
  split; [exact H1|]. split; [exact H2|]. split; [exact H3|].
  destruct (Registering.registerModule_preserves_state true ["extra"] extra (store true)
              _ state0 H1 H2 H3) as (s' & Hrun & Hst & Hhas & _).
  exists s'. by repeat split.
Defined.

End RegisteringExample.

Module HotHandlersExample.
Import Example ExampleFacts RegisterSample.

Lemma hotUpdate_registers_new_handlers_example :
  _state (store true) = Some state0
  /\ wf_module (_modules (store true)) = true
  /\ exists s',
       hotUpdate true reloaded (store true) = Ok tt s'
       /\ (exists entry,
             _mutations s' !! "reset" = Some entry /\ (root_local, increment) ∈ entry)
       /\ (exists entry, _actions s' !! "load" = Some entry /\ (root_local, fetch) ∈ entry).
Proof.
  assert (H1 : _state (store true) = Some state0) by apply store_state.
  assert (H2 : wf_module (_modules (store true)) = true) by apply store_wf.
  split; [exact H1|]. split; [exact H2|].
  destruct (HotHandlers.hotUpdate_registers_new_handlers true reloaded (store true) state0
              H1 H2) as (s' & Hrun & Hm & Ha).
  exists s'. split; [exact Hrun|]. split.
  - apply (Hm "reset" increment). apply elem_of_cons. by left.
  - apply (Ha "load" (mkActionDef false fetch)). apply elem_of_cons. by left.
Defined.
End HotHandlersExample.

(** ** The registries after [resetStore] *)

Lemma simulates_bind {A B} (R : A -> A -> Prop) (R' : B -> B -> Prop)
    (c1 c2 : M A) (k1 k2 : A -> M B) :
  simulates R c1 c2 ->
  (forall a1 a2, R a1 a2 -> simulates R' (k1 a1) (k2 a2)) ->
  simulates R' (bind c1 k1) (bind c2 k2).
Proof.
  intros Hc Hk s1 s2 b1 s1' Hsame Hrun.
  apply bind_inv in Hrun as (a1 & t1 & Hrun1 & Hrun2).
  destruct (Hc s1 s2 a1 t1 Hsame Hrun1) as (a2 & t2 & Hc2 & HR & Hsame').
  destruct (Hk a1 a2 HR t1 t2 b1 s1' Hsame' Hrun2) as (b2 & s2' & Hk2 & HR' & Hsame'').
  exists b2, s2'. by rewrite (bind_Ok _ _ _ _ _ Hc2).
Qed.

Lemma simulates_ret {A} (R : A -> A -> Prop) (a1 a2 : A) :
  R a1 a2 -> simulates R (ret a1) (ret a2).
Proof. intros HR s1 s2 a s1' Hsame [= <- <-]. by exists a2, s2. Qed.

Lemma simulates_lift {A} (r : res A) : simulates eq (lift r) (lift r).
Proof.
  intros s1 s2 a s1' Hsame. destruct r as [x|e]; [|discriminate].
  intros [= <- <-]. by exists x, s2.
Qed.

Lemma simulates_gets {A} (f : Store -> A) :
  (forall s1 s2, same_registries s1 s2 -> f s1 = f s2) -> simulates eq (gets f) (gets f).
Proof.
  intros Hf s1 s2 a s1' Hsame [= <- <-]. exists (f s2), s2. split; [done|]. split; [|done].
  by apply Hf.
Qed.

Lemma simulates_modify (f : Store -> Store) :
  (forall s1 s2, same_registries s1 s2 -> same_registries (f s1) (f s2)) ->
  simulates eq (modify f) (modify f).
Proof.
  intros Hf s1 s2 a s1' Hsame [= <- <-]. exists tt, (f s2). split; [done|]. split; [done|].
  by apply Hf.
Qed.

Lemma simulates_log (e : LogEntry) : simulates eq (log e) (log e).
Proof. apply simulates_modify. by intros s1 s2 []. Qed.

Lemma simulates_when (b : bool) (c : M unit) :
  simulates eq c c -> simulates eq (when b c) (when b c).
Proof. destruct b; [done|]. intros _. by apply simulates_ret. Qed.

Lemma simulates_forEach {A} (xs : list A) (f : A -> M unit) :
  (forall x, simulates eq (f x) (f x)) -> simulates eq (forEach xs f) (forEach xs f).
Proof.
  intros Hf. induction xs as [|x xs IH]; cbn [forEach]; [by apply simulates_ret|].
  eapply simulates_bind; [apply Hf|]. intros _ _ _. exact IH.
Qed.

Lemma simulates_registerMutation (type : string) (handler : Mutation) (local : Local) :
  simulates eq (registerMutation type handler local) (registerMutation type handler local).
Proof.
  apply simulates_modify. intros s1 s2 [Ha Hm Hg Hn Ht]. split; cbn; try done.
  by rewrite Hm.
Qed.

Lemma simulates_registerAction (type : string) (handler : Action) (local : Local) :
  simulates eq (registerAction type handler local) (registerAction type handler local).
Proof.
  apply simulates_modify. intros s1 s2 [Ha Hm Hg Hn Ht]. split; cbn; try done.
  by rewrite Ha.
Qed.

Lemma simulates_registerGetter (DEV : bool) (type : string) (getter : Getter) (local : Local) :
  simulates eq (registerGetter DEV type getter local) (registerGetter DEV type getter local).
Proof.
  unfold registerGetter. eapply simulates_bind.
  { apply simulates_gets. by intros s1 s2 []. }
  intros g ? <-. destruct (registered g type).
  - apply simulates_when, simulates_log.
  - apply simulates_modify. by intros s1 s2 [].
Qed.

(** A reinstallation does to the registries what the tree says, whatever
    the root state that it is given. *)
Lemma simulates_installModule (DEV : bool) (module : Module) :
  forall (path : list string) (rs1 rs2 : val),
    simulates (fun _ _ => True)
      (installModule DEV rs1 path module true) (installModule DEV rs2 path module true).
Proof.
  induction module as [rt raw st cs IH] using Module_rect'.
  intros path rs1 rs2. rewrite !installModule_unfold.
  eapply simulates_bind.
  { apply simulates_gets. by intros s1 s2 []. }
  intros root ? <-. eapply simulates_bind; [apply simulates_lift|].
  intros namespace ? <-. eapply simulates_bind.
  { apply simulates_when. eapply simulates_bind.
    { apply simulates_gets. by intros s1 s2 []. }
    intros map ? <-. eapply simulates_bind; [apply simulates_when, simulates_log|].
    intros _ _ _. apply simulates_modify. by intros s1 s2 []. }
  intros _ _ _. rewrite andb_false_r.
  eapply (simulates_bind (fun _ _ => True)); [by apply simulates_ret|].
  intros r1 r2 _. cbv zeta. eapply simulates_bind.
  { apply simulates_forEach. intros [key m]. apply simulates_registerMutation. }
  intros _ _ _. eapply simulates_bind.
  { apply simulates_forEach. intros [key a]. apply simulates_registerAction. }
  intros _ _ _. eapply simulates_bind.
  { apply simulates_forEach. intros [key g]. apply simulates_registerGetter. }
  intros _ _ _. cbn [_children]. revert r1 r2.
  induction cs as [|[key child] cs IHcs]; intros r1 r2; cbn [install_children].
  - by apply simulates_ret.
  - apply Forall_cons in IH as [IHc IH].
    eapply (simulates_bind (fun _ _ => True)); [apply IHc|].
    intros r1' r2' _. by apply IHcs.
Qed.

Module Rebuild.
(** X26: [resetStore] rebuilds the registries from the module tree: what
    was registered before plays no part.  When it returns in a store, it
    returns in every store with the same module tree that holds a state,
    and leaves there the same handlers, getters and namespace map. *)
Theorem resetStore_rebuilds_registries (DEV hot : bool) (s1 s2 s1' : Store) :
  _modules s1 = _modules s2 ->
  is_Some (_state s2) ->
  resetStore DEV hot s1 = Ok tt s1' ->
  exists s2',
    resetStore DEV hot s2 = Ok tt s2'
    /\ _mutations s2' = _mutations s1'
    /\ _actions s2' = _actions s1'
    /\ _wrappedGetters s2' = _wrappedGetters s1'
    /\ _modulesNamespaceMap s2' = _modulesNamespaceMap s1'.
Proof.
  intros Hmods [st2 Hst2] Hrun. unfold resetStore in *.
  rewrite !bind_modify in Hrun. rewrite !bind_modify.
  set (t1 := set_modulesNamespaceMap ∅
               (set_wrappedGetters ∅ (set_mutations ∅ (set_actions ∅ s1)))) in *.
  set (t2 := set_modulesNamespaceMap ∅
               (set_wrappedGetters ∅ (set_mutations ∅ (set_actions ∅ s2)))).
  assert (Hsame : same_registries t1 t2) by (by split).
  apply bind_inv in Hrun as (st1 & u1 & Hget1 & Hrun).
  assert (u1 = t1) as ->.
  { unfold get_state in Hget1. destruct (_state t1); [|discriminate]. by injection Hget1. }
  rewrite bind_gets in Hrun.
  apply bind_inv in Hrun as (v1 & w1 & Hinst1 & Hrun).
  rewrite (bind_get_state _ t2 st2 Hst2), bind_gets.
  replace (_modules t2) with (_modules t1) by done.
  destruct (simulates_installModule DEV (_modules t1) [] st1 st2 t1 t2 v1 w1 Hsame Hinst1)
    as (v2 & w2 & Hinst2 & _ & [Ha Hm Hg Hn Ht]).
  rewrite (bind_Ok _ _ _ _ _ Hinst2).
  unfold resetStoreState in *. rewrite bind_gets, bind_modify in Hrun.
  rewrite bind_gets, bind_modify.
  destruct (bool_decide (is_Some (_state w1))), (bool_decide (is_Some (_state w2))), hot;
    cbn in Hrun |- *; unfold ret in *; injection Hrun as <-; eexists;
    (split; [reflexivity|]); repeat split; cbn; congruence.
Qed.
End Rebuild.

Module RebuildExample.
Import Example ExampleFacts RebuildSample.

Lemma resetStore_rebuilds_registries_example :
  _modules stale = _modules (store true)
  /\ is_Some (_state (store true))
  /\ _mutations stale !! "gone" = Some [(root_local, increment)]
  /\ exists s1' s2',
       resetStore true false stale = Ok tt s1'
       /\ resetStore true false (store true) = Ok tt s2'
       /\ _mutations s2' = _mutations s1'
       /\ _mutations s1' !! "gone" = None.
Proof.
  assert (H1 : _modules stale = _modules (store true)) by reflexivity.
  assert (H2 : is_Some (_state (store true))) by (rewrite store_state; eauto).
  split; [exact H1|]. split; [exact H2|]. split; [by vm_compute|]. eexists _.
  match goal with
  | |- exists s2', resetStore _ _ _ = Ok tt ?s1' /\ _ =>
      assert (H3 : resetStore true false stale = Ok tt s1') by (vm_compute; reflexivity)
  end.
  destruct (Rebuild.resetStore_rebuilds_registries true false stale (store true)
              _ H1 H2 H3) as (s2' & Hrun & Hm & _).
  exists s2'. split; [exact H3|]. split; [exact Hrun|]. split; [exact Hm|].
  vm_compute. reflexivity.
Defined.
End RebuildExample.
